(** * ViralShorts: the timeline editor reducer and the export pipeline

    A shallow embedding of
    - [frontend/src/context/EditorContext.tsx]: the timeline model
      ([TimelineClip], [TimelineTrack], [SubtitleItem], [EditorState]), the
      helpers [saveToHistory], [calculateDuration], [findClip] and the
      reducer [editorReducer];
    - [backend/src/routes/uploads.routes.ts]: the [/:projectId/export]
      route handler, as a program in a small state-and-exception monad over
      the scratch directory and the socket channel.

    Further modules embed what surrounds these two: the preview player
    ([PreviewPlayer]), the quick editor ([VideoEditor]: clip positions,
    word timings, trim handles, the export request), the subtitle panel
    ([SubtitleEditor]) and the timeline built by [EditorPage.tsx].

    Times on the timeline are read as exact rationals ([Q]): a time such as
    [2.5] is the rational [5/2], [a - b] is [Qminus], comparisons are the
    rational order.  JavaScript computes on IEEE doubles, where every
    operation rounds; so the properties proved over [Q] are stated with
    comparisons and with the very expressions the code evaluates, never
    with an identity that holds of exact arithmetic only.  Where rounding
    decides the matter (the audio mix written with [toFixed(2)], the two
    durations a split leaves), the numbers are binary64 values
    ([Doubles]). *)

From Stdlib Require Import List String Ascii Bool Arith ZArith QArith Qminmax Qround Qpower
  DecimalString DecimalPos DecimalZ Sorted Permutation Lia Lqa SpecFloat.
Import ListNotations.

Local Open Scope string_scope.
Local Open Scope Q_scope.
Local Open Scope list_scope.

(** ** JavaScript numbers as binary64 values *)

Module Doubles.

(** A JavaScript number: an IEEE 754 binary64 value, operations rounding to
    nearest, ties to even. *)
Definition double : Type := spec_float.

Definition prec : Z := 53.
Definition emax : Z := 1024.

Definition dadd : double -> double -> double := SFadd prec emax.
Definition dsub : double -> double -> double := SFsub prec emax.
Definition dmul : double -> double -> double := SFmul prec emax.
Definition ddiv : double -> double -> double := SFdiv prec emax.

(** [x <= y] and [x < y]; both are false when an operand is [NaN]. *)
Definition dleb : double -> double -> bool := SFleb.
Definition dltb : double -> double -> bool := SFltb.

(** An integer as a double (exact below [2^53] in size). *)
Definition ofZ (z : Z) : double := binary_normalize prec emax z 0 false.

Definition zero : double := S754_zero false.
Definition one : double := ofZ 1.

(** The double that the decimal literal with digits [n] and [k] decimals
    denotes: [n / 10^k] rounded once (for [n] below [2^53] and [k <= 22],
    where [n] and [10^k] are doubles themselves).  [decimal 9 1] is [0.9]. *)
Definition decimal (n : Z) (k : nat) : double := ddiv (ofZ n) (ofZ (10 ^ Z.of_nat k)).

Definition isFinite (x : double) : bool :=
  match x with
  | S754_zero _ | S754_finite _ _ _ => true
  | S754_infinity _ | S754_nan => false
  end.

(** The rational a finite double is. *)
Definition value (x : double) : Q :=
  match x with
  | S754_finite s m e => inject_Z (if s then Z.neg m else Z.pos m) * 2 ^ e
  | _ => 0
  end.

(** [Math.max(0, x)]. *)
Definition max0 (x : double) : double :=
  match x with
  | S754_nan => S754_nan
  | _ => if dltb zero x then x else zero
  end.

End Doubles.

(** ** The timeline editor ([EditorContext.tsx]) *)

Module Editor.

(** [type: 'video' | 'audio'] of a clip. *)
Inductive ClipType : Type := ClipVideo | ClipAudio.

(** [type: 'video' | 'audio' | 'subtitle'] of a track. *)
Inductive TrackType : Type := TrackVideo | TrackAudio | TrackSubtitle.

(** [position: 'top' | 'center' | 'bottom'] of a subtitle style. *)
Inductive SubtitlePosition : Type := PosTop | PosCenter | PosBottom.

Record TimelineClip : Type := mkClip {
  c_id : string;
  c_sourceId : string;
  c_sourceUrl : string;
  c_startTime : Q;
  c_duration : Q;
  c_trimStart : Q;
  c_trimEnd : Q;
  c_type : ClipType
}.

Record TimelineTrack : Type := mkTrack {
  t_id : string;
  t_name : string;
  t_type : TrackType;
  t_clips : list TimelineClip;
  t_muted : option bool;
  t_volume : option Q;
  t_locked : option bool;
  t_visible : option bool
}.

Record SubtitleStyle : Type := mkStyle {
  st_preset : string;
  st_fontSize : Q;
  st_color : string;
  st_backgroundColor : string;
  st_position : SubtitlePosition
}.

Record SubtitleItem : Type := mkSubtitle {
  s_id : string;
  s_text : string;
  s_startTime : Q;
  s_endTime : Q;
  s_style : SubtitleStyle
}.

(** [Partial<SubtitleItem>]: every key may be absent. *)
Record SubtitleUpdates : Type := mkUpdates {
  u_id : option string;
  u_text : option string;
  u_startTime : option Q;
  u_endTime : option Q;
  u_style : option SubtitleStyle
}.

Record EditorSnapshot : Type := mkSnapshot {
  snap_tracks : list TimelineTrack;
  snap_subtitles : list SubtitleItem
}.

Record History : Type := mkHistory {
  past : list EditorSnapshot;
  future : list EditorSnapshot
}.

Record EditorState : Type := mkState {
  tracks : list TimelineTrack;
  subtitles : list SubtitleItem;
  playhead : Q;
  duration : Q;
  zoom : Q;
  isPlaying : bool;
  selectedClipId : option string;
  selectedSubtitleId : option string;
  clipboard : option TimelineClip;
  history : History;
  exportProgress : option Q;
  previewUrl : option string
}.

Inductive EditorAction : Type :=
| SET_TRACKS (tracks : list TimelineTrack)
| ADD_CLIP (trackId : string) (clip : TimelineClip)
| REMOVE_CLIP (clipId : string)
| MOVE_CLIP (clipId : string) (newStartTime : Q) (newTrackId : option string)
| TRIM_CLIP (clipId : string) (trimStart trimEnd : Q)
| SPLIT_CLIP (clipId : string) (splitPoint : Q)
| SELECT_CLIP (clipId : option string)
| COPY_CLIP (clipId : string)
| PASTE_CLIP (trackId : string) (startTime : Q)
| ADD_TRACK (track : TimelineTrack)
| REMOVE_TRACK (trackId : string)
| TOGGLE_TRACK_MUTE (trackId : string)
| TOGGLE_TRACK_LOCK (trackId : string)
| TOGGLE_TRACK_VISIBILITY (trackId : string)
| SET_TRACK_VOLUME (trackId : string) (volume : Q)
| LOAD_PROJECT_DATA (data_tracks : list TimelineTrack) (data_subtitles : list SubtitleItem)
| ADD_SUBTITLE (subtitle : SubtitleItem)
| UPDATE_SUBTITLE (subtitleId : string) (updates : SubtitleUpdates)
| REMOVE_SUBTITLE (subtitleId : string)
| SELECT_SUBTITLE (subtitleId : option string)
| SET_PLAYHEAD (time : Q)
| SET_PLAYING (isPlaying : bool)
| SET_ZOOM (zoom : Q)
| UNDO
| REDO
| SET_EXPORT_PROGRESS (progress : option Q)
| SET_PREVIEW_URL (url : option string)
| RESET.

Definition initialState : EditorState :=
  {| tracks :=
       [ mkTrack "video-track-1" "Video 1" TrackVideo [] None None (Some false) (Some true);
         mkTrack "audio-track-1" "Audio 1" TrackAudio [] None (Some 1) (Some false) (Some true) ];
     subtitles := [];
     playhead := 0;
     duration := 0;
     zoom := 1;
     isPlaying := false;
     selectedClipId := None;
     selectedSubtitleId := None;
     clipboard := None;
     history := mkHistory [] [];
     exportProgress := None;
     previewUrl := None |}.

(** *** Field updates (assignments to one key of an immer draft) *)

Definition set_tracks (v : list TimelineTrack) (s : EditorState) : EditorState :=
  mkState v (subtitles s) (playhead s) (duration s) (zoom s) (isPlaying s)
          (selectedClipId s) (selectedSubtitleId s) (clipboard s) (history s)
          (exportProgress s) (previewUrl s).

Definition set_subtitles (v : list SubtitleItem) (s : EditorState) : EditorState :=
  mkState (tracks s) v (playhead s) (duration s) (zoom s) (isPlaying s)
          (selectedClipId s) (selectedSubtitleId s) (clipboard s) (history s)
          (exportProgress s) (previewUrl s).

Definition set_playhead (v : Q) (s : EditorState) : EditorState :=
  mkState (tracks s) (subtitles s) v (duration s) (zoom s) (isPlaying s)
          (selectedClipId s) (selectedSubtitleId s) (clipboard s) (history s)
          (exportProgress s) (previewUrl s).

Definition set_duration (v : Q) (s : EditorState) : EditorState :=
  mkState (tracks s) (subtitles s) (playhead s) v (zoom s) (isPlaying s)
          (selectedClipId s) (selectedSubtitleId s) (clipboard s) (history s)
          (exportProgress s) (previewUrl s).

Definition set_zoom (v : Q) (s : EditorState) : EditorState :=
  mkState (tracks s) (subtitles s) (playhead s) (duration s) v (isPlaying s)
          (selectedClipId s) (selectedSubtitleId s) (clipboard s) (history s)
          (exportProgress s) (previewUrl s).

Definition set_isPlaying (v : bool) (s : EditorState) : EditorState :=
  mkState (tracks s) (subtitles s) (playhead s) (duration s) (zoom s) v
          (selectedClipId s) (selectedSubtitleId s) (clipboard s) (history s)
          (exportProgress s) (previewUrl s).

Definition set_selectedClipId (v : option string) (s : EditorState) : EditorState :=
  mkState (tracks s) (subtitles s) (playhead s) (duration s) (zoom s) (isPlaying s)
          v (selectedSubtitleId s) (clipboard s) (history s)
          (exportProgress s) (previewUrl s).

Definition set_selectedSubtitleId (v : option string) (s : EditorState) : EditorState :=
  mkState (tracks s) (subtitles s) (playhead s) (duration s) (zoom s) (isPlaying s)
          (selectedClipId s) v (clipboard s) (history s)
          (exportProgress s) (previewUrl s).

Definition set_clipboard (v : option TimelineClip) (s : EditorState) : EditorState :=
  mkState (tracks s) (subtitles s) (playhead s) (duration s) (zoom s) (isPlaying s)
          (selectedClipId s) (selectedSubtitleId s) v (history s)
          (exportProgress s) (previewUrl s).

Definition set_history (v : History) (s : EditorState) : EditorState :=
  mkState (tracks s) (subtitles s) (playhead s) (duration s) (zoom s) (isPlaying s)
          (selectedClipId s) (selectedSubtitleId s) (clipboard s) v
          (exportProgress s) (previewUrl s).

Definition set_exportProgress (v : option Q) (s : EditorState) : EditorState :=
  mkState (tracks s) (subtitles s) (playhead s) (duration s) (zoom s) (isPlaying s)
          (selectedClipId s) (selectedSubtitleId s) (clipboard s) (history s)
          v (previewUrl s).

Definition set_previewUrl (v : option string) (s : EditorState) : EditorState :=
  mkState (tracks s) (subtitles s) (playhead s) (duration s) (zoom s) (isPlaying s)
          (selectedClipId s) (selectedSubtitleId s) (clipboard s) (history s)
          (exportProgress s) v.

Definition set_c_startTime (v : Q) (c : TimelineClip) : TimelineClip :=
  mkClip (c_id c) (c_sourceId c) (c_sourceUrl c) v (c_duration c)
         (c_trimStart c) (c_trimEnd c) (c_type c).

Definition set_c_duration (v : Q) (c : TimelineClip) : TimelineClip :=
  mkClip (c_id c) (c_sourceId c) (c_sourceUrl c) (c_startTime c) v
         (c_trimStart c) (c_trimEnd c) (c_type c).

Definition set_c_trimStart (v : Q) (c : TimelineClip) : TimelineClip :=
  mkClip (c_id c) (c_sourceId c) (c_sourceUrl c) (c_startTime c) (c_duration c)
         v (c_trimEnd c) (c_type c).

Definition set_c_trimEnd (v : Q) (c : TimelineClip) : TimelineClip :=
  mkClip (c_id c) (c_sourceId c) (c_sourceUrl c) (c_startTime c) (c_duration c)
         (c_trimStart c) v (c_type c).

Definition set_c_id (v : string) (c : TimelineClip) : TimelineClip :=
  mkClip v (c_sourceId c) (c_sourceUrl c) (c_startTime c) (c_duration c)
         (c_trimStart c) (c_trimEnd c) (c_type c).

Definition set_t_clips (v : list TimelineClip) (t : TimelineTrack) : TimelineTrack :=
  mkTrack (t_id t) (t_name t) (t_type t) v (t_muted t) (t_volume t)
          (t_locked t) (t_visible t).

Definition set_t_muted (v : option bool) (t : TimelineTrack) : TimelineTrack :=
  mkTrack (t_id t) (t_name t) (t_type t) (t_clips t) v (t_volume t)
          (t_locked t) (t_visible t).

Definition set_t_volume (v : option Q) (t : TimelineTrack) : TimelineTrack :=
  mkTrack (t_id t) (t_name t) (t_type t) (t_clips t) (t_muted t) v
          (t_locked t) (t_visible t).

Definition set_t_locked (v : option bool) (t : TimelineTrack) : TimelineTrack :=
  mkTrack (t_id t) (t_name t) (t_type t) (t_clips t) (t_muted t) (t_volume t)
          v (t_visible t).

Definition set_t_visible (v : option bool) (t : TimelineTrack) : TimelineTrack :=
  mkTrack (t_id t) (t_name t) (t_type t) (t_clips t) (t_muted t) (t_volume t)
          (t_locked t) v.

(** *** JavaScript primitives used by the reducer *)

(** [a > b] on numbers. *)
Definition Qgtb (a b : Q) : bool := negb (Qle_bool a b).

(** [Math.max], [Math.min]. *)
Definition Math_max (a b : Q) : Q := Qmax a b.
Definition Math_min (a b : Q) : Q := Qmin a b.

(** [!x] for an optional boolean: [undefined] is falsy. *)
Definition js_not (b : option bool) : bool :=
  match b with Some true => false | _ => true end.

(** Truthiness of an optional string ([action.newTrackId && ...]): absent
    and the empty string are falsy. *)
Definition truthy_string (o : option string) : option string :=
  match o with
  | Some s => if String.eqb s "" then None else Some s
  | None => None
  end.

Definition TrackType_eqb (a b : TrackType) : bool :=
  match a, b with
  | TrackVideo, TrackVideo | TrackAudio, TrackAudio
  | TrackSubtitle, TrackSubtitle => true
  | _, _ => false
  end.

Definition opt_string_eqb (o : option string) (s : string) : bool :=
  match o with Some x => String.eqb x s | None => false end.

Section ArrayOps.
Context {A : Type}.

(** [arr.findIndex(p)] together with the element [arr[index]] found
    there; [None] for [-1]. *)
Fixpoint findIndex (p : A -> bool) (l : list A) : option (nat * A) :=
  match l with
  | [] => None
  | x :: r => if p x then Some (O, x)
              else match findIndex p r with
                   | Some (i, y) => Some (S i, y)
                   | None => None
                   end
  end.

(** [arr.splice(i, 1)]. *)
Fixpoint remove_at (i : nat) (l : list A) : list A :=
  match l, i with
  | [], _ => []
  | _ :: r, O => r
  | x :: r, S j => x :: remove_at j r
  end.

(** [arr.splice(i, 0, y)]: [y] is inserted at position [i] (at the end
    when [i] is beyond the length). *)
Fixpoint insert_at (i : nat) (y : A) (l : list A) : list A :=
  match i, l with
  | O, _ => y :: l
  | S j, [] => [y]
  | S j, x :: r => x :: insert_at j y r
  end.

(** In-place mutation of the element at position [i]. *)
Fixpoint update_at (i : nat) (f : A -> A) (l : list A) : list A :=
  match l, i with
  | [], _ => []
  | x :: r, O => f x :: r
  | x :: r, S j => x :: update_at j f r
  end.

(** [arr.sort((a, b) => key(a) - key(b))]: the sort is stable. *)
Fixpoint sort_insert (key : A -> Q) (x : A) (l : list A) : list A :=
  match l with
  | [] => [x]
  | y :: r => if Qle_bool (key x) (key y) then x :: y :: r
              else y :: sort_insert key x r
  end.

Definition sort_by (key : A -> Q) (l : list A) : list A :=
  fold_right (sort_insert key) [] l.

(** [arr.shift()] as the remaining array. *)
Definition shift (l : list A) : list A := tl l.

(** [arr.pop()] as the removed element and the remaining array. *)
Definition pop (l : list A) : option (A * list A) :=
  match rev l with
  | [] => None
  | x :: r => Some (x, rev r)
  end.
End ArrayOps.

(** *** [JSON.parse(JSON.stringify(x))]: a deep copy, rebuilt key by key *)

Definition cloneClip (c : TimelineClip) : TimelineClip :=
  mkClip (c_id c) (c_sourceId c) (c_sourceUrl c) (c_startTime c) (c_duration c)
         (c_trimStart c) (c_trimEnd c) (c_type c).

Definition cloneTrack (t : TimelineTrack) : TimelineTrack :=
  mkTrack (t_id t) (t_name t) (t_type t) (map cloneClip (t_clips t))
          (t_muted t) (t_volume t) (t_locked t) (t_visible t).

Definition cloneStyle (y : SubtitleStyle) : SubtitleStyle :=
  mkStyle (st_preset y) (st_fontSize y) (st_color y) (st_backgroundColor y)
          (st_position y).

Definition cloneSubtitle (s : SubtitleItem) : SubtitleItem :=
  mkSubtitle (s_id s) (s_text s) (s_startTime s) (s_endTime s)
             (cloneStyle (s_style s)).

Definition snapshot (s : EditorState) : EditorSnapshot :=
  {| snap_tracks := map cloneTrack (tracks s);
     snap_subtitles := map cloneSubtitle (subtitles s) |}.

(** *** Helpers of the reducer *)

(** Helper to save history snapshot; history is limited to 50 items. *)
Definition saveToHistory (state : EditorState) : EditorState :=
  let pushed := past (history state) ++ [snapshot state] in
  let limited := if Nat.ltb 50 (List.length pushed) then shift pushed else pushed in
  set_history (mkHistory limited []) state.

(** Calculate total duration from all tracks. *)
Definition calculateDuration (tracks : list TimelineTrack) : Q :=
  fold_left
    (fun maxEnd track =>
       fold_left
         (fun maxEnd clip =>
            let clipEnd := c_startTime clip + c_duration clip in
            if Qgtb clipEnd maxEnd then clipEnd else maxEnd)
         (t_clips track) maxEnd)
    tracks 0.

(** The result of [findClip].  [fc_pos] is the position in [tracks] of the
    track object that [fc_track] refers to: the reducer mutates that object
    through the reference. *)
Record FoundClip : Type := mkFound {
  fc_pos : nat;
  fc_track : TimelineTrack;
  fc_clip : TimelineClip;
  fc_index : nat
}.

Fixpoint findClip_from (pos : nat) (tracks : list TimelineTrack) (clipId : string)
  : option FoundClip :=
  match tracks with
  | [] => None
  | track :: rest =>
      match findIndex (fun c => String.eqb (c_id c) clipId) (t_clips track) with
      | Some (index, clip) => Some (mkFound pos track clip index)
      | None => findClip_from (S pos) rest clipId
      end
  end.

(** Find clip by ID across all tracks. *)
Definition findClip (tracks : list TimelineTrack) (clipId : string) : option FoundClip :=
  findClip_from O tracks clipId.

(** [tracks.find((t) => t.id === trackId)]: the track object found, with
    its position in [tracks] standing for the reference. *)
Definition findTrack (tracks : list TimelineTrack) (trackId : string)
  : option (nat * TimelineTrack) :=
  findIndex (fun t => String.eqb (t_id t) trackId) tracks.

(** [{ ...subtitle, ...updates }]. *)
Definition applyUpdates (s : SubtitleItem) (u : SubtitleUpdates) : SubtitleItem :=
  mkSubtitle (match u_id u with Some v => v | None => s_id s end)
             (match u_text u with Some v => v | None => s_text s end)
             (match u_startTime u with Some v => v | None => s_startTime s end)
             (match u_endTime u with Some v => v | None => s_endTime s end)
             (match u_style u with Some v => v | None => s_style s end).

(** The loop of [REMOVE_CLIP]: the first track holding a clip with this id
    loses it ([splice(index, 1)], then [break]). *)
Fixpoint removeClip (tracks : list TimelineTrack) (clipId : string)
  : list TimelineTrack :=
  match tracks with
  | [] => []
  | track :: rest =>
      match findIndex (fun c => String.eqb (c_id c) clipId) (t_clips track) with
      | Some (index, _) => set_t_clips (remove_at index (t_clips track)) track :: rest
      | None => track :: removeClip rest clipId
      end
  end.

(** [track.clips.push(clip); track.clips.sort(...)] on one track object. *)
Definition pushClipSorted (clip : TimelineClip) (track : TimelineTrack) : TimelineTrack :=
  set_t_clips (sort_by c_startTime (t_clips track ++ [clip])) track.

(** [draft.duration = calculateDuration(draft.tracks)]. *)
Definition recomputeDuration (s : EditorState) : EditorState :=
  set_duration (calculateDuration (tracks s)) s.

(** The body of [MOVE_CLIP] on the tracks of the draft, once [findClip] has
    answered. *)
Definition moveClipTracks (ts : list TimelineTrack) (result : FoundClip)
    (newStartTime : Q) (newTrackId : option string) : list TimelineTrack :=
  let sourceTrack := fc_track result in
  let clip := fc_clip result in
  let index := fc_index result in
  let samePosition :=
    (* Same track, just update position *)
    update_at (fc_pos result)
      (fun t => set_t_clips
                  (sort_by c_startTime
                     (update_at index (set_c_startTime (Math_max 0 newStartTime))
                        (t_clips t))) t)
      ts in
  match truthy_string newTrackId with
  | Some tid =>
      if negb (String.eqb tid (t_id sourceTrack)) then
        (* If moving to different track *)
        match findTrack ts tid with
        | Some (tpos, targetTrack) =>
            if TrackType_eqb (t_type targetTrack) (t_type sourceTrack) then
              let ts1 := update_at (fc_pos result)
                           (fun t => set_t_clips (remove_at index (t_clips t)) t) ts in
              update_at tpos
                (pushClipSorted (set_c_startTime (Math_max 0 newStartTime) clip)) ts1
            else ts
        | None => ts
        end
      else samePosition
  | None => samePosition
  end.

(** The two assignments of [TRIM_CLIP] and the recomputed clip duration. *)
Definition trimClip (trimStart trimEnd : Q) (clip : TimelineClip) : TimelineClip :=
  let c1 := set_c_trimStart trimStart clip in
  let c2 := set_c_trimEnd trimEnd c1 in
  set_c_duration (c_duration c2 - trimStart - trimEnd) c2.

(** [SPLIT_CLIP], second clip: [{ ...clip, id: uuidv4(), startTime, duration,
    trimStart }], built before the first clip is modified. *)
Definition splitSecond (uuid : string) (actionSplitPoint splitPoint : Q)
    (clip : TimelineClip) : TimelineClip :=
  mkClip uuid (c_sourceId clip) (c_sourceUrl clip) actionSplitPoint
         (c_duration clip - splitPoint) (c_trimStart clip + splitPoint)
         (c_trimEnd clip) (c_type clip).

(** [SPLIT_CLIP], first clip: the two assignments in the order of the
    source, the second one reading [clip.duration] after the first wrote it. *)
Definition splitFirst (splitPoint : Q) (clip : TimelineClip) : TimelineClip :=
  let c1 := set_c_duration splitPoint clip in
  set_c_trimEnd (c_trimEnd c1 + (c_duration c1 - splitPoint)) c1.

(** The reducer.  [uuid] is the value that [uuidv4()] returns if this
    reduction calls it (SPLIT_CLIP and PASTE_CLIP call it once). *)
Definition editorReducer (uuid : string) (state : EditorState) (action : EditorAction)
  : EditorState :=
  match action with
  | SET_TRACKS ts =>
      set_duration (calculateDuration ts) (set_tracks ts state)

  | ADD_CLIP trackId clip =>
      let newState := saveToHistory state in
      match findTrack (tracks newState) trackId with
      | Some (pos, _) =>
          recomputeDuration
            (set_tracks (update_at pos (pushClipSorted clip) (tracks newState)) newState)
      | None => newState
      end

  | REMOVE_CLIP clipId =>
      let newState := saveToHistory state in
      let s1 := set_tracks (removeClip (tracks newState) clipId) newState in
      let s2 := if opt_string_eqb (selectedClipId s1) clipId
                then set_selectedClipId None s1 else s1 in
      recomputeDuration s2

  | MOVE_CLIP clipId newStartTime newTrackId =>
      let newState := saveToHistory state in
      match findClip (tracks newState) clipId with
      | None => newState
      | Some result =>
          recomputeDuration
            (set_tracks (moveClipTracks (tracks newState) result newStartTime newTrackId)
               newState)
      end

  | TRIM_CLIP clipId trimStart trimEnd =>
      let newState := saveToHistory state in
      match findClip (tracks newState) clipId with
      | None => newState
      | Some result =>
          recomputeDuration
            (set_tracks
               (update_at (fc_pos result)
                  (fun t => set_t_clips
                              (update_at (fc_index result) (trimClip trimStart trimEnd)
                                 (t_clips t)) t)
                  (tracks newState))
               newState)
      end

  | SPLIT_CLIP clipId actionSplitPoint =>
      let newState := saveToHistory state in
      match findClip (tracks newState) clipId with
      | None => newState
      | Some result =>
          let clip := fc_clip result in
          let index := fc_index result in
          let splitPoint := actionSplitPoint - c_startTime clip in
          if Qle_bool splitPoint 0 || Qle_bool (c_duration clip) splitPoint
          then newState
          else
            let secondClip := splitSecond uuid actionSplitPoint splitPoint clip in
            set_tracks
              (update_at (fc_pos result)
                 (fun t => set_t_clips
                             (insert_at (S index) secondClip
                                (update_at index (splitFirst splitPoint) (t_clips t))) t)
                 (tracks newState))
              newState
      end

  | SELECT_CLIP clipId =>
      set_selectedSubtitleId None (set_selectedClipId clipId state)

  | COPY_CLIP clipId =>
      match findClip (tracks state) clipId with
      | None => state
      | Some result => set_clipboard (Some (cloneClip (fc_clip result))) state
      end

  | PASTE_CLIP trackId startTime =>
      match clipboard state with
      | None => state
      | Some _ =>
          let newState := saveToHistory state in
          match findTrack (tracks newState) trackId, clipboard newState with
          | Some (pos, _), Some cb =>
              let newClip := set_c_startTime startTime (set_c_id uuid cb) in
              recomputeDuration
                (set_tracks (update_at pos (pushClipSorted newClip) (tracks newState))
                   newState)
          | _, _ => newState
          end
      end

  | ADD_TRACK track =>
      let newState := saveToHistory state in
      set_tracks (tracks newState ++ [track]) newState

  | REMOVE_TRACK trackId =>
      let newState := saveToHistory state in
      set_tracks (filter (fun t => negb (String.eqb (t_id t) trackId)) (tracks newState))
        newState

  | TOGGLE_TRACK_MUTE trackId =>
      match findTrack (tracks state) trackId with
      | Some (pos, _) =>
          set_tracks (update_at pos (fun t => set_t_muted (Some (js_not (t_muted t))) t)
                        (tracks state)) state
      | None => state
      end

  | SET_TRACK_VOLUME trackId volume =>
      match findTrack (tracks state) trackId with
      | Some (pos, _) =>
          set_tracks (update_at pos (set_t_volume (Some volume)) (tracks state)) state
      | None => state
      end

  | TOGGLE_TRACK_LOCK trackId =>
      match findTrack (tracks state) trackId with
      | Some (pos, _) =>
          set_tracks (update_at pos (fun t => set_t_locked (Some (js_not (t_locked t))) t)
                        (tracks state)) state
      | None => state
      end

  | TOGGLE_TRACK_VISIBILITY trackId =>
      match findTrack (tracks state) trackId with
      | Some (pos, _) =>
          set_tracks (update_at pos (fun t => set_t_visible (Some (js_not (t_visible t))) t)
                        (tracks state)) state
      | None => state
      end

  | LOAD_PROJECT_DATA data_tracks data_subtitles =>
      (* [if (action.data.subtitles)]: an array, even an empty one, is truthy *)
      let s1 := if Nat.ltb 0 (List.length data_tracks)
                then set_tracks data_tracks state else state in
      let s2 := set_subtitles data_subtitles s1 in
      set_history (mkHistory [] []) (recomputeDuration s2)

  | ADD_SUBTITLE subtitle =>
      let newState := saveToHistory state in
      set_subtitles (sort_by s_startTime (subtitles newState ++ [subtitle])) newState

  | UPDATE_SUBTITLE subtitleId updates =>
      let newState := saveToHistory state in
      match findIndex (fun s => String.eqb (s_id s) subtitleId) (subtitles newState) with
      | Some (index, _) =>
          set_subtitles
            (update_at index (fun s => applyUpdates s updates) (subtitles newState))
            newState
      | None => newState
      end

  | REMOVE_SUBTITLE subtitleId =>
      let newState := saveToHistory state in
      let s1 := set_subtitles
                  (filter (fun s => negb (String.eqb (s_id s) subtitleId))
                     (subtitles newState)) newState in
      if opt_string_eqb (selectedSubtitleId s1) subtitleId
      then set_selectedSubtitleId None s1 else s1

  | SELECT_SUBTITLE subtitleId =>
      set_selectedClipId None (set_selectedSubtitleId subtitleId state)

  | SET_PLAYHEAD time =>
      set_playhead (Math_max 0 (Math_min time (duration state))) state

  | SET_PLAYING playing =>
      set_isPlaying playing state

  | SET_ZOOM z =>
      set_zoom (Math_max (1 # 10) (Math_min 10 z)) state

  | UNDO =>
      match pop (past (history state)) with
      | None => state
      | Some (previous, rest) =>
          let s1 := set_history
                      (mkHistory rest (snapshot state :: future (history state)))
                      state in
          let s2 := set_subtitles (snap_subtitles previous)
                      (set_tracks (snap_tracks previous) s1) in
          recomputeDuration s2
      end

  | REDO =>
      match future (history state) with
      | [] => state
      | next :: rest =>
          let s1 := set_history
                      (mkHistory (past (history state) ++ [snapshot state]) rest)
                      state in
          let s2 := set_subtitles (snap_subtitles next)
                      (set_tracks (snap_tracks next) s1) in
          recomputeDuration s2
      end

  | SET_EXPORT_PROGRESS progress =>
      set_exportProgress progress state

  | SET_PREVIEW_URL url =>
      set_previewUrl url state

  | RESET => initialState
  end.

(** A run of the reducer: each action comes with the value [uuidv4()]
    would return during its reduction. *)
Definition run (s : EditorState) (acts : list (string * EditorAction)) : EditorState :=
  fold_left (fun st ua => editorReducer (fst ua) st (snd ua)) acts s.

(** States reachable from [initialState] by dispatching actions. *)
Inductive reachable : EditorState -> Prop :=
| reach_init : reachable initialState
| reach_step : forall s uuid a,
    reachable s -> reachable (editorReducer uuid s a).

(** *** Classification of actions and sample timelines *)

(** The cases of [editorReducer] that reach [saveToHistory]: the content
    edits.  PASTE_CLIP leaves the reducer before it when the clipboard is
    empty. *)
Definition historyTracked (state : EditorState) (action : EditorAction) : bool :=
  match action with
  | ADD_CLIP _ _ | REMOVE_CLIP _ | MOVE_CLIP _ _ _ | TRIM_CLIP _ _ _
  | SPLIT_CLIP _ _ | ADD_TRACK _ | REMOVE_TRACK _
  | ADD_SUBTITLE _ | UPDATE_SUBTITLE _ _ | REMOVE_SUBTITLE _ => true
  | PASTE_CLIP _ _ =>
      match clipboard state with Some _ => true | None => false end
  | _ => false
  end.

(** Edits with degenerate parameters: a split point at or beyond either
    edge of the clip, or a trim, move or split of a clip id that is on no
    track. *)
Definition degenerate (state : EditorState) (action : EditorAction) : bool :=
  match action with
  | SPLIT_CLIP clipId actionSplitPoint =>
      match findClip (tracks state) clipId with
      | None => true
      | Some result =>
          let splitPoint := actionSplitPoint - c_startTime (fc_clip result) in
          Qle_bool splitPoint 0 || Qle_bool (c_duration (fc_clip result)) splitPoint
      end
  | TRIM_CLIP clipId _ _ | MOVE_CLIP clipId _ _ =>
      match findClip (tracks state) clipId with
      | None => true
      | Some _ => false
      end
  | _ => false
  end.

(** The history that [saveToHistory] leaves: the snapshot pushed, the
    oldest entry dropped beyond 50, the redo stack emptied. *)
Definition pushedHistory (state : EditorState) : History :=
  let pushed := past (history state) ++ [snapshot state] in
  mkHistory (if Nat.ltb 50 (List.length pushed) then tl pushed else pushed) [].

(** The kind of track a clip of a given kind belongs on. *)
Definition trackTypeOf (k : ClipType) : TrackType :=
  match k with
  | ClipVideo => TrackVideo
  | ClipAudio => TrackAudio
  end.

(** The end of a clip on the timeline. *)
Definition clipEnd (c : TimelineClip) : Q := c_startTime c + c_duration c.

(** The scan of [calculateDuration] over the clips of one track, and over
    the tracks, from a running maximum. *)
Definition scanClips (cs : list TimelineClip) (maxEnd : Q) : Q :=
  fold_left
    (fun maxEnd clip =>
       let clipEnd := c_startTime clip + c_duration clip in
       if Qgtb clipEnd maxEnd then clipEnd else maxEnd) cs maxEnd.

Definition scanTracks (ts : list TimelineTrack) (maxEnd : Q) : Q :=
  fold_left (fun maxEnd track => scanClips (t_clips track) maxEnd) ts maxEnd.

(** The stored duration is the one the tracks give. *)
Definition durationAgrees (s : EditorState) : Prop :=
  duration s == calculateDuration (tracks s).

(** ADD_TRACK and REMOVE_TRACK. *)
Definition isTrackEdit (a : EditorAction) : bool :=
  match a with
  | ADD_TRACK _ | REMOVE_TRACK _ => true
  | _ => false
  end.

(** The part of [0 <= playhead <= duration] that every action maintains. *)
Definition nonneg_clock (s : EditorState) : Prop := 0 <= playhead s /\ 0 <= duration s.

(** Clip A [{startTime: 0, duration: 5}] and clip B [{startTime: 5,
    duration: 3}]. *)
Definition clipA : TimelineClip := mkClip "A" "source-a" "https://cdn/a.mp4" 0 5 0 0 ClipVideo.
Definition clipB : TimelineClip := mkClip "B" "source-b" "https://cdn/b.mp4" 5 3 0 0 ClipVideo.

(** The initial state after clip A was added to the video track. *)
Definition oneClipState : EditorState :=
  editorReducer "" initialState (ADD_CLIP "video-track-1" clipA).

(** The initial state after clips A and B were added to the video track. *)
Definition twoClipState : EditorState :=
  editorReducer "" oneClipState (ADD_CLIP "video-track-1" clipB).

End Editor.


(** ** The arithmetic of [SPLIT_CLIP] on doubles *)

Module EditorDoubles.
Import Doubles.

(** The four numbers of a [TimelineClip]. *)
Record ClipTimes : Type := mkTimes {
  ct_startTime : double;
  ct_duration : double;
  ct_trimStart : double;
  ct_trimEnd : double
}.

(** The [SPLIT_CLIP] case of the reducer on the numbers of the clip found,
    statement by statement: the first and the second clip, or [None] when
    the split point is not inside the clip. *)
Definition splitTimes (clip : ClipTimes) (actionSplitPoint : double)
  : option (ClipTimes * ClipTimes) :=
  let splitPoint := dsub actionSplitPoint (ct_startTime clip) in
  if dleb splitPoint zero || dleb (ct_duration clip) splitPoint then None
  else
    let secondClip :=
      mkTimes actionSplitPoint (dsub (ct_duration clip) splitPoint)
              (dadd (ct_trimStart clip) splitPoint) (ct_trimEnd clip) in
    let clip1 := mkTimes (ct_startTime clip) splitPoint (ct_trimStart clip) (ct_trimEnd clip) in
    let clip2 :=
      mkTimes (ct_startTime clip1) (ct_duration clip1) (ct_trimStart clip1)
              (dadd (ct_trimEnd clip1) (dsub (ct_duration clip1) splitPoint)) in
    Some (clip2, secondClip).

(** A clip of 0.9 seconds at the start of its track, untrimmed. *)
Definition nineTenths : ClipTimes := mkTimes zero (decimal 9 1) zero zero.

(** A clip of one second that starts at 0.2. *)
Definition fromTwoTenths : ClipTimes := mkTimes (decimal 2 1) (ofZ 1) zero zero.

End EditorDoubles.


(** ** The export route ([uploads.routes.ts], [POST /:projectId/export]) *)

Module ExportRoute.
Import Doubles.

(** *** The parsed request body ([exportVideoSchema]) *)

Record ExportClip : Type := mkExportClip {
  lineId : string;
  videoUrl : string;
  audioUrl : option string;
  startTime : Q;
  duration : Q;
  trimStart : Q;
  trimEnd : Q
}.

Record SubtitleWord : Type := mkWord {
  word : string;
  w_startTime : Q;
  w_endTime : Q
}.

Record SubtitleStyle : Type := mkStyle {
  color : string;
  bgColor : string;
  fontSize : string
}.

Record SubtitleOptions : Type := mkSubtitles {
  enabled : bool;
  style : option SubtitleStyle;
  words : option (list SubtitleWord)
}.

Record ExportData : Type := mkExportData {
  clips : list ExportClip;
  subtitles : option SubtitleOptions;
  audioMix : double
}.

(** *** What the handler acts on *)

(** Messages sent to the room [project:<projectId>]. *)
Inductive Event : Type :=
| export_progress (progress : Z) (status : string)
| export_completed (exportId url : string)
| export_failed (error : string).

(** One element of an [ffmpeg] argument vector: a literal, or a number
    rendered by [toString()]. *)
Inductive Arg : Type :=
| Str (s : string)
| Num (q : Q).

(** The reply to the HTTP request: [sendSuccess] or [sendError]. *)
Inductive Response : Type :=
| sendSuccess (exportId url status : string) (isMock : bool)
| sendError (message : string) (code : Z).

(** The world the handler changes: which paths exist in scratch storage
    (contents are not tracked), what was emitted on the socket (oldest
    first), the argument vectors [ffmpeg] was spawned with, and the
    [lastExport] written to the project record. *)
Record World : Type := mkWorld {
  files : list string;
  emitted : list Event;
  spawned : list (list Arg);
  lastExport : option (string * string * bool)
}.

(** The outcome of an external call: [None] when the promise is fulfilled,
    [Some m] when it is rejected with [Error(m)]. *)
Definition Rejection : Type := option string.

(** The collaborators of one run: flags read at start-up and the answers of
    the network, the disk, the transcoder and the storage services. *)
Record Env : Type := mkEnv {
  USE_DEV_MODE : bool;
  FFMPEG_AVAILABLE : bool;
  fetch_ok : string -> bool;            (* [response.ok] for a url *)
  statusText : string -> string;        (* [response.statusText] *)
  writeFile_rejects : string -> Rejection;
  ffmpeg_exit : list Arg -> Z;          (* exit code for an argument vector *)
  upload_rejects : Rejection;           (* [bucket.upload] *)
  getSignedUrl : string + string;       (* [inl m]: rejected; [inr url] *)
  db_update_rejects : Rejection;
  unlink_ok : string -> bool            (* a failed [unlink] is swallowed *)
}.

(** *** A state-and-exception monad for [async] code *)

Inductive Outcome (A : Type) : Type :=
| Returned (a : A)
| Thrown (message : string).
Arguments Returned {A} a.
Arguments Thrown {A} message.

Definition M (A : Type) : Type := World -> World * Outcome A.

Definition ret {A : Type} (a : A) : M A := fun w => (w, Returned a).

Definition bind {A B : Type} (c : M A) (k : A -> M B) : M B :=
  fun w => match c w with
           | (w1, Returned a) => k a w1
           | (w1, Thrown m) => (w1, Thrown m)
           end.

Definition throw {A : Type} (m : string) : M A := fun w => (w, Thrown m).

(** [try { c } catch (error) { h(error.message) }]. *)
Definition tryCatch {A : Type} (c : M A) (h : string -> M A) : M A :=
  fun w => match c w with
           | (w1, Returned a) => (w1, Returned a)
           | (w1, Thrown m) => h m w1
           end.

Notation "x <- c ;; k" := (bind c (fun x => k))
  (at level 61, c at next level, right associativity).
Notation "c ;; k" := (bind c (fun _ => k))
  (at level 61, right associativity).

(** [io.to(room).emit(...)]. *)
Definition emit (e : Event) : M unit :=
  fun w => (mkWorld (files w) (emitted w ++ [e]) (spawned w) (lastExport w), Returned tt).

Definition reject_or_unit (r : Rejection) : M unit :=
  match r with
  | None => ret tt
  | Some m => throw m
  end.

(** [await writeFile(path, ...)]. *)
Definition writeFile (env : Env) (path : string) : M unit :=
  reject_or_unit (writeFile_rejects env path) ;;
  fun w => (mkWorld (path :: files w) (emitted w) (spawned w) (lastExport w), Returned tt).

(** [await unlink(path).catch(() => {})]. *)
Definition unlink (env : Env) (path : string) : M unit :=
  fun w =>
    if unlink_ok env path
    then (mkWorld (filter (fun f => negb (String.eqb f path)) (files w))
                  (emitted w) (spawned w) (lastExport w), Returned tt)
    else (w, Returned tt).

(** Helper to download a file from URL. *)
Definition downloadFile (env : Env) (url destPath : string) : M unit :=
  if fetch_ok env url
  then writeFile env destPath
  else throw ("Failed to download: " ++ statusText env url).

Definition string_of_nat (n : nat) : string := NilZero.string_of_uint (Nat.to_uint n).
Definition string_of_Z (z : Z) : string := NilZero.string_of_int (Z.to_int z).

(** The output file of an [ffmpeg] run is its last argument. *)
Definition outputOf (args : list Arg) : list string :=
  match last args (Str "") with
  | Str p => [p]
  | Num _ => []
  end.

(** Helper to run FFmpeg command: resolves on exit code 0, and the output
    file then exists; rejects otherwise.  (A process that cannot be spawned
    at all is not told apart from one that exits with a non-zero code.  A
    run that fails may leave a part of its output file behind; [files]
    does not list it, so after a failure the scratch directory holds at
    least the files listed.) *)
Definition runFFmpeg (env : Env) (args : list Arg) : M unit :=
  fun w =>
    let w1 := mkWorld (files w) (emitted w) (spawned w ++ [args]) (lastExport w) in
    if Z.eqb (ffmpeg_exit env args) 0
    then (mkWorld (outputOf args ++ files w1) (emitted w1) (spawned w1) (lastExport w1),
          Returned tt)
    else (w1, Thrown ("FFmpeg exited with code " ++ string_of_Z (ffmpeg_exit env args))).

(** [join(workDir, name)]. *)
Definition join (workDir name : string) : string := workDir ++ "/" ++ name.

(** *** Number formatting *)

(** [x.toFixed(2)] of a non-negative number, as a count of hundredths: the
    nearest one, the larger when two are equally near. *)
Definition hundredths (x : Q) : Z := Qfloor (x * 100 + (1 # 2)).

Definition digit (z : Z) : string := string_of_Z (z mod 10).

Definition fixed2 (n : Z) : string :=
  string_of_Z (n / 100) ++ "." ++ digit (n / 10) ++ digit n.

(** [x.toFixed(2)] of a number that is exactly [x]. *)
Definition toFixed2 (x : Q) : string :=
  if Qle_bool 0 x then fixed2 (hundredths x)
  else "-" ++ fixed2 (hundredths (- x)).

(** [x.toFixed(2)] of a double: the digits are those of the number the
    double is, not of the decimal it was written as.  (Below [10^21] in
    size; the schema keeps [audioMix] within [0, 1].) *)
Definition toFixed2D (x : double) : string :=
  match x with
  | S754_nan => "NaN"
  | S754_infinity s => if s then "-Infinity" else "Infinity"
  | _ => toFixed2 (value x)
  end.

(** [x || 0] on numbers. *)
Definition or_zero (x : Q) : Q := if Qeq_bool x 0 then 0 else x.

(** [color.replace('#', '')]: the first [#] is dropped. *)
Fixpoint dropFirstHash (s : string) : string :=
  match s with
  | EmptyString => EmptyString
  | String c r => if Ascii.eqb c "#"%char then r else String c (dropFirstHash r)
  end.

(** *** Per-clip processing *)

Definition clipVolume (audioMix : double) : string :=
  toFixed2D (max0 (dsub one audioMix)).
Definition voiceoverVolume (audioMix : double) : string :=
  toFixed2D (max0 audioMix).

(** The [-filter_complex] argument of a clip that has a voiceover. *)
Definition mixFilter (audioMix : double) : string :=
  "[0:a]volume=" ++ clipVolume audioMix ++ "[va];[1:a]volume="
  ++ voiceoverVolume audioMix ++ "[vo];[va][vo]amix=inputs=2:duration=longest[aout]".

Definition encodeArgs : list Arg :=
  [Str "-c:v"; Str "libx264"; Str "-preset"; Str "fast"; Str "-crf"; Str "23";
   Str "-pix_fmt"; Str "yuv420p"; Str "-r"; Str "30"; Str "-c:a"; Str "aac";
   Str "-b:a"; Str "128k"; Str "-ar"; Str "44100"; Str "-ac"; Str "2"; Str "-y"].

(** [ffmpegArgs] of the processing loop, for a downloaded clip. *)
Definition processArgs (audioMix : double) (videoPath : string) (audioPath : option string)
    (clip : ExportClip) (processedPath : string) : list Arg :=
  let trimStart := or_zero (trimStart clip) in
  let trimEnd := or_zero (trimEnd clip) in
  let effectiveDuration := duration clip - trimStart - trimEnd in
  match audioPath with
  | Some audioPath =>
      [Str "-ss"; Num trimStart; Str "-i"; Str videoPath; Str "-i"; Str audioPath;
       Str "-t"; Num effectiveDuration;
       Str "-filter_complex"; Str (mixFilter audioMix);
       Str "-map"; Str "0:v"; Str "-map"; Str "[aout]"]
      ++ encodeArgs ++ [Str processedPath]
  | None =>
      [Str "-ss"; Num trimStart; Str "-i"; Str videoPath;
       Str "-t"; Num effectiveDuration]
      ++ encodeArgs ++ [Str processedPath]
  end.

(** *** The stages of the handler *)

(** An element of [downloadedClips]. *)
Record Downloaded : Type := mkDownloaded {
  videoPath : string;
  audioPath : option string;
  d_clip : ExportClip
}.

(** [5 + Math.floor((i / n) * 15)] and [25 + Math.floor((i / n) * 40)]. *)
Definition loopProgress (base span : Z) (i n : nat) : Z :=
  (base + Qfloor (inject_Z (Z.of_nat i) / inject_Z (Z.of_nat n) * inject_Z span))%Z.

(** Download all clips and voiceovers: the iterations [i, i+1, ...] of the
    first [for] loop over the clips not yet visited. *)
Fixpoint downloadLoop (env : Env) (workDir : string) (n i : nat)
    (rest : list ExportClip) : M (list Downloaded) :=
  match rest with
  | [] => ret []
  | clip :: rest' =>
      let videoPath := join workDir ("video_" ++ string_of_nat i ++ ".mp4") in
      let audioPath :=
        match audioUrl clip with
        | Some _ => Some (join workDir ("voiceover_" ++ string_of_nat i ++ ".mp3"))
        | None => None
        end in
      downloadFile env (videoUrl clip) videoPath ;;
      match audioUrl clip, audioPath with
      | Some url, Some path => downloadFile env url path
      | _, _ => ret tt
      end ;;
      emit (export_progress (loopProgress 5 15 i n) "downloading") ;;
      ds <- downloadLoop env workDir n (S i) rest' ;;
      ret (mkDownloaded videoPath audioPath clip :: ds)
  end.

(** Process each clip: apply trim and mix audio (the second [for] loop). *)
Fixpoint processLoop (env : Env) (audioMix : double) (workDir : string) (n i : nat)
    (rest : list Downloaded) : M (list string) :=
  match rest with
  | [] => ret []
  | d :: rest' =>
      let processedPath := join workDir ("processed_" ++ string_of_nat i ++ ".mp4") in
      runFFmpeg env
        (processArgs audioMix (videoPath d) (audioPath d) (d_clip d) processedPath) ;;
      emit (export_progress (loopProgress 25 40 i n) "processing") ;;
      ps <- processLoop env audioMix workDir n (S i) rest' ;;
      ret (processedPath :: ps)
  end.

(** [exportData.subtitles?.enabled && exportData.subtitles?.words?.length]. *)
Definition subtitleFileWanted (data : ExportData) : bool :=
  match subtitles data with
  | Some s =>
      enabled s && match words s with
                   | Some ws => Nat.ltb 0 (List.length ws)
                   | None => false
                   end
  | None => false
  end.

(** [exportData.subtitles?.style]. *)
Definition subtitleStyle (data : ExportData) : option SubtitleStyle :=
  match subtitles data with
  | Some s => style s
  | None => None
  end.

Definition concatArgs (workDir concatListPath : string) : list Arg :=
  [Str "-f"; Str "concat"; Str "-safe"; Str "0"; Str "-i"; Str concatListPath;
   Str "-c:v"; Str "libx264"; Str "-preset"; Str "fast"; Str "-crf"; Str "23";
   Str "-pix_fmt"; Str "yuv420p"; Str "-c:a"; Str "aac"; Str "-b:a"; Str "128k";
   Str "-ar"; Str "44100"; Str "-ac"; Str "2"; Str "-movflags"; Str "+faststart";
   Str "-y"; Str (join workDir "concat_output.mp4")].

Definition subtitleArgs (workDir subtitlePath outputPath : string) (st : SubtitleStyle)
  : list Arg :=
  let fontColor := dropFirstHash (color st) in
  [Str "-i"; Str (join workDir "concat_output.mp4");
   Str "-vf";
   Str ("subtitles=" ++ subtitlePath ++ ":force_style='FontSize=24,PrimaryColour=&H"
        ++ fontColor ++ "&,OutlineColour=&H000000&,Outline=2,MarginV=60'");
   Str "-c:v"; Str "libx264"; Str "-preset"; Str "fast"; Str "-crf"; Str "23";
   Str "-c:a"; Str "copy"; Str "-movflags"; Str "+faststart"; Str "-y";
   Str outputPath].

Definition copyArgs (workDir outputPath : string) : list Arg :=
  [Str "-i"; Str (join workDir "concat_output.mp4"); Str "-c"; Str "copy";
   Str "-movflags"; Str "+faststart"; Str "-y"; Str outputPath].

(** The two cleanup loops. *)
Fixpoint unlinkDownloaded (env : Env) (ds : list Downloaded) : M unit :=
  match ds with
  | [] => ret tt
  | d :: rest =>
      unlink env (videoPath d) ;;
      match audioPath d with
      | Some path => unlink env path
      | None => ret tt
      end ;;
      unlinkDownloaded env rest
  end.

Fixpoint unlinkAll (env : Env) (paths : list string) : M unit :=
  match paths with
  | [] => ret tt
  | file :: rest => unlink env file ;; unlinkAll env rest
  end.

(** Cleanup temp files.  Every [unlink] swallows its own failure, so the
    block never throws. *)
Definition cleanup (env : Env) (workDir : string) (downloadedClips : list Downloaded)
    (processedClips : list string) (concatListPath outputPath : string)
    (subtitlePath : option string) : M unit :=
  unlinkDownloaded env downloadedClips ;;
  unlinkAll env processedClips ;;
  unlink env concatListPath ;;
  unlink env (join workDir "concat_output.mp4") ;;
  unlink env outputPath ;;
  match subtitlePath with
  | Some path => unlink env path
  | None => ret tt
  end.

(** [db.collection('projects').doc(projectId).update({ lastExport, ... })]. *)
Definition updateProject (env : Env) (exportId url : string) (isMock : bool) : M unit :=
  reject_or_unit (db_update_rejects env) ;;
  fun w => (mkWorld (files w) (emitted w) (spawned w) (Some (exportId, url, isMock)),
            Returned tt).

(** The body of the [try] block: it returns the reply of [sendSuccess]. *)
Definition exportTry (env : Env) (workDir exportId : string) (exportData : ExportData)
  : M Response :=
  emit (export_progress 5 "downloading") ;;
  downloadedClips <-
    downloadLoop env workDir (List.length (clips exportData)) 0 (clips exportData) ;;
  emit (export_progress 25 "processing") ;;
  processedClips <-
    processLoop env (audioMix exportData) workDir (List.length downloadedClips) 0
      downloadedClips ;;
  emit (export_progress 70 "encoding") ;;
  subtitlePath <-
    (if subtitleFileWanted exportData
     then writeFile env (join workDir "subtitles.srt") ;;
          ret (Some (join workDir "subtitles.srt"))
     else ret None) ;;
  let concatListPath := join workDir "concat.txt" in
  writeFile env concatListPath ;;
  let outputPath := join workDir "output.mp4" in
  runFFmpeg env (concatArgs workDir concatListPath) ;;
  emit (export_progress 85 "encoding") ;;
  match subtitlePath, subtitleStyle exportData with
  | Some path, Some st => runFFmpeg env (subtitleArgs workDir path outputPath st)
  | _, _ => runFFmpeg env (copyArgs workDir outputPath)
  end ;;
  emit (export_progress 92 "uploading") ;;
  reject_or_unit (upload_rejects env) ;;
  signedUrl <-
    match getSignedUrl env with
    | inl m => throw m
    | inr url => ret url
    end ;;
  updateProject env exportId signedUrl false ;;
  emit (export_progress 100 "completed") ;;
  emit (export_completed exportId signedUrl) ;;
  cleanup env workDir downloadedClips processedClips concatListPath outputPath
    subtitlePath ;;
  ret (sendSuccess exportId signedUrl "completed" false).

(** The [catch] block. *)
Definition exportCatch (message : string) : M Response :=
  emit (export_failed message) ;;
  ret (sendError "Failed to export video. Please try again." 500).

(** The mock export of development mode without FFmpeg. *)
Definition mockExport (env : Env) (exportId : string) (exportData : ExportData)
  : M Response :=
  emit (export_progress 10 "downloading") ;;
  emit (export_progress 30 "processing") ;;
  emit (export_progress 60 "encoding") ;;
  emit (export_progress 90 "uploading") ;;
  let mockUrl :=
    match clips exportData with
    | clip :: _ =>
        if String.eqb (videoUrl clip) ""
        then "https://storage.googleapis.com/gtv-videos-bucket/sample/ForBiggerBlazes.mp4"
        else videoUrl clip
    | [] => "https://storage.googleapis.com/gtv-videos-bucket/sample/ForBiggerBlazes.mp4"
    end in
  updateProject env exportId mockUrl true ;;
  emit (export_progress 100 "completed") ;;
  emit (export_completed exportId mockUrl) ;;
  ret (sendSuccess exportId mockUrl "completed" true).

(** The handler, from the mode checks on; [workDir] is the scratch directory
    [viralshorts-export-<exportId>] that [mkdir] has created.  A [Thrown]
    outcome is an exception that leaves the handler. *)
Definition exportHandler (env : Env) (workDir exportId : string)
    (exportData : ExportData) : M Response :=
  if USE_DEV_MODE env && negb (FFMPEG_AVAILABLE env)
  then mockExport env exportId exportData
  else if negb (FFMPEG_AVAILABLE env)
  then ret (sendError "FFmpeg is not installed. Please install FFmpeg to export videos." 500)
  else tryCatch (exportTry env workDir exportId exportData) exportCatch.

(** A fresh scratch directory, nothing emitted yet. *)
Definition emptyWorld : World := mkWorld [] [] [] None.

(** The [status] labels of the progress events, in the order emitted. *)
Fixpoint statuses (es : list Event) : list string :=
  match es with
  | [] => []
  | export_progress _ status :: r => status :: statuses r
  | _ :: r => statuses r
  end.

(** Consecutive repetitions of a label merged into one. *)
Fixpoint stages (labels : list string) : list string :=
  match labels with
  | [] => []
  | a :: r =>
      match r with
      | b :: _ => if String.eqb a b then stages r else a :: stages r
      | [] => [a]
      end
  end.

(** The stage order in the words of the specification:
    downloading, processing, concatenating, subtitle-burn (only if
    subtitles are enabled), uploading, completed. *)
Definition spec_stage_order (subtitlesEnabled : bool) : list string :=
  ["downloading"; "processing"; "concatenating"]
  ++ (if subtitlesEnabled then ["subtitle-burn"] else [])
  ++ ["uploading"; "completed"].

(** The stage order of the handler. *)
Definition code_stage_order : list string :=
  ["downloading"; "processing"; "encoding"; "uploading"; "completed"].

(** The labels of a successful export of [n] clips, in the order emitted. *)
Definition successStatuses (n : nat) : list string :=
  repeat "downloading" (S n) ++ repeat "processing" (S n)
  ++ ["encoding"; "encoding"; "uploading"; "completed"].

Definition isProgress (e : Event) : bool :=
  match e with
  | export_progress _ _ => true
  | _ => false
  end.

(** *** The gain a [volume=] literal denotes *)

Definition digitOf (c : ascii) : option Z :=
  let n := Z.of_nat (nat_of_ascii c) in
  if (48 <=? n)%Z && (n <=? 57)%Z then Some (n - 48)%Z else None.

(** Reading a decimal literal: digits, with at most one point. *)
Fixpoint decimalValue_from (s : string) (num : Z) (den : option positive) : option Q :=
  match s with
  | EmptyString => Some (num # match den with Some d => d | None => 1 end)
  | String c r =>
      if Ascii.eqb c "."%char
      then match den with
           | None => decimalValue_from r num (Some 1%positive)
           | Some _ => None
           end
      else match digitOf c with
           | Some d => decimalValue_from r (10 * num + d)%Z (option_map (Pos.mul 10) den)
           | None => None
           end
  end.

Definition decimalValue (s : string) : option Q := decimalValue_from s 0%Z None.

(** The gains written into the filter of a clip with a voiceover. *)
Definition nativeGain (audioMix : double) : option Q :=
  decimalValue (clipVolume audioMix).
Definition narrationGain (audioMix : double) : option Q :=
  decimalValue (voiceoverVolume audioMix).

(** The ratio [k / 100] as the request carries it: the double next to it. *)
Definition centi (k : nat) : double := decimal (Z.of_nat k) 2.

(** At the ratio [k / 100] the two literals are those of [100 - k] and of
    [k] hundredths. *)
Definition centiExact (k : nat) : bool :=
  String.eqb (clipVolume (centi k)) (fixed2 (100 - Z.of_nat k))
  && String.eqb (voiceoverVolume (centi k)) (fixed2 (Z.of_nat k)).

(** *** Vocabulary for the properties of a run *)

(** A computation that emits nothing on the socket. *)
Definition silent {A : Type} (c : M A) : Prop :=
  forall w w' out, c w = (w', out) -> emitted w' = emitted w.

(** A computation that never throws. *)
Definition unfailing {A : Type} (c : M A) : Prop :=
  forall w w' out, c w = (w', out) -> exists a, out = Returned a.

(** [l] is [L] cut short: something of [L] is still to come after [l]. *)
Definition cut_short (l L : list string) : Prop :=
  exists rest, rest <> [] /\ l ++ rest = L.

(** A computation that removes no file. *)
Definition keeps_files {A : Type} (c : M A) : Prop :=
  forall w w' out, c w = (w', out) -> exists created, files w' = created ++ files w.

(** A computation that removes no file on the runs where it throws. *)
Definition keeps_files_on_throw {A : Type} (c : M A) : Prop :=
  forall w w' m, c w = (w', Thrown m) -> exists created, files w' = created ++ files w.

(** The paths of the files behind [downloadedClips]. *)
Definition downloadedPaths (ds : list Downloaded) : list string :=
  flat_map (fun d => videoPath d :: match audioPath d with
                                    | Some path => [path]
                                    | None => []
                                    end) ds.

(** On the runs where [c] returns [a], the files afterwards are among
    those before and [S a]. *)
Definition creates_within {A : Type} (c : M A) (S : A -> list string) : Prop :=
  forall w w' a, c w = (w', Returned a) ->
                 forall f, In f (files w') -> In f (S a) \/ In f (files w).

(** On the runs where [c] returns, it has left no file of [S] behind and
    created none. *)
Definition removes {A : Type} (c : M A) (S : list string) : Prop :=
  forall w w' a, c w = (w', Returned a) ->
                 forall f, In f (files w') -> In f (files w) /\ ~ In f S.

(** *** Sample runs *)

(** Clips A and B, each with a voiceover. *)
Definition narratedA : ExportClip :=
  mkExportClip "line-a" "https://cdn/a.mp4" (Some "https://cdn/a.mp3") 0 5 0 0.
Definition narratedB : ExportClip :=
  mkExportClip "line-b" "https://cdn/b.mp4" (Some "https://cdn/b.mp3") 5 3 0 0.

Definition twoClips : ExportData := mkExportData [narratedA; narratedB] None (decimal 8 1).

(** One clip, subtitles enabled with a style and one word. *)
Definition withSubtitles : ExportData :=
  mkExportData [narratedA]
    (Some (mkSubtitles true (Some (mkStyle "#FFFFFF" "#000000" "24"))
             (Some [mkWord "hello" 0 1])))
    (decimal 8 1).

(** FFmpeg installed, every collaborator answering well. *)
Definition allGood : Env :=
  mkEnv false true (fun _ => true) (fun _ => "OK") (fun _ => None) (fun _ => 0%Z)
        None (inr "https://storage/signed") None (fun _ => true).

(** As [allGood], but the download of clip B's voiceover answers 404. *)
Definition narrationBMissing : Env :=
  mkEnv false true (fun url => negb (String.eqb url "https://cdn/b.mp3"))
        (fun _ => "Not Found") (fun _ => None) (fun _ => 0%Z)
        None (inr "https://storage/signed") None (fun _ => true).

(** As [allGood], but every [ffmpeg] run exits with code 1. *)
Definition ffmpegBroken : Env :=
  mkEnv false true (fun _ => true) (fun _ => "OK") (fun _ => None) (fun _ => 1%Z)
        None (inr "https://storage/signed") None (fun _ => true).

(** As [allGood], but the concatenation ([-f concat ...]) exits with code 1. *)
Definition concatBroken : Env :=
  mkEnv false true (fun _ => true) (fun _ => "OK") (fun _ => None)
        (fun args => match args with
                     | Str f :: _ => if String.eqb f "-f" then 1%Z else 0%Z
                     | _ => 0%Z
                     end)
        None (inr "https://storage/signed") None (fun _ => true).

(** As [allGood], but the upload to storage is rejected. *)
Definition uploadBroken : Env :=
  mkEnv false true (fun _ => true) (fun _ => "OK") (fun _ => None) (fun _ => 0%Z)
        (Some "upload failed") (inr "https://storage/signed") None (fun _ => true).

End ExportRoute.



(** ** Vocabulary and sample states for further properties of the editor *)

Module EditorVocabulary.
Import Editor.

(** The number of snapshots the history holds, for undo and redo together. *)
Definition historyDepth (s : EditorState) : nat :=
  (List.length (past (history s)) + List.length (future (history s)))%nat.

(** The edits that reach [saveToHistory] in every state ([PASTE_CLIP] does
    so only with a clipboard). *)
Definition alwaysTracked (a : EditorAction) : bool :=
  match a with
  | ADD_CLIP _ _ | REMOVE_CLIP _ | MOVE_CLIP _ _ _ | TRIM_CLIP _ _ _
  | SPLIT_CLIP _ _ | ADD_TRACK _ | REMOVE_TRACK _
  | ADD_SUBTITLE _ | UPDATE_SUBTITLE _ _ | REMOVE_SUBTITLE _ => true
  | _ => false
  end.

(** Ordered by start time. *)
Definition byStartTime (a b : TimelineClip) : Prop := c_startTime a <= c_startTime b.
Definition subtitlesByStartTime (a b : SubtitleItem) : Prop := s_startTime a <= s_startTime b.

(** The number of clips on all tracks together. *)
Definition clipCount (ts : list TimelineTrack) : nat :=
  List.length (flat_map t_clips ts).

(** The actions that select, copy, seek, play, zoom, report progress, or
    change a flag or the volume of a track. *)
Definition isViewAction (a : EditorAction) : bool :=
  match a with
  | SELECT_CLIP _ | COPY_CLIP _ | SELECT_SUBTITLE _ | SET_PLAYHEAD _ | SET_PLAYING _
  | SET_ZOOM _ | SET_EXPORT_PROGRESS _ | SET_PREVIEW_URL _
  | TOGGLE_TRACK_MUTE _ | TOGGLE_TRACK_LOCK _ | TOGGLE_TRACK_VISIBILITY _
  | SET_TRACK_VOLUME _ _ => true
  | _ => false
  end.

(** The actions after which the stored duration is the one the tracks
    give, if it was before: all but ADD_TRACK and REMOVE_TRACK, which
    change the tracks, and SPLIT_CLIP, which changes two durations, without
    the recomputation. *)
Definition recomputesDuration (a : EditorAction) : bool :=
  match a with
  | ADD_TRACK _ | REMOVE_TRACK _ | SPLIT_CLIP _ _ => false
  | _ => true
  end.

(** *** Sample runs and states *)

(** Adding clip A, then clip B. *)
Definition twoEdits : list (string * EditorAction) :=
  [("", ADD_CLIP "video-track-1" clipA); ("", ADD_CLIP "video-track-1" clipB)].

(** [twoClipState] after one UNDO: there is something to redo. *)
Definition undoneState : EditorState := editorReducer "" twoClipState UNDO.

(** A second, empty video track, and [twoClipState] with it added. *)
Definition secondVideoTrack : TimelineTrack :=
  mkTrack "video-track-2" "Video 2" TrackVideo [] None None (Some false) (Some true).

Definition twoTrackState : EditorState :=
  editorReducer "" twoClipState (ADD_TRACK secondVideoTrack).

(** The first video track as it is in [oneClipState] and in
    [twoClipState], and what [findClip] returns for clip A there. *)
Definition videoTrackA : TimelineTrack :=
  mkTrack "video-track-1" "Video 1" TrackVideo [clipA] None None (Some false) (Some true).

Definition videoTrackAB : TimelineTrack :=
  mkTrack "video-track-1" "Video 1" TrackVideo [clipA; clipB] None None (Some false)
    (Some true).

Definition foundA : FoundClip := mkFound 0 videoTrackAB clipA 0.

(** [twoClipState] with the playhead at the end of the timeline. *)
Definition atTheEnd : EditorState := editorReducer "" twoClipState (SET_PLAYHEAD 8).

End EditorVocabulary.


(** ** The preview player ([PreviewPlayer], in the sources under
    [components/upload/YouTubeUploader.tsx]) *)

Module PreviewPlayer.
Import Editor.

(** [playhead >= clipStart && playhead < clipEnd]. *)
Definition within (playhead start finish : Q) : bool :=
  Qle_bool start playhead && negb (Qle_bool finish playhead).

(** Get active clips at current playhead position: the clips of the visible
    tracks whose interval holds the playhead, each with its track. *)
Definition getActiveClips (state : EditorState) : list (TimelineClip * TimelineTrack) :=
  flat_map
    (fun track =>
       if js_not (t_visible track) then []
       else map (fun clip => (clip, track))
              (filter (fun clip =>
                         let clipStart := c_startTime clip in
                         let clipEnd := c_startTime clip + c_duration clip in
                         within (playhead state) clipStart clipEnd)
                 (t_clips track)))
    (tracks state).

(** Get active subtitles at current playhead position. *)
Definition getActiveSubtitles (state : EditorState) : list SubtitleItem :=
  filter (fun sub => within (playhead state) (s_startTime sub) (s_endTime sub))
    (subtitles state).

End PreviewPlayer.


(** ** The quick editor ([VideoEditor], in the sources under
    [components/upload/YouTubeUploader.tsx])

    The component keeps the clips of the project (one per script line), a
    trim per clip and the current time; it computes where each clip lies,
    which clip plays, and the request it sends to the export route. *)

Module VideoEditor.
Import Editor ExportRoute.

(** [ClipData], built from the script lines. *)

Record ClipData : Type := mkClipData {
  cd_lineId : string;
  cd_text : string;
  cd_videoUrl : option string;     (* [string | null] *)
  cd_audioUrl : option string;
  cd_duration : Q;
  cd_trimStart : Q;
  cd_trimEnd : Q
}.

Record Trim : Type := mkTrim {
  tr_trimStart : Q;
  tr_trimEnd : Q
}.

Record Position : Type := mkPosition {
  p_start : Q;
  p_end : Q
}.

(** [clipTrims] is an array that may be shorter than [clips] and, after a
    write past its end, may have holes: an absent entry is [None]. *)
Definition Trims : Type := list (option Trim).

(** [clipTrims[index]], [undefined] when out of range or a hole. *)
Definition trimOf (clipTrims : Trims) (index : nat) : option Trim :=
  match nth_error clipTrims index with
  | Some (Some t) => Some t
  | _ => None
  end.

(** [clipTrims[index] || { trimStart: 0, trimEnd: 0 }]. *)
Definition trimOrZero (clipTrims : Trims) (index : nat) : Trim :=
  match trimOf clipTrims index with
  | Some t => t
  | None => mkTrim 0 0
  end.

(** The [forEach] of the [clipPositions] memo, from clip [index] on with
    the running [total]. *)
Fixpoint positionsFrom (clipTrims : Trims) (index : nat) (total : Q)
    (clips : list ClipData) : list Position * Q :=
  match clips with
  | [] => ([], total)
  | clip :: rest =>
      let trim := trimOrZero clipTrims index in
      let effectiveDuration :=
        Math_max (1 # 2) (cd_duration clip - tr_trimStart trim - tr_trimEnd trim) in
      let '(positions, total') :=
        positionsFrom clipTrims (S index) (total + effectiveDuration) rest in
      (mkPosition total (total + effectiveDuration) :: positions, total')
  end.

Definition clipPositions (clips : list ClipData) (clipTrims : Trims) : list Position :=
  fst (positionsFrom clipTrims 0 0 clips).

(** [total || 1]. *)
Definition totalDuration (clips : list ClipData) (clipTrims : Trims) : Q :=
  let total := snd (positionsFrom clipTrims 0 0 clips) in
  if Qeq_bool total 0 then 1 else total.

(** [currentTime >= start && currentTime < end]. *)
Definition inside (currentTime : Q) (p : Position) : bool :=
  Qle_bool (p_start p) currentTime && negb (Qle_bool (p_end p) currentTime).

(** The [for] loop of [getCurrentClipIndex], from index [i] on. *)
Fixpoint firstInside (currentTime : Q) (i : nat) (positions : list Position)
  : option nat :=
  match positions with
  | [] => None
  | p :: rest =>
      if inside currentTime p then Some i else firstInside currentTime (S i) rest
  end.

(** Get current clip based on playhead; [None] stands for [-1]. *)
Definition getCurrentClipIndex (currentTime : Q) (positions : list Position)
  : option nat :=
  match firstInside currentTime 0 positions with
  | Some i => Some i
  | None =>
      if Nat.ltb 0 (List.length positions)
      then Some (List.length positions - 1)%nat
      else None
  end.

(** *** Words and their timing *)

(** [\s] on the character codes below 256, which are those a [string] of
    this model holds: space, tab, line feed, vertical tab, form feed,
    carriage return and the no-break space. *)
Definition isSpace (c : ascii) : bool :=
  let n := nat_of_ascii c in
  Nat.eqb n 32 || (Nat.leb 9 n && Nat.leb n 13) || Nat.eqb n 160.

(** [text.split(/\s+/).filter(w => w.length > 0)]: the maximal runs of
    characters that are not white space; [current] is the run being read. *)
Fixpoint wordsFrom (text current : string) : list string :=
  match text with
  | EmptyString => if String.eqb current "" then [] else [current]
  | String c rest =>
      if isSpace c
      then (if String.eqb current "" then wordsFrom rest ""
            else current :: wordsFrom rest "")
      else wordsFrom rest (current ++ String c "")
  end.

Definition wordsOf (text : string) : list string := wordsFrom text "".

(** [w.length + 2]. *)
Definition wordWeight (w : string) : Z := Z.of_nat (String.length w) + 2.

(** [wordWeights.reduce((sum, w) => sum + w, 0)]. *)
Definition totalWeightOf (words : list string) : Z :=
  fold_left (fun sum w => (sum + wordWeight w)%Z) words 0%Z.

(** The [words.map] that builds the word timings, with the running
    [currentTime]. *)
Fixpoint timingsFrom (totalWeight : Z) (effectiveDuration currentTime : Q)
    (words : list string) : list SubtitleWord :=
  match words with
  | [] => []
  | word :: rest =>
      let wordDuration :=
        inject_Z (wordWeight word) / inject_Z totalWeight * effectiveDuration in
      let startTime := currentTime in
      let endTime := currentTime + wordDuration in
      mkWord word startTime endTime
      :: timingsFrom totalWeight effectiveDuration endTime rest
  end.

(** [clipPositions[clipIndex]?.start || 0]. *)
Definition startOf (positions : list Position) (clipIndex : nat) : Q :=
  match nth_error positions clipIndex with
  | Some p => or_zero (p_start p)
  | None => 0
  end.

(** [clipTrims[index]?.trimStart || 0], [clipTrims[index]?.trimEnd || 0]. *)
Definition trimStartOf (clipTrims : Trims) (index : nat) : Q :=
  match trimOf clipTrims index with
  | Some t => or_zero (tr_trimStart t)
  | None => 0
  end.

Definition trimEndOf (clipTrims : Trims) (index : nat) : Q :=
  match trimOf clipTrims index with
  | Some t => or_zero (tr_trimEnd t)
  | None => 0
  end.

(** The words of one clip with their timing (the body of the [flatMap]). *)
Definition clipWords (positions : list Position) (clipTrims : Trims)
    (clip : ClipData) (clipIndex : nat) : list SubtitleWord :=
  let words := wordsOf (cd_text clip) in
  if Nat.eqb (List.length words) 0 then []
  else
    let clipStart := startOf positions clipIndex in
    let effectiveDuration :=
      cd_duration clip - trimStartOf clipTrims clipIndex - trimEndOf clipTrims clipIndex in
    timingsFrom (totalWeightOf words) effectiveDuration clipStart words.

(** [l.map((x, index) => f x index)] from [index] on. *)
Fixpoint mapi_from {A B : Type} (f : A -> nat -> B) (index : nat) (l : list A) : list B :=
  match l with
  | [] => []
  | x :: rest => f x index :: mapi_from f (S index) rest
  end.

Definition subtitleWords (subtitlesEnabled : bool) (clips : list ClipData)
    (positions : list Position) (clipTrims : Trims) : list SubtitleWord :=
  if subtitlesEnabled
  then List.concat (mapi_from (clipWords positions clipTrims) 0 clips)
  else [].

(** *** The export request *)

Definition exportClip (positions : list Position) (clipTrims : Trims)
    (clip : ClipData) (index : nat) : ExportClip :=
  mkExportClip
    (cd_lineId clip)
    (match truthy_string (cd_videoUrl clip) with Some u => u | None => "" end)
    (truthy_string (cd_audioUrl clip))
    (startOf positions index)
    (cd_duration clip)
    (trimStartOf clipTrims index)
    (trimEndOf clipTrims index).

Definition exportClips (clips : list ClipData) (positions : list Position)
    (clipTrims : Trims) : list ExportClip :=
  filter (fun c => negb (String.eqb (videoUrl c) ""))
    (mapi_from (exportClip positions clipTrims) 0 clips).

(** What [handleExport] does: nothing without a project, a toast, or a
    request to [uploadsApi.exportVideo]. *)
Inductive ExportAttempt : Type :=
| NoProject
| ShowError (message : string)
| Request (projectId : string) (data : ExportData).

Record SubtitleChoice : Type := mkChoice {
  sc_color : string;
  sc_bgColor : string
}.

Definition handleExport (currentProject : option string) (clips : list ClipData)
    (clipTrims : Trims) (subtitlesEnabled : bool) (subtitleStyle : SubtitleChoice)
    (audioMix : Doubles.double) : ExportAttempt :=
  match currentProject with
  | None => NoProject
  | Some projectId =>
      let positions := clipPositions clips clipTrims in
      let exportClips := exportClips clips positions clipTrims in
      if Nat.eqb (List.length exportClips) 0
      then ShowError "No videos available to export"
      else
        let subtitleWords := subtitleWords subtitlesEnabled clips positions clipTrims in
        Request projectId
          (mkExportData exportClips
             (Some (mkSubtitles subtitlesEnabled
                      (if subtitlesEnabled
                       then Some (mkStyle (sc_color subtitleStyle)
                                    (sc_bgColor subtitleStyle) "24")
                       else None)
                      (Some subtitleWords)))
             audioMix)
  end.

(** [clips.some((c) => c.videoUrl)]. *)
Definition hasVideos (clips : list ClipData) : bool :=
  existsb (fun c => match truthy_string (cd_videoUrl c) with
                    | Some _ => true
                    | None => false
                    end) clips.

(** *** Dragging a trim handle *)

Inductive Edge : Type := EdgeStart | EdgeEnd.

(** What the [mousemove] listener has captured at [mousedown]. *)
Record Drag : Type := mkDrag {
  dr_clipIndex : nat;
  dr_edge : Edge;
  dr_initialTrimStart : Q;
  dr_initialTrimEnd : Q;
  dr_maxTrim : Q;
  dr_pixelsPerSecond : Q
}.

(** [handleTrimDrag] up to the listeners; [None] when [clips[clipIndex]] is
    [undefined] (reading its [duration] throws).  [timelineWidth] is
    [getBoundingClientRect().width], if the timeline is mounted. *)
Definition handleTrimDrag (clips : list ClipData) (clipTrims : Trims)
    (totalDuration : Q) (timelineWidth : option Q) (clipIndex : nat) (edge : Edge)
  : option Drag :=
  match nth_error clips clipIndex with
  | None => None
  | Some clip =>
      let currentTrim := trimOrZero clipTrims clipIndex in
      let maxTrim := cd_duration clip * (4 # 10) in
      let timelineWidth :=
        match timelineWidth with
        | Some w => if Qeq_bool w 0 then 1 else w
        | None => 1
        end in
      Some (mkDrag clipIndex edge (tr_trimStart currentTrim) (tr_trimEnd currentTrim)
              maxTrim (timelineWidth / totalDuration))
  end.

(** [a[i] = v] on an array: past the end, the array grows and the entries
    in between are holes. *)
Fixpoint assign {A : Type} (i : nat) (v : A) (a : list (option A)) : list (option A) :=
  match i, a with
  | O, [] => [Some v]
  | O, _ :: rest => Some v :: rest
  | S i', [] => None :: assign i' v []
  | S i', x :: rest => x :: assign i' v rest
  end.

(** The state update of [handleMouseMove], for a pointer [deltaX] pixels
    from where the drag began. *)
Definition handleMouseMove (d : Drag) (deltaX : Q) (prev : Trims) : Trims :=
  let deltaTime := deltaX / dr_pixelsPerSecond d in
  let clipIndex := dr_clipIndex d in
  let newTrims :=
    match trimOf prev clipIndex with
    | Some _ => prev
    | None => assign clipIndex (mkTrim 0 0) prev
    end in
  match dr_edge d with
  | EdgeStart =>
      let newTrimStart :=
        Math_max 0 (Math_min (dr_maxTrim d) (dr_initialTrimStart d + deltaTime)) in
      assign clipIndex (mkTrim newTrimStart (tr_trimEnd (trimOrZero newTrims clipIndex)))
        newTrims
  | EdgeEnd =>
      let newTrimEnd :=
        Math_max 0 (Math_min (dr_maxTrim d) (dr_initialTrimEnd d - deltaTime)) in
      assign clipIndex (mkTrim (tr_trimStart (trimOrZero newTrims clipIndex)) newTrimEnd)
        newTrims
  end.

(** Every trim lies between nothing and 40% of its clip. *)
Definition trimsWithinLimit (clips : list ClipData) (clipTrims : Trims) : Prop :=
  forall i clip t,
    nth_error clips i = Some clip -> trimOf clipTrims i = Some t ->
    0 <= tr_trimStart t <= cd_duration clip * (4 # 10) /\
    0 <= tr_trimEnd t <= cd_duration clip * (4 # 10).

(** *** Vocabulary and sample data *)

(** Positions that follow one another from [from] to [to], each at least
    half a second long. *)
Fixpoint chained (from : Q) (positions : list Position) (to : Q) : Prop :=
  match positions with
  | [] => to = from
  | p :: rest =>
      p_start p = from /\ (1 # 2) <= p_end p - p_start p /\ chained (p_end p) rest to
  end.

(** [a] is over before [b] begins. *)
Definition before (a b : SubtitleWord) : Prop := w_endTime a <= w_startTime b.

(** The line has at least one word. *)
Definition hasWords (c : ClipData) : bool :=
  negb (Nat.eqb (List.length (wordsOf (cd_text c))) 0).

(** Two lines, the first with a video, trimmed by 1 and 0.5 seconds. *)
Definition sampleClips : list ClipData :=
  [ mkClipData "line-1" "You will not  believe this" (Some "https://cdn/1.mp4")
      (Some "https://cdn/1.mp3") 4 0 0;
    mkClipData "line-2" "One simple trick" None (Some "https://cdn/2.mp3") 2 0 0 ].

Definition sampleTrims : Trims := [Some (mkTrim 1 (1 # 2)); Some (mkTrim 0 0)].

(** A drag of the start handle of the first clip on a timeline 300 pixels
    wide. *)
Definition sampleDrag : Drag :=
  mkDrag 0 EdgeStart 1 (1 # 2) (4 * (4 # 10))
    (300 / totalDuration sampleClips sampleTrims).

End VideoEditor.


(** ** Vocabulary for further properties of the export route *)

Module ExportVocabulary.
Import ExportRoute.

(** The [progress] numbers of the progress events, in the order emitted. *)
Fixpoint progressValues (es : list Event) : list Z :=
  match es with
  | [] => []
  | export_progress progress _ :: r => progress :: progressValues r
  | _ :: r => progressValues r
  end.

(** Whatever [c] emits, the progress numbers among it never go back and lie
    between [lo] and [hi]. *)
Definition emits_between {A : Type} (lo hi : Z) (c : M A) : Prop :=
  forall w w' out, c w = (w', out) ->
    exists new, emitted w' = emitted w ++ new /\
                StronglySorted Z.le (progressValues new) /\
                Forall (fun p => (lo <= p <= hi)%Z) (progressValues new).

(** A computation that leaves the project record as it is. *)
Definition keeps_record {A : Type} (c : M A) : Prop :=
  forall w w' out, c w = (w', out) -> lastExport w' = lastExport w.

(** A success reply repeats what the project record holds. *)
Definition recorded (w : World) (resp : Response) : Prop :=
  match resp with
  | sendSuccess exportId url _ isMock => lastExport w = Some (exportId, url, isMock)
  | sendError _ _ => True
  end.

(** On the runs where [c] returns a reply, the reply is recorded. *)
Definition replies_recorded (c : M Response) : Prop :=
  forall w w' resp, c w = (w', Returned resp) -> recorded w' resp.

(** The url a mock export hands out. *)
Definition mockUrlOf (data : ExportData) : string :=
  match clips data with
  | clip :: _ =>
      if String.eqb (videoUrl clip) ""
      then "https://storage.googleapis.com/gtv-videos-bucket/sample/ForBiggerBlazes.mp4"
      else videoUrl clip
  | [] => "https://storage.googleapis.com/gtv-videos-bucket/sample/ForBiggerBlazes.mp4"
  end.

(** Development mode without FFmpeg, every collaborator answering well. *)
Definition devNoFFmpeg : Env :=
  mkEnv true false (fun _ => true) (fun _ => "OK") (fun _ => None) (fun _ => 0%Z)
        None (inr "https://storage/signed") None (fun _ => true).

End ExportVocabulary.


(** ** The subtitle panel ([SubtitleEditor]) *)
Module SubtitlePanel.
Import Editor.

(** [handleAddSubtitle], with the id that [addSubtitle] draws and the
    style of the selected preset. *)
Definition handleAddSubtitle (state : EditorState) (id : string)
    (presetStyle : SubtitleStyle) : EditorAction :=
  let startTime := playhead state in
  let endTime := Math_min (startTime + 3) (duration state) in
  ADD_SUBTITLE (mkSubtitle id "New subtitle" startTime endTime presetStyle).

End SubtitlePanel.


(** ** Building the timeline of a project ([EditorPage.tsx]) *)
Module EditorPage.
Import Editor.

Record ScriptLine : Type := mkLine {
  l_id : string;
  l_selectedVideoId : option string
}.

Record Video : Type := mkVideo {
  v_id : string;
  v_storageUrl : string;
  v_duration : Q
}.

Record Voiceover : Type := mkVoiceover {
  vo_id : string;
  vo_storageUrl : string;
  vo_duration : Q
}.

(** The maps of the project context, read with [get]. *)
Record ProjectData : Type := mkProjectData {
  videos : string -> option (list Video);
  voiceovers : string -> option Voiceover
}.

(** [lineVideos.find(v => v.id === line.selectedVideoId)]. *)
Definition selectedVideoOf (data : ProjectData) (line : ScriptLine) : option Video :=
  let lineVideos := match videos data (l_id line) with Some vs => vs | None => [] end in
  find (fun v => match l_selectedVideoId line with
                 | Some id => String.eqb (v_id v) id
                 | None => false
                 end) lineVideos.

(** [lineVoiceover?.duration || selectedVideo?.duration || 5]. *)
Definition lineDuration (data : ProjectData) (line : ScriptLine) : Q :=
  let fromVideo :=
    match selectedVideoOf data line with
    | Some v => if Qeq_bool (v_duration v) 0 then 5 else v_duration v
    | None => 5
    end in
  match voiceovers data (l_id line) with
  | Some vo => if Qeq_bool (vo_duration vo) 0 then fromVideo else vo_duration vo
  | None => fromVideo
  end.

(** What the [forEach] over the script lines has built so far. *)
Record Built : Type := mkBuilt {
  videoClips : list TimelineClip;
  audioClips : list TimelineClip;
  currentTime : Q
}.

(** One script line: its video clip and its voiceover clip start together. *)
Definition addLine (data : ProjectData) (b : Built) (line : ScriptLine) : Built :=
  let duration := lineDuration data line in
  let videoClips :=
    match selectedVideoOf data line with
    | Some selectedVideo =>
        videoClips b
        ++ [mkClip ("video-" ++ v_id selectedVideo) (v_id selectedVideo)
              (v_storageUrl selectedVideo) (currentTime b) duration 0 0 ClipVideo]
    | None => videoClips b
    end in
  let audioClips :=
    match voiceovers data (l_id line) with
    | Some lineVoiceover =>
        audioClips b
        ++ [mkClip ("audio-" ++ vo_id lineVoiceover) (vo_id lineVoiceover)
              (vo_storageUrl lineVoiceover) (currentTime b) (vo_duration lineVoiceover)
              0 0 ClipAudio]
    | None => audioClips b
    end in
  mkBuilt videoClips audioClips (currentTime b + duration).

Definition build (data : ProjectData) (scriptLines : list ScriptLine) : Built :=
  fold_left (addLine data) scriptLines (mkBuilt [] [] 0).

(** Build timeline tracks. *)
Definition builtTracks (b : Built) : list TimelineTrack :=
  [ mkTrack "video-track-1" "Video" TrackVideo (videoClips b) None None
      (Some false) (Some true);
    mkTrack "audio-track-1" "Voiceover" TrackAudio (audioClips b) None (Some 1)
      (Some false) (Some true) ].

(** The effect that initialises the editor: what it dispatches once the
    project is loaded, if the script has lines. *)
Definition initialise (data : ProjectData) (scriptLines : list ScriptLine)
  : option EditorAction :=
  if Nat.ltb 0 (List.length scriptLines)
  then Some (LOAD_PROJECT_DATA (builtTracks (build data scriptLines)) [])
  else None.

(** [a] is over before [b] begins. *)
Definition precedes (a b : TimelineClip) : Prop := clipEnd a <= c_startTime b.

(** No duration in the project is negative. *)
Definition durationsNonneg (data : ProjectData) (scriptLines : list ScriptLine) : Prop :=
  forall line, In line scriptLines ->
    (forall v, selectedVideoOf data line = Some v -> 0 <= v_duration v) /\
    (forall vo, voiceovers data (l_id line) = Some vo -> 0 <= vo_duration vo).

(** The sum of the durations of the lines. *)
Definition scriptLength (data : ProjectData) (scriptLines : list ScriptLine) : Q :=
  fold_right (fun line total => lineDuration data line + total) 0 scriptLines.

(** Two lines with a selected video each, the first also with a
    voiceover of 3 seconds. *)
Definition sampleData : ProjectData :=
  mkProjectData
    (fun id => if String.eqb id "l1" then Some [mkVideo "v1" "https://cdn/v1.mp4" 8]
               else if String.eqb id "l2" then Some [mkVideo "v2" "https://cdn/v2.mp4" 6]
               else None)
    (fun id => if String.eqb id "l1" then Some (mkVoiceover "a1" "https://cdn/a1.mp3" 3)
               else None).

Definition sampleLines : list ScriptLine :=
  [mkLine "l1" (Some "v1"); mkLine "l2" (Some "v2")].

(** What holds of the clips built so far. *)
Definition laidOut (b : Built) : Prop :=
  0 <= currentTime b /\
  StronglySorted precedes (videoClips b) /\ StronglySorted precedes (audioClips b) /\
  Forall (fun c => 0 <= c_startTime c /\ clipEnd c <= currentTime b)
    (videoClips b ++ audioClips b).

End EditorPage.


(** ** Properties of the timeline editor *)

Module EditorFacts.
Import Editor.
Import Doubles EditorDoubles.

(** *** Deep copies are structurally equal to the original *)

Lemma cloneClip_id (c : TimelineClip) : cloneClip c = c.
Proof. destruct c; reflexivity. Qed.

Lemma cloneTrack_id (t : TimelineTrack) : cloneTrack t = t.
Proof.
  destruct t as [i n k cs m v l vis]; unfold cloneTrack; simpl.
  f_equal. rewrite <- (map_id cs) at 2. apply map_ext, cloneClip_id.
Qed.

Lemma cloneSubtitle_id (x : SubtitleItem) : cloneSubtitle x = x.
Proof. destruct x as [i t a b y]; destruct y; reflexivity. Qed.

Lemma snapshot_tracks (s : EditorState) : snap_tracks (snapshot s) = tracks s.
Proof.
  unfold snapshot; simpl. rewrite <- (map_id (tracks s)) at 2.
  apply map_ext, cloneTrack_id.
Qed.

Lemma snapshot_subtitles (s : EditorState) : snap_subtitles (snapshot s) = subtitles s.
Proof.
  unfold snapshot; simpl. rewrite <- (map_id (subtitles s)) at 2.
  apply map_ext, cloneSubtitle_id.
Qed.

(** *** The history stack *)

Lemma pop_snoc {A : Type} (l : list A) (x : A) : pop (l ++ [x]) = Some (x, l).
Proof. unfold pop. rewrite rev_app_distr; simpl. now rewrite rev_involutive. Qed.

(** Whatever the 50-entry limit drops, the entry on top of [past] is the
    snapshot just taken. *)
Lemma pushedHistory_pop (s : EditorState) :
  exists rest, pop (past (pushedHistory s)) = Some (snapshot s, rest).
Proof.
  unfold pushedHistory; simpl.
  destruct (Nat.ltb 50 _) eqn:E.
  - destruct (past (history s)) as [|p ps] eqn:P.
    + simpl in E. discriminate.
    + simpl. exists ps. apply pop_snoc.
  - eexists. apply pop_snoc.
Qed.

(** Every history-tracked action leaves exactly the history that
    [saveToHistory] built from the state it was given. *)
Lemma tracked_history (uuid : string) (s : EditorState) (a : EditorAction) :
  historyTracked s a = true ->
  history (editorReducer uuid s a) = pushedHistory s.
Proof.
  intros H. destruct a; simpl in H; try discriminate; simpl.
  - destruct (findTrack _ _) as [[pos tr]|]; reflexivity.
  - destruct (opt_string_eqb _ _); reflexivity.
  - destruct (findClip _ _); reflexivity.
  - destruct (findClip _ _); reflexivity.
  - destruct (findClip _ _) as [r|]; [|reflexivity].
    destruct (_ || _); reflexivity.
  - destruct (clipboard s) eqn:C; [|discriminate]. simpl.
    destruct (findTrack _ _) as [[pos tr]|]; reflexivity.
  - reflexivity.
  - reflexivity.
  - reflexivity.
  - destruct (findIndex _ _) as [[i x]|]; reflexivity.
  - destruct (opt_string_eqb _ _); reflexivity.
Qed.

Lemma undo_after (s1 : EditorState) (snap : EditorSnapshot) (rest : list EditorSnapshot)
    (uuid : string) :
  pop (past (history s1)) = Some (snap, rest) ->
  let s2 := editorReducer uuid s1 UNDO in
  tracks s2 = snap_tracks snap /\ subtitles s2 = snap_subtitles snap /\
  history s2 = mkHistory rest (snapshot s1 :: future (history s1)).
Proof. intros H. simpl. rewrite H. simpl. auto. Qed.

Lemma redo_after (s2 : EditorState) (next : EditorSnapshot) (rest : list EditorSnapshot)
    (uuid : string) :
  future (history s2) = next :: rest ->
  let s3 := editorReducer uuid s2 REDO in
  tracks s3 = snap_tracks next /\ subtitles s3 = snap_subtitles next.
Proof. intros H. simpl. rewrite H. simpl. auto. Qed.

(** C2. Undo after any single history-tracked operation restores the
    pre-operation [tracks] and [subtitles], and redo right after that undo
    restores the post-operation [tracks] and [subtitles]; both as
    structural equalities.  The uuids are those the three reductions may
    draw. *)
Theorem undo_redo_roundtrip (u1 u2 u3 : string) (s : EditorState) (a : EditorAction) :
  historyTracked s a = true ->
  let s1 := editorReducer u1 s a in
  let s2 := editorReducer u2 s1 UNDO in
  let s3 := editorReducer u3 s2 REDO in
  (tracks s2 = tracks s /\ subtitles s2 = subtitles s) /\
  (tracks s3 = tracks s1 /\ subtitles s3 = subtitles s1).
Proof.
  intros H s1 s2 s3.
  pose proof (tracked_history u1 s a H) as Hh. fold s1 in Hh.
  destruct (pushedHistory_pop s) as [rest Hpop].
  rewrite <- Hh in Hpop.
  destruct (undo_after s1 _ _ u2 Hpop) as (Ht & Hs & Hh2). fold s2 in Ht, Hs, Hh2.
  rewrite snapshot_tracks in Ht. rewrite snapshot_subtitles in Hs.
  split; [auto|].
  assert (Hf : future (history s2) = snapshot s1 :: []).
  { rewrite Hh2; simpl. now rewrite Hh. }
  destruct (redo_after s2 _ _ u3 Hf) as (Ht3 & Hs3). fold s3 in Ht3, Hs3.
  now rewrite snapshot_tracks in Ht3; rewrite snapshot_subtitles in Hs3.
Qed.

Lemma undo_redo_roundtrip_witness :
  let s1 := editorReducer "new-id" twoClipState (SPLIT_CLIP "A" 2) in
  let s2 := editorReducer "" s1 UNDO in
  let s3 := editorReducer "" s2 REDO in
  (tracks s2 = tracks twoClipState /\ subtitles s2 = subtitles twoClipState) /\
  (tracks s3 = tracks s1 /\ subtitles s3 = subtitles s1).
Proof.
  apply (undo_redo_roundtrip "new-id" "" "" twoClipState (SPLIT_CLIP "A" 2)).
  reflexivity.
Defined.

(** PASTE_CLIP with an empty clipboard leaves the reducer before
    [saveToHistory]: the state comes back as it was, history included. *)
Lemma paste_without_clipboard (uuid : string) (s : EditorState) (trackId : string)
    (startTime : Q) :
  clipboard s = None -> editorReducer uuid s (PASTE_CLIP trackId startTime) = s.
Proof. intros H. simpl. now rewrite H. Qed.

(** C10. A history-tracked edit with degenerate parameters (a split point
    at or beyond either edge of the clip, or a trim, move or split of a
    clip id found on no track) changes neither [tracks] nor [subtitles],
    and still pushes the snapshot of the current content on top of
    [history.past] and empties [history.future]: the result is exactly
    [saveToHistory state]. *)
Theorem degenerate_edit_discards_redo (uuid : string) (s : EditorState)
    (a : EditorAction) :
  degenerate s a = true ->
  let s' := editorReducer uuid s a in
  s' = saveToHistory s /\
  tracks s' = tracks s /\ subtitles s' = subtitles s /\
  future (history s') = [] /\
  exists rest, pop (past (history s')) = Some (snapshot s, rest).
Proof.
  intros H s'.
  assert (E : s' = saveToHistory s).
  { subst s'. destruct a; simpl in H; try discriminate; simpl.
    - destruct (findClip (tracks s) clipId); [discriminate | reflexivity].
    - destruct (findClip (tracks s) clipId); [discriminate | reflexivity].
    - destruct (findClip (tracks s) clipId) as [r|]; [|reflexivity].
      now rewrite H. }
  rewrite E. repeat split.
  destruct (pushedHistory_pop s) as [rest Hrest]. now exists rest.
Qed.

Lemma degenerate_edit_discards_redo_witness :
  let s := editorReducer "" twoClipState UNDO in
  let s' := editorReducer "new-id" s (SPLIT_CLIP "A" 0) in
  future (history s) <> [] /\
  s' = saveToHistory s /\
  tracks s' = tracks s /\ subtitles s' = subtitles s /\
  future (history s') = [] /\
  exists rest, pop (past (history s')) = Some (snapshot s, rest).
Proof.
  split; [discriminate|].
  apply (degenerate_edit_discards_redo "new-id"
           (editorReducer "" twoClipState UNDO) (SPLIT_CLIP "A" 0)).
  reflexivity.
Defined.

(** *** Arrays *)

Lemma findIndex_nth {A : Type} (p : A -> bool) (l : list A) (i : nat) (x : A) :
  findIndex p l = Some (i, x) -> nth_error l i = Some x /\ p x = true.
Proof.
  revert i. induction l as [|y l IH]; intros i H; simpl in H; [discriminate|].
  destruct (p y) eqn:P.
  - inversion H; subst. auto.
  - destruct (findIndex p l) as [[j z]|]; [|discriminate].
    inversion H; subst. simpl. now apply IH.
Qed.

Lemma update_at_same {A : Type} (f : A -> A) (l : list A) (i : nat) (x : A) :
  nth_error l i = Some x -> nth_error (update_at i f l) i = Some (f x).
Proof.
  revert i. induction l as [|y l IH]; intros [|i] H; simpl in *; try discriminate.
  - now inversion H.
  - now apply IH.
Qed.

Lemma update_at_other {A : Type} (f : A -> A) (l : list A) (i j : nat) :
  j <> i -> nth_error (update_at i f l) j = nth_error l j.
Proof.
  revert i j. induction l as [|y l IH]; intros [|i] [|j] H; simpl; auto;
    try congruence.
Qed.

Lemma insert_after_update {A : Type} (f : A -> A) (y : A) (l : list A) (i : nat) (x : A) :
  nth_error l i = Some x ->
  insert_at (S i) y (update_at i f l) = firstn i l ++ [f x; y] ++ skipn (S i) l.
Proof.
  revert i. induction l as [|z l IH]; intros [|i] H; simpl in *; try discriminate.
  - inversion H; subst. now destruct l.
  - f_equal. now apply IH.
Qed.

(** What [findClip] answers: the track at position [fc_pos], and in it the
    clip at [fc_index], which carries the id asked for. *)
Lemma findClip_from_spec (ts : list TimelineTrack) (clipId : string) (pos : nat)
    (r : FoundClip) :
  findClip_from pos ts clipId = Some r ->
  exists k, fc_pos r = (pos + k)%nat /\
            nth_error ts k = Some (fc_track r) /\
            nth_error (t_clips (fc_track r)) (fc_index r) = Some (fc_clip r) /\
            c_id (fc_clip r) = clipId.
Proof.
  revert pos. induction ts as [|t ts IH]; intros pos H; simpl in H; [discriminate|].
  destruct (findIndex _ (t_clips t)) as [[i c]|] eqn:F.
  - inversion H; subst; simpl. exists O. apply findIndex_nth in F.
    destruct F as [F1 F2]. apply String.eqb_eq in F2.
    repeat split; auto.
  - destruct (IH _ H) as (k & K1 & K2 & K3 & K4).
    exists (S k). repeat split; auto. rewrite K1. lia.
Qed.

Lemma findClip_spec (ts : list TimelineTrack) (clipId : string) (r : FoundClip) :
  findClip ts clipId = Some r ->
  nth_error ts (fc_pos r) = Some (fc_track r) /\
  nth_error (t_clips (fc_track r)) (fc_index r) = Some (fc_clip r) /\
  c_id (fc_clip r) = clipId.
Proof.
  intros H. destruct (findClip_from_spec _ _ _ _ H) as (k & K1 & K2 & K3 & K4).
  simpl in K1. subst k. auto.
Qed.

(** *** Splitting a clip *)

(** C3 as stated fails on the numbers the code computes with.  A clip of
    0.9 seconds that starts at 0 is split at 0.2: the first clip gets the
    duration 0.2 and the second 0.7 (the double [0.9 - 0.2]), and
    [0.2 + 0.7] is 0.8999999999999999, less than the 0.9 the clip had.  A
    clip that starts at 0.2 is split at 0.9: the first clip gets the
    duration 0.7 and so ends at 0.8999999999999999, before the 0.9 where
    the second starts. *)
Lemma split_durations_do_not_add_up :
  (splitTimes nineTenths (decimal 2 1) =
     Some (mkTimes zero (decimal 2 1) zero zero,
           mkTimes (decimal 2 1) (decimal 7 1) (decimal 2 1) zero) /\
   dadd (decimal 2 1) (decimal 7 1) <> ct_duration nineTenths /\
   dltb (dadd (decimal 2 1) (decimal 7 1)) (ct_duration nineTenths) = true /\
   ~ value (decimal 2 1) + value (decimal 7 1) == value (ct_duration nineTenths)) /\
  (splitTimes fromTwoTenths (decimal 9 1) =
     Some (mkTimes (decimal 2 1) (decimal 7 1) zero zero,
           mkTimes (decimal 9 1) (dsub (ofZ 1) (decimal 7 1)) (decimal 7 1) zero) /\
   dadd (decimal 2 1) (decimal 7 1) <> decimal 9 1 /\
   dltb (dadd (decimal 2 1) (decimal 7 1)) (decimal 9 1) = true).
Proof.
  repeat split; try (vm_compute; reflexivity); try (vm_compute; discriminate).
Qed.

(** C3, amended.  SPLIT_CLIP with a split point strictly inside the clip
    replaces the clip, in place, by exactly two clips: the first keeps the
    id, the start and the [trimStart], and its duration becomes
    [splitPoint - clip.startTime]; the second carries the fresh id, starts
    at the absolute split point, has the duration
    [clip.duration - (splitPoint - clip.startTime)] and the [trimStart]
    [clip.trimStart + (splitPoint - clip.startTime)], the original
    [trimStart] plus the first's new duration.  Both durations are
    positive and the first is shorter than the clip was.  Other tracks are
    untouched.  (Each value is the expression the reducer evaluates; that
    the two durations add up to the original is not claimed.) *)
Theorem split_inside_two_contiguous_clips (uuid : string) (s : EditorState)
    (clipId : string) (splitPoint : Q) (r : FoundClip) :
  findClip (tracks s) clipId = Some r ->
  0 < splitPoint - c_startTime (fc_clip r) ->
  splitPoint - c_startTime (fc_clip r) < c_duration (fc_clip r) ->
  let s' := editorReducer uuid s (SPLIT_CLIP clipId splitPoint) in
  let clip := fc_clip r in
  let clips := t_clips (fc_track r) in
  exists first second : TimelineClip,
    nth_error (tracks s') (fc_pos r) =
      Some (set_t_clips (firstn (fc_index r) clips ++ [first; second]
                           ++ skipn (S (fc_index r)) clips) (fc_track r)) /\
    (forall j, j <> fc_pos r -> nth_error (tracks s') j = nth_error (tracks s) j) /\
    c_id first = c_id clip /\ c_id second = uuid /\
    c_startTime first = c_startTime clip /\
    c_duration first = splitPoint - c_startTime clip /\
    c_duration second = c_duration clip - (splitPoint - c_startTime clip) /\
    c_startTime second = splitPoint /\
    c_trimStart first = c_trimStart clip /\
    c_trimStart second = c_trimStart clip + (splitPoint - c_startTime clip) /\
    c_trimStart second = c_trimStart clip + c_duration first /\
    0 < c_duration first /\ c_duration first < c_duration clip /\
    0 < c_duration second.
Proof.
  intros F Hlo Hhi s' clip clips.
  destruct (findClip_spec _ _ _ F) as (Ht & Hc & _).
  assert (E : tracks s' =
              update_at (fc_pos r)
                (fun t => set_t_clips
                   (insert_at (S (fc_index r))
                      (splitSecond uuid splitPoint (splitPoint - c_startTime clip) clip)
                      (update_at (fc_index r)
                         (splitFirst (splitPoint - c_startTime clip)) (t_clips t))) t)
                (tracks s)).
  { subst s'. simpl. rewrite F.
    assert (B1 : Qle_bool (splitPoint - c_startTime (fc_clip r)) 0 = false).
    { apply not_true_is_false. intros B. apply Qle_bool_iff in B. lra. }
    assert (B2 : Qle_bool (c_duration (fc_clip r)) (splitPoint - c_startTime (fc_clip r))
                 = false).
    { apply not_true_is_false. intros B. apply Qle_bool_iff in B. lra. }
    rewrite B1, B2. reflexivity. }
  exists (splitFirst (splitPoint - c_startTime clip) clip),
         (splitSecond uuid splitPoint (splitPoint - c_startTime clip) clip).
  split.
  { rewrite E. rewrite (update_at_same _ _ _ _ Ht).
    now rewrite (insert_after_update _ _ _ _ _ Hc). }
  split.
  { intros j Hj. rewrite E. now apply update_at_other. }
  unfold clip in *. simpl. repeat split; try reflexivity; lra.
Qed.

Lemma split_inside_two_contiguous_clips_witness :
  let r := mkFound 0 (mkTrack "video-track-1" "Video 1" TrackVideo [clipA; clipB]
                        None None (Some false) (Some true)) clipA 0 in
  let s' := editorReducer "new-id" twoClipState (SPLIT_CLIP "A" 2) in
  exists first second : TimelineClip,
    nth_error (tracks s') 0 =
      Some (set_t_clips ([] ++ [first; second] ++ [clipB]) (fc_track r)) /\
    (forall j, j <> O -> nth_error (tracks s') j = nth_error (tracks twoClipState) j) /\
    c_id first = "A" /\ c_id second = "new-id" /\
    c_startTime first = 0 /\
    c_duration first = 2 - 0 /\
    c_duration second = 5 - (2 - 0) /\
    c_startTime second = 2 /\
    c_trimStart first = 0 /\
    c_trimStart second = 0 + (2 - 0) /\
    c_trimStart second = 0 + c_duration first /\
    0 < c_duration first /\ c_duration first < 5 /\
    0 < c_duration second.
Proof.
  apply (split_inside_two_contiguous_clips "new-id" twoClipState "A" 2
           (mkFound 0 (mkTrack "video-track-1" "Video 1" TrackVideo [clipA; clipB]
                         None None (Some false) (Some true)) clipA 0)).
  - reflexivity.
  - reflexivity.
  - reflexivity.
Defined.

(** Whatever the split point, the first clip comes out of [SPLIT_CLIP] with
    the [trimEnd] it had: the tail length is computed after [duration] was
    overwritten, so it is [splitPoint - splitPoint]. *)
Lemma splitFirst_trimEnd (splitPoint : Q) (clip : TimelineClip) :
  c_trimEnd (splitFirst splitPoint clip) == c_trimEnd clip.
Proof. simpl. lra. Qed.

(** C4, on the code: splitting clip A ([startTime 0], [duration 5],
    [trimEnd 0]) at 2 leaves the first clip with [duration 2] and
    [trimEnd 0], not with the old [trimEnd] plus the removed tail
    [0 + (5 - 2) = 3]. *)
Theorem split_leaves_trimEnd_unchanged :
  let s' := editorReducer "new-id" twoClipState (SPLIT_CLIP "A" 2) in
  exists r, findClip (tracks s') "A" = Some r /\
            c_duration (fc_clip r) == 2 /\
            c_trimEnd (fc_clip r) == 0 /\
            ~ c_trimEnd (fc_clip r) == c_trimEnd clipA + (c_duration clipA - (2 - c_startTime clipA)).
Proof.
  eexists. split; [reflexivity|]. simpl.
  repeat split; try reflexivity. intros H. vm_compute in H. discriminate.
Qed.

(** *** The stored duration *)

(** C1, on the code: REMOVE_TRACK (and ADD_TRACK) do not recompute
    [duration].  Removing the video track that holds clips A and B leaves
    the stored duration at 8 while the tracks now give 0; adding a track
    that already holds clip A to the initial state leaves it at 0 while the
    tracks give 5.  Both states are reachable. *)
Theorem track_edits_leave_duration_stale :
  let removed := editorReducer "" twoClipState (REMOVE_TRACK "video-track-1") in
  let added := editorReducer "" initialState
                 (ADD_TRACK (mkTrack "video-track-2" "Video 2" TrackVideo [clipA]
                               None None (Some false) (Some true))) in
  (reachable removed /\
   duration removed == 8 /\ calculateDuration (tracks removed) == 0 /\
   ~ duration removed == calculateDuration (tracks removed)) /\
  (reachable added /\
   duration added == 0 /\ calculateDuration (tracks added) == 5 /\
   ~ duration added == calculateDuration (tracks added)).
Proof.
  split.
  - split; [repeat apply reach_step; apply reach_init|].
    repeat split; try reflexivity. intros H. vm_compute in H. discriminate.
  - split; [repeat apply reach_step; apply reach_init|].
    repeat split; try reflexivity. intros H. vm_compute in H. discriminate.
Qed.

(** *** Moving a clip onto a track of another kind *)

(** C5 as stated fails: moving video clip A (at 0 on the video track) to
    start 3 on the existing audio track leaves it on the video track, but
    at start 0, not at [max(0, 3)]. *)
Lemma cross_kind_move_does_not_reposition :
  let s := oneClipState in
  let s' := editorReducer "" s (MOVE_CLIP "A" 3 (Some "audio-track-1")) in
  (exists r target,
     findClip (tracks s) "A" = Some r /\
     findTrack (tracks s) "audio-track-1" = Some target /\
     t_type (snd target) <> trackTypeOf (c_type (fc_clip r))) /\
  (exists r', findClip (tracks s') "A" = Some r' /\
              t_id (fc_track r') = "video-track-1" /\
              c_startTime (fc_clip r') == 0 /\
              ~ c_startTime (fc_clip r') == Math_max 0 3).
Proof.
  split.
  - eexists. eexists. split; [reflexivity|]. split; [reflexivity|].
    simpl. discriminate.
  - eexists. split; [reflexivity|]. simpl.
    repeat split; try reflexivity. intros H. vm_compute in H. discriminate.
Qed.

Lemma TrackType_eqb_neq (a b : TrackType) : a <> b -> TrackType_eqb a b = false.
Proof. destruct a, b; simpl; congruence. Qed.

(** C5, amended.  When MOVE_CLIP names, by a non-empty [newTrackId], an
    existing track other than the one holding the clip, and the kind of
    that track differs from the kind of the track holding the clip, the
    move is rejected whole: [tracks] is left exactly as it was, so the clip
    keeps its track and its [startTime]; [subtitles] are untouched and the
    attempt is recorded in the history. *)
Theorem cross_kind_move_rejected (uuid : string) (s : EditorState)
    (clipId : string) (newStartTime : Q) (newTrackId : string)
    (r : FoundClip) (tpos : nat) (target : TimelineTrack) :
  findClip (tracks s) clipId = Some r ->
  newTrackId <> "" ->
  newTrackId <> t_id (fc_track r) ->
  findTrack (tracks s) newTrackId = Some (tpos, target) ->
  t_type target <> t_type (fc_track r) ->
  let s' := editorReducer uuid s (MOVE_CLIP clipId newStartTime (Some newTrackId)) in
  tracks s' = tracks s /\ subtitles s' = subtitles s /\
  findClip (tracks s') clipId = Some r /\
  history s' = pushedHistory s.
Proof.
  intros F Hne Hsrc T K s'.
  assert (E : tracks s' = tracks s).
  { subst s'. simpl. rewrite F. simpl. unfold moveClipTracks. simpl.
    apply String.eqb_neq in Hne. rewrite Hne.
    apply String.eqb_neq in Hsrc. rewrite Hsrc. simpl.
    rewrite T. now rewrite (TrackType_eqb_neq _ _ K). }
  repeat split.
  - exact E.
  - subst s'. simpl. now rewrite F.
  - now rewrite E.
  - subst s'. simpl. now rewrite F.
Qed.

Lemma cross_kind_move_rejected_witness :
  let s := oneClipState in
  let s' := editorReducer "" s (MOVE_CLIP "A" 3 (Some "audio-track-1")) in
  tracks s' = tracks s /\ subtitles s' = subtitles s /\
  findClip (tracks s') "A" =
    Some (mkFound 0 (mkTrack "video-track-1" "Video 1" TrackVideo [clipA]
                       None None (Some false) (Some true)) clipA 0) /\
  history s' = pushedHistory s.
Proof.
  apply (cross_kind_move_rejected "" oneClipState "A" 3 "audio-track-1"
           (mkFound 0 (mkTrack "video-track-1" "Video 1" TrackVideo [clipA]
                         None None (Some false) (Some true)) clipA 0)
           1%nat
           (mkTrack "audio-track-1" "Audio 1" TrackAudio [] None (Some 1)
              (Some false) (Some true))).
  - reflexivity.
  - discriminate.
  - discriminate.
  - reflexivity.
  - discriminate.
Defined.

(** *** The playhead *)

Lemma Qgtb_true (a b : Q) : Qgtb a b = true -> b < a.
Proof.
  unfold Qgtb. intros H. apply negb_true_iff in H.
  apply Qnot_le_lt. intros L. apply Qle_bool_iff in L. congruence.
Qed.

Lemma clips_fold_nonneg (cs : list TimelineClip) (acc : Q) :
  0 <= acc ->
  0 <= fold_left
         (fun maxEnd clip =>
            let clipEnd := c_startTime clip + c_duration clip in
            if Qgtb clipEnd maxEnd then clipEnd else maxEnd) cs acc.
Proof.
  revert acc. induction cs as [|c cs IH]; intros acc H; simpl; [exact H|].
  apply IH. destruct (Qgtb _ _) eqn:G; [|exact H].
  apply Qgtb_true in G. lra.
Qed.

Lemma tracks_fold_nonneg (ts : list TimelineTrack) (acc : Q) :
  0 <= acc ->
  0 <= fold_left
         (fun maxEnd track =>
            fold_left
              (fun maxEnd clip =>
                 let clipEnd := c_startTime clip + c_duration clip in
                 if Qgtb clipEnd maxEnd then clipEnd else maxEnd)
              (t_clips track) maxEnd) ts acc.
Proof.
  revert acc. induction ts as [|t ts IH]; intros acc H; simpl; [exact H|].
  apply IH. now apply clips_fold_nonneg.
Qed.

(** [calculateDuration] never answers a negative number. *)
Lemma calculateDuration_nonneg (ts : list TimelineTrack) : 0 <= calculateDuration ts.
Proof. unfold calculateDuration. apply tracks_fold_nonneg. lra. Qed.

Lemma Math_max_lower (a b : Q) : a <= Math_max a b.
Proof. unfold Math_max. apply Q.le_max_l. Qed.

Lemma clamp_upper (t d : Q) : 0 <= d -> Math_max 0 (Math_min t d) <= d.
Proof.
  intros H. unfold Math_max, Math_min. apply Q.max_lub; [exact H|]. apply Q.le_min_r.
Qed.

Lemma reducer_keeps_nonneg_clock (uuid : string) (s : EditorState) (a : EditorAction) :
  nonneg_clock s -> nonneg_clock (editorReducer uuid s a).
Proof.
  intros [Hp Hd]. pose proof calculateDuration_nonneg as N.
  unfold nonneg_clock.
  destruct a; simpl;
    repeat match goal with
           | |- context [match ?x with _ => _ end] => destruct x
           end;
    simpl; try (split; auto; fail).
  all: try (split; [apply Math_max_lower | exact Hd]).
  all: try (split; lra).
Qed.

(** C9 as stated fails: with clip A on the timeline, setting the playhead
    to 5 and then removing the clip reaches a state with [playhead = 5] and
    [duration = 0]. *)
Lemma playhead_can_exceed_duration :
  let s := run oneClipState [("", SET_PLAYHEAD 5); ("", REMOVE_CLIP "A")] in
  reachable s /\ playhead s == 5 /\ duration s == 0 /\
  ~ (0 <= playhead s /\ playhead s <= duration s).
Proof.
  split; [repeat apply reach_step; apply reach_init|].
  repeat split; try reflexivity.
  intros [_ H]. vm_compute in H. apply H. reflexivity.
Qed.

(** C9, amended.  In every reachable state the playhead and the stored
    duration are non-negative, and SET_PLAYHEAD from such a state yields
    [0 <= playhead <= duration].  Content operations do not clamp the
    playhead again. *)
Theorem playhead_bounds (s : EditorState) :
  reachable s ->
  (0 <= playhead s /\ 0 <= duration s) /\
  forall (uuid : string) (time : Q),
    let s' := editorReducer uuid s (SET_PLAYHEAD time) in
    0 <= playhead s' /\ playhead s' <= duration s'.
Proof.
  intros R.
  assert (I : nonneg_clock s).
  { induction R.
    - split; simpl; lra.
    - now apply reducer_keeps_nonneg_clock. }
  split; [exact I|]. destruct I as [_ Hd].
  intros uuid time. simpl. split.
  - apply Math_max_lower.
  - now apply clamp_upper.
Qed.

Lemma playhead_bounds_witness :
  let s := twoClipState in
  (0 <= playhead s /\ 0 <= duration s) /\
  forall (uuid : string) (time : Q),
    let s' := editorReducer uuid s (SET_PLAYHEAD time) in
    0 <= playhead s' /\ playhead s' <= duration s'.
Proof.
  apply (playhead_bounds twoClipState).
  repeat apply reach_step. apply reach_init.
Defined.

(** *** The stored duration under the other actions *)

Lemma calculateDuration_scan (ts : list TimelineTrack) :
  calculateDuration ts = scanTracks ts 0.
Proof. reflexivity. Qed.

Lemma scan_step_max (acc e : Q) : (if Qgtb e acc then e else acc) == Qmax acc e.
Proof.
  destruct (Qgtb e acc) eqn:G.
  - apply Qgtb_true in G. symmetry. apply Q.max_r. lra.
  - unfold Qgtb in G. apply negb_false_iff in G. apply Qle_bool_iff in G.
    symmetry. apply Q.max_l. exact G.
Qed.

Lemma scanClips_comp (cs : list TimelineClip) (a b : Q) :
  a == b -> scanClips cs a == scanClips cs b.
Proof.
  revert a b. induction cs as [|c cs IH]; intros a b E; simpl; [exact E|].
  apply IH. rewrite !scan_step_max. now rewrite E.
Qed.

Lemma scanTracks_comp (ts : list TimelineTrack) (a b : Q) :
  a == b -> scanTracks ts a == scanTracks ts b.
Proof.
  revert a b. induction ts as [|t ts IH]; intros a b E; simpl; [exact E|].
  apply IH. now apply scanClips_comp.
Qed.

Lemma scanClips_app (xs ys : list TimelineClip) (a : Q) :
  scanClips (xs ++ ys) a = scanClips ys (scanClips xs a).
Proof. unfold scanClips. apply fold_left_app. Qed.

Lemma scanTracks_app (xs ys : list TimelineTrack) (a : Q) :
  scanTracks (xs ++ ys) a = scanTracks ys (scanTracks xs a).
Proof. unfold scanTracks. apply fold_left_app. Qed.

Lemma nth_error_split_at {A : Type} (l : list A) (i : nat) (x : A) :
  nth_error l i = Some x -> l = firstn i l ++ x :: skipn (S i) l.
Proof.
  revert i. induction l as [|y l IH]; intros [|i] H; simpl in *; try discriminate.
  - now inversion H.
  - f_equal. now apply IH.
Qed.

Lemma update_at_split {A : Type} (f : A -> A) (l : list A) (i : nat) (x : A) :
  nth_error l i = Some x -> update_at i f l = firstn i l ++ f x :: skipn (S i) l.
Proof.
  revert i. induction l as [|y l IH]; intros [|i] H; simpl in *; try discriminate.
  - now inversion H.
  - f_equal. now apply IH.
Qed.

(** Replacing one clip by two that end no later, one of them where the
    clip ended, does not move the maximum. *)
Lemma scanClips_split (before after : list TimelineClip) (c c1 c2 : TimelineClip) (a : Q) :
  clipEnd c1 <= clipEnd c -> clipEnd c2 == clipEnd c ->
  scanClips (before ++ [c1; c2] ++ after) a == scanClips (before ++ c :: after) a.
Proof.
  intros H1 H2. rewrite !scanClips_app. simpl.
  apply scanClips_comp. rewrite !scan_step_max.
  fold (clipEnd c1) (clipEnd c2) (clipEnd c).
  rewrite H2. rewrite <- Q.max_assoc. rewrite (Q.max_r (clipEnd c1) (clipEnd c)) by exact H1.
  reflexivity.
Qed.

(** Changing a track without touching its clips does not change the scan. *)
Lemma scanTracks_update_flags (g : TimelineTrack -> TimelineTrack)
    (ts : list TimelineTrack) (i : nat) (a : Q) :
  (forall t, t_clips (g t) = t_clips t) ->
  scanTracks (update_at i g ts) a = scanTracks ts a.
Proof.
  intros G. revert i a. induction ts as [|t ts IH]; intros [|i] a; simpl;
    try reflexivity.
  - now rewrite G.
  - apply IH.
Qed.

Lemma split_tracks (uuid : string) (s : EditorState) (clipId : string) (sp : Q)
    (r : FoundClip) :
  findClip (tracks s) clipId = Some r ->
  Qle_bool (sp - c_startTime (fc_clip r)) 0 = false ->
  Qle_bool (c_duration (fc_clip r)) (sp - c_startTime (fc_clip r)) = false ->
  tracks (editorReducer uuid s (SPLIT_CLIP clipId sp)) =
    firstn (fc_pos r) (tracks s)
    ++ set_t_clips
         (firstn (fc_index r) (t_clips (fc_track r))
          ++ [splitFirst (sp - c_startTime (fc_clip r)) (fc_clip r);
              splitSecond uuid sp (sp - c_startTime (fc_clip r)) (fc_clip r)]
          ++ skipn (S (fc_index r)) (t_clips (fc_track r)))
         (fc_track r)
    :: skipn (S (fc_pos r)) (tracks s).
Proof.
  intros F B1 B2. unfold editorReducer. cbv zeta.
  change (tracks (saveToHistory s)) with (tracks s).
  rewrite F, B1, B2. cbn [orb tracks set_tracks].
  destruct (findClip_spec _ _ _ F) as (Ht & Hc & _).
  rewrite (update_at_split _ _ _ _ Ht).
  now rewrite (insert_after_update _ _ _ _ _ Hc).
Qed.

Lemma split_keeps_scan (uuid : string) (s : EditorState) (clipId : string) (sp : Q) :
  calculateDuration (tracks (editorReducer uuid s (SPLIT_CLIP clipId sp)))
  == calculateDuration (tracks s).
Proof.
  destruct (findClip (tracks s) clipId) as [r|] eqn:F.
  2:{ simpl. rewrite F. reflexivity. }
  destruct (Qle_bool (sp - c_startTime (fc_clip r)) 0) eqn:B1.
  { simpl. rewrite F, B1. reflexivity. }
  destruct (Qle_bool (c_duration (fc_clip r)) (sp - c_startTime (fc_clip r))) eqn:B2.
  { simpl. rewrite F, B1, B2. reflexivity. }
  rewrite (split_tracks _ _ _ _ _ F B1 B2).
  destruct (findClip_spec _ _ _ F) as (Ht & Hc & _).
  rewrite (nth_error_split_at _ _ _ Ht) at 3.
  rewrite !calculateDuration_scan, !scanTracks_app.
  cbn [scanTracks fold_left t_clips set_t_clips].
  apply scanTracks_comp.
  rewrite (nth_error_split_at _ _ _ Hc) at 3.
  apply scanClips_split; unfold clipEnd; simpl.
  - assert (Y : ~ c_duration (fc_clip r) <= sp - c_startTime (fc_clip r)).
    { intros Y. apply Qle_bool_iff in Y. congruence. }
    lra.
  - lra.
Qed.

(** Every action other than ADD_TRACK and REMOVE_TRACK keeps the stored
    duration in agreement with the tracks. *)
Lemma reducer_keeps_duration (uuid : string) (s : EditorState) (a : EditorAction) :
  isTrackEdit a = false ->
  durationAgrees s -> durationAgrees (editorReducer uuid s a).
Proof.
  intros Ha D. unfold durationAgrees in *.
  destruct a; try discriminate.
  - reflexivity.
  - simpl. destruct (findTrack _ _) as [[pos tr]|]; [reflexivity | exact D].
  - simpl. destruct (opt_string_eqb _ _); reflexivity.
  - simpl. destruct (findClip _ _); [reflexivity | exact D].
  - simpl. destruct (findClip _ _); [reflexivity | exact D].
  - rewrite split_keeps_scan. rewrite <- D.
    simpl. destruct (findClip _ _) as [r|]; [|reflexivity].
    destruct (_ || _); reflexivity.
  - exact D.
  - simpl. destruct (findClip _ _); exact D.
  - simpl. destruct (clipboard s) eqn:C; [|exact D]. simpl.
    destruct (findTrack _ _) as [[pos tr]|]; [reflexivity | exact D].
  - simpl. destruct (findTrack _ _) as [[pos tr]|]; [|exact D]. simpl.
    rewrite D. rewrite !calculateDuration_scan.
    now rewrite scanTracks_update_flags.
  - simpl. destruct (findTrack _ _) as [[pos tr]|]; [|exact D]. simpl.
    rewrite D. rewrite !calculateDuration_scan.
    now rewrite scanTracks_update_flags.
  - simpl. destruct (findTrack _ _) as [[pos tr]|]; [|exact D]. simpl.
    rewrite D. rewrite !calculateDuration_scan.
    now rewrite scanTracks_update_flags.
  - simpl. destruct (findTrack _ _) as [[pos tr]|]; [|exact D]. simpl.
    rewrite D. rewrite !calculateDuration_scan.
    now rewrite scanTracks_update_flags.
  - simpl. reflexivity.
  - exact D.
  - simpl. destruct (findIndex _ _) as [[i x]|]; exact D.
  - simpl. destruct (opt_string_eqb _ _); exact D.
  - exact D.
  - exact D.
  - exact D.
  - exact D.
  - simpl. destruct (pop _) as [[p rest]|]; [reflexivity | exact D].
  - simpl. destruct (future _); [exact D | reflexivity].
  - exact D.
  - exact D.
  - reflexivity.
Qed.

(** Without ADD_TRACK and REMOVE_TRACK the stored duration never drifts
    from [calculateDuration(tracks)], the numbers being exact: a split
    leaves no later end than there was.  (On doubles the two durations a
    split leaves can add up to less than the clip had.) *)
Lemma duration_agrees_without_track_edits (acts : list (string * EditorAction)) :
  forallb (fun ua => negb (isTrackEdit (snd ua))) acts = true ->
  durationAgrees (run initialState acts).
Proof.
  assert (G : forall s, durationAgrees s ->
                forallb (fun ua => negb (isTrackEdit (snd ua))) acts = true ->
                durationAgrees (run s acts)).
  { induction acts as [|[u a] acts IH]; intros s D H; simpl in *; [exact D|].
    apply andb_true_iff in H. destruct H as [H1 H2].
    apply IH; [|exact H2].
    apply reducer_keeps_duration; [|exact D].
    now apply negb_true_iff in H1. }
  apply G. unfold durationAgrees. reflexivity.
Qed.

End EditorFacts.


(** ** Properties of the export route *)

Module ExportFacts.
Import Doubles ExportRoute.

(** *** Scratch files *)

(** C6, on the code: when the download of clip B's voiceover fails, the
    handler emits [export:failed] and answers 500, and the three files
    already downloaded are still in the scratch directory: the [catch]
    block unlinks nothing.  The same request with every collaborator
    answering well ends with an empty scratch directory. *)
Theorem failed_export_leaves_scratch_files :
  let failed := exportHandler narrationBMissing "/tmp/viralshorts-export-e1" "e1"
                  twoClips emptyWorld in
  let done := exportHandler allGood "/tmp/viralshorts-export-e1" "e1"
                twoClips emptyWorld in
  (snd failed = Returned (sendError "Failed to export video. Please try again." 500) /\
   emitted (fst failed) =
     [export_progress 5 "downloading"; export_progress 5 "downloading";
      export_failed "Failed to download: Not Found"] /\
   files (fst failed) =
     ["/tmp/viralshorts-export-e1/video_1.mp4";
      "/tmp/viralshorts-export-e1/voiceover_0.mp3";
      "/tmp/viralshorts-export-e1/video_0.mp4"]) /\
  (snd done = Returned (sendSuccess "e1" "https://storage/signed" "completed" false) /\
   files (fst done) = []).
Proof. vm_compute. repeat split. Qed.

(** *** The audio mix *)

(** Rounding to hundredths moves a number by at most half a hundredth. *)
Lemma hundredths_error (x : Q) :
  x - (1 # 200) < inject_Z (hundredths x) / 100 /\
  inject_Z (hundredths x) / 100 <= x + (1 # 200).
Proof.
  unfold hundredths.
  pose proof (Qfloor_le (x * 100 + (1 # 2))) as L.
  pose proof (Qlt_floor (x * 100 + (1 # 2))) as U.
  rewrite inject_Z_plus in U. change (inject_Z 1) with 1 in U.
  set (n := inject_Z (Qfloor (x * 100 + (1 # 2)))) in *.
  assert (E : n / 100 == n * (1 # 100)) by (unfold Qdiv; reflexivity).
  rewrite E. split; lra.
Qed.

Lemma hundredths_nonneg (x : Q) : 0 <= x -> (0 <= hundredths x)%Z.
Proof.
  intros H. unfold hundredths.
  change 0%Z with (Qfloor 0). apply Qfloor_resp_le. lra.
Qed.

(** Reading digits: what was read so far is carried over, ten times per
    digit. *)
Lemma decimalValue_from_digits (d : Decimal.uint) (p : positive) (rest : string) :
  decimalValue_from (NilEmpty.string_of_uint d ++ rest) (Z.pos p) None =
  decimalValue_from rest (Z.pos (Pos.of_uint_acc d p)) None.
Proof.
  revert p. induction d as [|d IH|d IH|d IH|d IH|d IH|d IH|d IH|d IH|d IH|d IH];
    intros p; [reflexivity| ..];
    cbn [NilEmpty.string_of_uint append decimalValue_from];
    match goal with
    | |- context [Ascii.eqb ?c "."%char] =>
        change (Ascii.eqb c "."%char) with false; cbv iota;
        let v := eval vm_compute in (digitOf c) in change (digitOf c) with v; cbv iota
    end;
    cbn [option_map Pos.of_uint_acc]; rewrite <- IH; f_equal; lia.
Qed.

Lemma decimalValue_from_uint (d : Decimal.uint) (rest : string) :
  decimalValue_from (NilEmpty.string_of_uint d ++ rest) 0 None =
  decimalValue_from rest (Z.of_uint d) None.
Proof.
  unfold Z.of_uint.
  induction d as [|d IH|d IH|d IH|d IH|d IH|d IH|d IH|d IH|d IH|d IH];
    [reflexivity|exact IH| ..];
    cbn [NilEmpty.string_of_uint append decimalValue_from Pos.of_uint];
    match goal with
    | |- context [Ascii.eqb ?c "."%char] =>
        change (Ascii.eqb c "."%char) with false; cbv iota;
        let v := eval vm_compute in (digitOf c) in change (digitOf c) with v; cbv iota
    end;
    cbn [option_map Z.of_N];
    match goal with
    | |- decimalValue_from _ ?n None = _ =>
        let v := eval vm_compute in n in change n with v
    end;
    apply decimalValue_from_digits.
Qed.

Lemma string_of_Z_nonneg (z : Z) :
  (0 <= z)%Z ->
  exists d, string_of_Z z = NilEmpty.string_of_uint d /\ Z.of_uint d = z.
Proof.
  intros H. unfold string_of_Z.
  pose proof (DecimalZ.of_to z) as OT.
  destruct z as [|p|p]; [| |lia]; cbn in *.
  - exists (Decimal.D0 Decimal.Nil). split; reflexivity.
  - exists (Pos.to_uint p). split; [|exact OT].
    pose proof (DecimalPos.Unsigned.to_uint_nonnil p) as N.
    unfold NilZero.string_of_uint. destruct (Pos.to_uint p); [congruence|reflexivity..].
Qed.

(** A digit is printed as one character, which reads back as the digit. *)
Lemma digit_literal (a : Z) :
  (0 <= a < 10)%Z ->
  exists c : ascii, string_of_Z a = String c "" /\ digitOf c = Some a /\
                    Ascii.eqb c "."%char = false.
Proof.
  intros Ha.
  assert (Ca : (a = 0 \/ a = 1 \/ a = 2 \/ a = 3 \/ a = 4 \/ a = 5 \/ a = 6 \/ a = 7
               \/ a = 8 \/ a = 9)%Z) by lia.
  repeat (destruct Ca as [Ca|Ca]); subst a;
    (eexists; split; [vm_compute; reflexivity|split; vm_compute; reflexivity]).
Qed.

(** The two decimals of a literal, read after [q] units. *)
Lemma decimalValue_from_decimals (q a b : Z) :
  (0 <= a < 10)%Z -> (0 <= b < 10)%Z ->
  decimalValue_from ("." ++ string_of_Z a ++ string_of_Z b) q None =
  Some ((100 * q + 10 * a + b) # 100).
Proof.
  intros Ha Hb.
  destruct (digit_literal a Ha) as (ca & -> & Da & Pa).
  destruct (digit_literal b Hb) as (cb & -> & Db & Pb).
  cbn [append decimalValue_from].
  change (Ascii.eqb "." ".") with true. cbv iota.
  rewrite Pa, Da, Pb, Db. cbn [option_map].
  apply f_equal. apply f_equal2; [lia|reflexivity].
Qed.

(** The literal printed for [n] hundredths denotes [n / 100]. *)
Lemma decimalValue_fixed2 (n : Z) :
  (0 <= n)%Z -> decimalValue (fixed2 n) = Some (n # 100).
Proof.
  intros H. unfold decimalValue, fixed2, digit.
  destruct (string_of_Z_nonneg (n / 100)) as (d & -> & V);
    [apply Z.div_pos; lia|].
  rewrite decimalValue_from_uint, V.
  rewrite (decimalValue_from_decimals (n / 100) ((n / 10) mod 10) (n mod 10))
    by (apply Z.mod_pos_bound; lia).
  f_equal. f_equal. Z.div_mod_to_equations. lia.
Qed.

Lemma toFixed2_nonneg (x : Q) : 0 <= x -> toFixed2 x = fixed2 (hundredths x).
Proof.
  intros H. unfold toFixed2.
  destruct (Qle_bool 0 x) eqn:B; [reflexivity|].
  apply Qle_bool_iff in H. congruence.
Qed.

(** [Math.max(0, x)] is not negative. *)
Lemma value_max0 (x : double) : 0 <= value (max0 x).
Proof.
  destruct x as [s|s| |s m e]; try (destruct s); try apply Qle_refl.
  change (0 <= inject_Z (Z.pos m) * 2 ^ e).
  apply Qmult_le_0_compat.
  - unfold Qle; simpl; lia.
  - apply Qpower_0_le. discriminate.
Qed.

(** A finite gain is printed as the nearest count of hundredths, and the
    literal denotes that count. *)
Lemma gain_literal (x : double) :
  isFinite (max0 x) = true ->
  let n := hundredths (value (max0 x)) in
  toFixed2D (max0 x) = fixed2 n /\
  decimalValue (toFixed2D (max0 x)) = Some (n # 100) /\
  (0 <= n)%Z /\
  value (max0 x) - (1 # 200) < n # 100 /\ n # 100 <= value (max0 x) + (1 # 200).
Proof.
  intros F n.
  pose proof (value_max0 x) as V.
  assert (N : (0 <= n)%Z) by (apply hundredths_nonneg; exact V).
  assert (E : toFixed2D (max0 x) = fixed2 n).
  { unfold toFixed2D. destruct (max0 x); try discriminate;
      apply toFixed2_nonneg; exact V. }
  assert (Q100 : n # 100 == inject_Z n / 100).
  { unfold Qeq, Qdiv, Qmult, Qinv, inject_Z; simpl. lia. }
  destruct (hundredths_error (value (max0 x))) as [A1 A2].
  split; [exact E|]. split; [rewrite E; now apply decimalValue_fixed2|].
  split; [exact N|]. rewrite Q100. split; assumption.
Qed.

Lemma centiExact_holds : forallb centiExact (seq 0 101) = true.
Proof. vm_compute. reflexivity. Qed.


(** A ratio between 0 and 1 is a finite number. *)
Lemma ratio_finite (r : double) :
  dleb zero r = true -> dleb r one = true -> isFinite (max0 r) = true.
Proof.
  destruct r as [s|s| |s m e]; try (destruct s); try discriminate; reflexivity.
Qed.



(** *** What a run emits *)

Lemma bind_inv {A B : Type} (c : M A) (k : A -> M B) (w w' : World) (out : Outcome B) :
  bind c k w = (w', out) ->
  (exists w1 a, c w = (w1, Returned a) /\ k a w1 = (w', out)) \/
  (exists m, c w = (w', Thrown m) /\ out = Thrown m).
Proof.
  unfold bind. destruct (c w) as [w1 [a|m]]; intros H.
  - left. eauto.
  - right. inversion H; subst. eauto.
Qed.

Lemma silent_ret {A : Type} (a : A) : silent (ret a).
Proof. intros w w' out H. inversion H. reflexivity. Qed.

Lemma silent_throw {A : Type} (m : string) : silent (@throw A m).
Proof. intros w w' out H. inversion H. reflexivity. Qed.

Lemma silent_bind {A B : Type} (c : M A) (k : A -> M B) :
  silent c -> (forall a, silent (k a)) -> silent (bind c k).
Proof.
  intros Hc Hk w w' out H. apply bind_inv in H.
  destruct H as [(w1 & a & E1 & E2) | (m & E & _)].
  - rewrite (Hk a _ _ _ E2). now apply Hc in E1.
  - now apply Hc in E.
Qed.

Lemma silent_reject (r : Rejection) : silent (reject_or_unit r).
Proof. destruct r; [apply silent_throw | apply silent_ret]. Qed.

Lemma silent_writeFile (env : Env) (path : string) : silent (writeFile env path).
Proof.
  apply silent_bind; [apply silent_reject|].
  intros _ w w' out H. inversion H. reflexivity.
Qed.

Lemma silent_unlink (env : Env) (path : string) : silent (unlink env path).
Proof.
  intros w w' out H. unfold unlink in H.
  destruct (unlink_ok env path); inversion H; reflexivity.
Qed.

Lemma silent_downloadFile (env : Env) (url dest : string) :
  silent (downloadFile env url dest).
Proof.
  unfold downloadFile. destruct (fetch_ok env url);
    [apply silent_writeFile | apply silent_throw].
Qed.

Lemma silent_runFFmpeg (env : Env) (args : list Arg) : silent (runFFmpeg env args).
Proof.
  intros w w' out H. unfold runFFmpeg in H.
  destruct (Z.eqb _ _); inversion H; reflexivity.
Qed.

Lemma silent_updateProject (env : Env) (exportId url : string) (isMock : bool) :
  silent (updateProject env exportId url isMock).
Proof.
  apply silent_bind; [apply silent_reject|].
  intros _ w w' out H. inversion H. reflexivity.
Qed.

Lemma unfailing_ret {A : Type} (a : A) : unfailing (ret a).
Proof. intros w w' out H. inversion H. eauto. Qed.

Lemma unfailing_bind {A B : Type} (c : M A) (k : A -> M B) :
  unfailing c -> (forall a, unfailing (k a)) -> unfailing (bind c k).
Proof.
  intros Hc Hk w w' out H. apply bind_inv in H.
  destruct H as [(w1 & a & E1 & E2) | (m & E & _)].
  - now apply Hk in E2.
  - apply Hc in E. destruct E as [a E]. discriminate.
Qed.

Lemma unfailing_unlink (env : Env) (path : string) : unfailing (unlink env path).
Proof.
  intros w w' out H. unfold unlink in H.
  destruct (unlink_ok env path); inversion H; eauto.
Qed.

Lemma cleanup_quiet (env : Env) (workDir : string) (ds : list Downloaded)
    (ps : list string) (concatListPath outputPath : string) (sub : option string) :
  silent (cleanup env workDir ds ps concatListPath outputPath sub) /\
  unfailing (cleanup env workDir ds ps concatListPath outputPath sub).
Proof.
  assert (D : silent (unlinkDownloaded env ds) /\ unfailing (unlinkDownloaded env ds)).
  { induction ds as [|d ds [IH1 IH2]]; simpl.
    - split; [apply silent_ret | apply unfailing_ret].
    - split.
      + apply silent_bind; [apply silent_unlink|]. intros _.
        apply silent_bind; [|intros _; exact IH1].
        destruct (audioPath d); [apply silent_unlink | apply silent_ret].
      + apply unfailing_bind; [apply unfailing_unlink|]. intros _.
        apply unfailing_bind; [|intros _; exact IH2].
        destruct (audioPath d); [apply unfailing_unlink | apply unfailing_ret]. }
  assert (P : silent (unlinkAll env ps) /\ unfailing (unlinkAll env ps)).
  { induction ps as [|f ps [IH1 IH2]]; simpl.
    - split; [apply silent_ret | apply unfailing_ret].
    - split.
      + apply silent_bind; [apply silent_unlink | intros _; exact IH1].
      + apply unfailing_bind; [apply unfailing_unlink | intros _; exact IH2]. }
  destruct D as [D1 D2], P as [P1 P2]. unfold cleanup. split.
  - repeat (apply silent_bind; [first [exact D1 | exact P1 | apply silent_unlink]
                               | intros _]).
    destruct sub; [apply silent_unlink | apply silent_ret].
  - repeat (apply unfailing_bind; [first [exact D2 | exact P2 | apply unfailing_unlink]
                                  | intros _]).
    destruct sub; [apply unfailing_unlink | apply unfailing_ret].
Qed.

Lemma emit_run (e : Event) (w w' : World) (out : Outcome unit) :
  emit e w = (w', out) -> emitted w' = emitted w ++ [e] /\ out = Returned tt.
Proof. intros H. inversion H. auto. Qed.

Lemma statuses_app (a b : list Event) : statuses (a ++ b) = statuses a ++ statuses b.
Proof.
  induction a as [|e a IH]; simpl; [reflexivity|].
  destruct e; simpl; now rewrite ?IH.
Qed.

Lemma downloadLoop_events (env : Env) (workDir : string) (n : nat)
    (rest : list ExportClip) :
  forall (i : nat) (w w' : World) (out : Outcome (list Downloaded)),
    downloadLoop env workDir n i rest w = (w', out) ->
    exists evs k,
      emitted w' = emitted w ++ evs /\ forallb isProgress evs = true /\
      statuses evs = repeat "downloading" k /\
      match out with
      | Returned ds => k = List.length rest /\ List.length ds = List.length rest
      | Thrown _ => (k < List.length rest)%nat
      end.
Proof.
  induction rest as [|clip rest IH]; intros i w w' out H; simpl in H.
  - inversion H; subst. exists [], O. rewrite app_nil_r. auto.
  - apply bind_inv in H. destruct H as [(w1 & [] & E1 & H) | (m & E & ->)].
    2:{ apply silent_downloadFile in E. exists [], O. rewrite app_nil_r.
        simpl. repeat split; auto. lia. }
    apply silent_downloadFile in E1.
    apply bind_inv in H. destruct H as [(w2 & [] & E2 & H) | (m & E & ->)].
    2:{ assert (S : emitted w' = emitted w1).
        { destruct (audioUrl clip); [apply silent_downloadFile in E | apply silent_ret in E];
            exact E. }
        exists [], O. rewrite app_nil_r. simpl. repeat split; try congruence. lia. }
    assert (S2 : emitted w2 = emitted w1).
    { destruct (audioUrl clip); [apply silent_downloadFile in E2 | apply silent_ret in E2];
        exact E2. }
    apply bind_inv in H. destruct H as [(w3 & [] & E3 & H) | (m & E & ->)].
    2:{ apply emit_run in E. destruct E; discriminate. }
    apply emit_run in E3. destruct E3 as [E3 _].
    apply bind_inv in H. destruct H as [(w4 & ds & E4 & H) | (m & E & ->)].
    + inversion H; subst. apply IH in E4.
      destruct E4 as (evs & k & A1 & A2 & A3 & A4 & A5).
      eexists (_ :: evs), (S k). repeat split.
      * rewrite A1, E3, S2, E1. rewrite <- app_assoc. reflexivity.
      * simpl. exact A2.
      * simpl. now rewrite A3.
      * now rewrite A4.
      * simpl. now rewrite A5.
    + apply IH in E. destruct E as (evs & k & A1 & A2 & A3 & A4).
      eexists (_ :: evs), (S k). repeat split.
      * rewrite A1, E3, S2, E1. rewrite <- app_assoc. reflexivity.
      * simpl. exact A2.
      * simpl. now rewrite A3.
      * simpl. lia.
Qed.

Lemma processLoop_events (env : Env) (audioMix : double) (workDir : string) (n : nat)
    (rest : list Downloaded) :
  forall (i : nat) (w w' : World) (out : Outcome (list string)),
    processLoop env audioMix workDir n i rest w = (w', out) ->
    exists evs k,
      emitted w' = emitted w ++ evs /\ forallb isProgress evs = true /\
      statuses evs = repeat "processing" k /\
      match out with
      | Returned _ => k = List.length rest
      | Thrown _ => (k < List.length rest)%nat
      end.
Proof.
  induction rest as [|d rest IH]; intros i w w' out H; simpl in H.
  - inversion H; subst. exists [], O. rewrite app_nil_r. auto.
  - apply bind_inv in H. destruct H as [(w1 & [] & E1 & H) | (m & E & ->)].
    2:{ apply silent_runFFmpeg in E. exists [], O. rewrite app_nil_r.
        simpl. repeat split; auto. lia. }
    apply silent_runFFmpeg in E1.
    apply bind_inv in H. destruct H as [(w3 & [] & E3 & H) | (m & E & ->)].
    2:{ apply emit_run in E. destruct E; discriminate. }
    apply emit_run in E3. destruct E3 as [E3 _].
    apply bind_inv in H. destruct H as [(w4 & ds & E4 & H) | (m & E & ->)].
    + inversion H; subst. apply IH in E4.
      destruct E4 as (evs & k & A1 & A2 & A3 & A4).
      eexists (_ :: evs), (S k). repeat split.
      * rewrite A1, E3, E1. rewrite <- app_assoc. reflexivity.
      * simpl. exact A2.
      * simpl. now rewrite A3.
      * now rewrite A4.
    + apply IH in E. destruct E as (evs & k & A1 & A2 & A3 & A4).
      eexists (_ :: evs), (S k). repeat split.
      * rewrite A1, E3, E1. rewrite <- app_assoc. reflexivity.
      * simpl. exact A2.
      * simpl. now rewrite A3.
      * simpl. lia.
Qed.

Lemma repeat_cut (a : string) (k n : nat) :
  (k <= n)%nat -> repeat a n = repeat a k ++ repeat a (n - k).
Proof. intros H. rewrite <- repeat_app. f_equal. lia. Qed.

Lemma cut_short_app (p l L : list string) : cut_short l L -> cut_short (p ++ l) (p ++ L).
Proof.
  intros (rest & R1 & R2). exists rest. split; [exact R1|].
  rewrite <- app_assoc. now rewrite R2.
Qed.

Lemma cut_short_repeat (a : string) (k n : nat) (X : list string) :
  (k <= n)%nat -> X <> [] -> cut_short (repeat a k) (repeat a n ++ X).
Proof.
  intros H HX. exists (repeat a (n - k) ++ X). split.
  - destruct (repeat a (n - k)); simpl; [exact HX | discriminate].
  - rewrite app_assoc. now rewrite <- repeat_cut.
Qed.

(** What the [try] block emits. *)
Lemma exportTry_events (env : Env) (workDir exportId : string) (data : ExportData)
    (w w' : World) (out : Outcome Response) :
  exportTry env workDir exportId data w = (w', out) ->
  exists ps,
    forallb isProgress ps = true /\
    match out with
    | Returned resp =>
        exists url, resp = sendSuccess exportId url "completed" false /\
                    emitted w' = emitted w ++ ps ++ [export_completed exportId url] /\
                    statuses ps = successStatuses (List.length (clips data))
    | Thrown _ =>
        emitted w' = emitted w ++ ps /\
        cut_short (statuses ps) (successStatuses (List.length (clips data)))
    end.
Proof.
  intros H. unfold exportTry in H.
  set (n := List.length (clips data)) in *.
  assert (SS : successStatuses n =
               ["downloading"] ++ repeat "downloading" n ++ ["processing"]
               ++ repeat "processing" n
               ++ ["encoding"; "encoding"; "uploading"; "completed"]).
  { reflexivity. }
  rewrite SS.
  (* downloading *)
  apply bind_inv in H. destruct H as [(w1 & [] & E1 & H) | (m & E & ->)].
  2:{ apply emit_run in E. destruct E; discriminate. }
  apply emit_run in E1. destruct E1 as [E1 _].
  apply bind_inv in H. destruct H as [(w2 & ds & E2 & H) | (m & E & ->)].
  2:{ apply downloadLoop_events in E. destruct E as (evs & k & A1 & A2 & A3 & A4).
      exists ([export_progress 5 "downloading"] ++ evs). split; [exact A2|]. split.
      - rewrite A1, E1, <- app_assoc. reflexivity.
      - rewrite statuses_app, A3. apply cut_short_app.
        apply cut_short_repeat; [fold n in A4; lia | discriminate]. }
  apply downloadLoop_events in E2. destruct E2 as (evd & kd & D1 & D2 & D3 & D4 & D5).
  fold n in D4. subst kd.
  (* processing *)
  apply bind_inv in H. destruct H as [(w3 & [] & E3 & H) | (m & E & ->)].
  2:{ apply emit_run in E. destruct E; discriminate. }
  apply emit_run in E3. destruct E3 as [E3 _].
  apply bind_inv in H. destruct H as [(w4 & ps & E4 & H) | (m & E & ->)].
  2:{ apply processLoop_events in E. destruct E as (evs & k & A1 & A2 & A3 & A4).
      exists ([export_progress 5 "downloading"] ++ evd
              ++ [export_progress 25 "processing"] ++ evs).
      split; [simpl; rewrite forallb_app, D2; exact A2|]. split.
      - rewrite A1, E3, D1, E1, <- !app_assoc. reflexivity.
      - rewrite !statuses_app, D3, A3. rewrite D5 in A4.
        do 3 apply cut_short_app.
        apply cut_short_repeat; [fold n in A4; lia | discriminate]. }
  apply processLoop_events in E4. destruct E4 as (evp & kp & P1 & P2 & P3 & P4).
  rewrite D5 in P4. fold n in P4. subst kp.
  (* the events up to here *)
  set (done := [export_progress 5 "downloading"] ++ evd
               ++ [export_progress 25 "processing"] ++ evp) in *.
  assert (A : emitted w4 = emitted w ++ done).
  { rewrite P1, E3, D1, E1. unfold done. now rewrite <- !app_assoc. }
  assert (F : forallb isProgress done = true).
  { unfold done. simpl. now rewrite forallb_app, D2. }
  assert (S : statuses done =
              ["downloading"] ++ repeat "downloading" n ++ ["processing"]
              ++ repeat "processing" n).
  { unfold done. now rewrite !statuses_app, D3, P3. }
  clearbody done. clear E1 D1 E3 P1 D2 P2 D3 P3.
  (* encoding *)
  apply bind_inv in H. destruct H as [(w5 & [] & E5 & H) | (m & E & ->)].
  2:{ apply emit_run in E. destruct E; discriminate. }
  apply emit_run in E5. destruct E5 as [E5 _].
  assert (cut1 : forall wx, emitted wx = emitted w5 ->
            exists ps0, forallb isProgress ps0 = true /\
              emitted wx = emitted w ++ ps0 /\
              cut_short (statuses ps0)
                (["downloading"] ++ repeat "downloading" n ++ ["processing"]
                 ++ repeat "processing" n
                 ++ ["encoding"; "encoding"; "uploading"; "completed"])).
  { intros wx X. exists (done ++ [export_progress 70 "encoding"]).
    split; [now rewrite forallb_app, F|]. split.
    - rewrite X, E5, A, <- app_assoc. reflexivity.
    - rewrite statuses_app, S, <- !app_assoc. do 4 apply cut_short_app.
      exists ["encoding"; "uploading"; "completed"]. split; [discriminate | reflexivity]. }
  apply bind_inv in H. destruct H as [(w6 & subtitlePath & E6 & H) | (m & E & ->)].
  2:{ apply cut1. destruct (subtitleFileWanted data).
      - revert E. apply silent_bind; [apply silent_writeFile | intros; apply silent_ret].
      - revert E. apply silent_ret. }
  assert (S6 : emitted w6 = emitted w5).
  { destruct (subtitleFileWanted data).
    - revert E6. apply silent_bind; [apply silent_writeFile | intros; apply silent_ret].
    - revert E6. apply silent_ret. }
  apply bind_inv in H. destruct H as [(w7 & [] & E7 & H) | (m & E & ->)].
  2:{ apply cut1. apply silent_writeFile in E. congruence. }
  apply silent_writeFile in E7.
  apply bind_inv in H. destruct H as [(w8 & [] & E8 & H) | (m & E & ->)].
  2:{ apply cut1. apply silent_runFFmpeg in E. congruence. }
  apply silent_runFFmpeg in E8.
  apply bind_inv in H. destruct H as [(w9 & [] & E9 & H) | (m & E & ->)].
  2:{ apply emit_run in E. destruct E; discriminate. }
  apply emit_run in E9. destruct E9 as [E9 _].
  assert (cut2 : forall wx, emitted wx = emitted w9 ->
            exists ps0, forallb isProgress ps0 = true /\
              emitted wx = emitted w ++ ps0 /\
              cut_short (statuses ps0)
                (["downloading"] ++ repeat "downloading" n ++ ["processing"]
                 ++ repeat "processing" n
                 ++ ["encoding"; "encoding"; "uploading"; "completed"])).
  { intros wx X.
    exists (done ++ [export_progress 70 "encoding"; export_progress 85 "encoding"]).
    split; [now rewrite forallb_app, F|]. split.
    - rewrite X, E9, E8, E7, S6, E5, A, <- !app_assoc. reflexivity.
    - rewrite statuses_app, S, <- !app_assoc. do 4 apply cut_short_app.
      exists ["uploading"; "completed"]. split; [discriminate | reflexivity]. }
  clear cut1.
  apply bind_inv in H. destruct H as [(w10 & [] & E10 & H) | (m & E & ->)].
  2:{ apply cut2. destruct subtitlePath, (subtitleStyle data);
        now apply silent_runFFmpeg in E. }
  assert (S10 : emitted w10 = emitted w9).
  { destruct subtitlePath, (subtitleStyle data); now apply silent_runFFmpeg in E10. }
  (* uploading *)
  apply bind_inv in H. destruct H as [(w11 & [] & E11 & H) | (m & E & ->)].
  2:{ apply emit_run in E. destruct E; discriminate. }
  apply emit_run in E11. destruct E11 as [E11 _].
  assert (cut3 : forall wx, emitted wx = emitted w11 ->
            exists ps0, forallb isProgress ps0 = true /\
              emitted wx = emitted w ++ ps0 /\
              cut_short (statuses ps0)
                (["downloading"] ++ repeat "downloading" n ++ ["processing"]
                 ++ repeat "processing" n
                 ++ ["encoding"; "encoding"; "uploading"; "completed"])).
  { intros wx X.
    exists (done ++ [export_progress 70 "encoding"; export_progress 85 "encoding";
                     export_progress 92 "uploading"]).
    split; [now rewrite forallb_app, F|]. split.
    - rewrite X, E11, S10, E9, E8, E7, S6, E5, A, <- !app_assoc. reflexivity.
    - rewrite statuses_app, S, <- !app_assoc. do 4 apply cut_short_app.
      exists ["completed"]. split; [discriminate | reflexivity]. }
  clear cut2.
  apply bind_inv in H. destruct H as [(w12 & [] & E12 & H) | (m & E & ->)].
  2:{ apply cut3. now apply silent_reject in E. }
  apply silent_reject in E12.
  apply bind_inv in H. destruct H as [(w13 & signedUrl & E13 & H) | (m & E & ->)].
  2:{ apply cut3. destruct (getSignedUrl env);
        [apply silent_throw in E | apply silent_ret in E]; congruence. }
  assert (S13 : emitted w13 = emitted w12).
  { destruct (getSignedUrl env); [apply silent_throw in E13 | apply silent_ret in E13];
      exact E13. }
  apply bind_inv in H. destruct H as [(w14 & [] & E14 & H) | (m & E & ->)].
  2:{ apply cut3. apply silent_updateProject in E. congruence. }
  apply silent_updateProject in E14.
  (* completed *)
  apply bind_inv in H. destruct H as [(w15 & [] & E15 & H) | (m & E & ->)].
  2:{ apply emit_run in E. destruct E; discriminate. }
  apply emit_run in E15. destruct E15 as [E15 _].
  apply bind_inv in H. destruct H as [(w16 & [] & E16 & H) | (m & E & ->)].
  2:{ apply emit_run in E. destruct E; discriminate. }
  apply emit_run in E16. destruct E16 as [E16 _].
  apply bind_inv in H. destruct H as [(w17 & [] & E17 & H) | (m & E & ->)].
  2:{ apply (proj2 (cleanup_quiet _ _ _ _ _ _ _)) in E. destruct E; discriminate. }
  apply (proj1 (cleanup_quiet _ _ _ _ _ _ _)) in E17.
  inversion H; subst.
  exists (done ++ [export_progress 70 "encoding"; export_progress 85 "encoding";
                   export_progress 92 "uploading"; export_progress 100 "completed"]).
  split; [now rewrite forallb_app, F|].
  exists signedUrl. split; [reflexivity|]. split.
  - rewrite E17, E16, E15, E14, S13, E12, E11, S10, E9, E8, E7, S6, E5, A,
      <- !app_assoc. reflexivity.
  - rewrite statuses_app, S, <- !app_assoc. reflexivity.
Qed.

Lemma stages_repeat (a b : string) (n : nat) (l : list string) :
  String.eqb a b = false ->
  stages (repeat a (S n) ++ b :: l) = a :: stages (b :: l).
Proof.
  intros N. induction n as [|n IH].
  - simpl. now rewrite N.
  - change (repeat a (S (S n)) ++ b :: l) with (a :: (repeat a (S n) ++ b :: l)).
    change (stages (a :: repeat a (S n) ++ b :: l))
      with (if String.eqb a a then stages (repeat a (S n) ++ b :: l)
            else a :: stages (repeat a (S n) ++ b :: l)).
    now rewrite String.eqb_refl.
Qed.

Lemma stages_successStatuses (n : nat) : stages (successStatuses n) = code_stage_order.
Proof.
  unfold successStatuses.
  change (repeat "processing" (S n) ++ ["encoding"; "encoding"; "uploading"; "completed"])
    with ("processing" :: (repeat "processing" n
                           ++ ["encoding"; "encoding"; "uploading"; "completed"])).
  rewrite stages_repeat by reflexivity.
  change ("processing" :: (repeat "processing" n
                           ++ ["encoding"; "encoding"; "uploading"; "completed"]))
    with (repeat "processing" (S n)
          ++ "encoding" :: ["encoding"; "uploading"; "completed"]).
  rewrite stages_repeat by reflexivity. reflexivity.
Qed.

(** C7 as stated fails: a successful export with subtitles enabled, styled
    and burned in goes through the labels downloading, processing,
    encoding, uploading, completed, and so does one without subtitles; no
    label [concatenating] and no label for the subtitle burn is ever
    emitted. *)
Lemma stage_labels_differ_from_spec :
  let r := exportHandler allGood "/tmp/viralshorts-export-e1" "e1" withSubtitles
             emptyWorld in
  let r' := exportHandler allGood "/tmp/viralshorts-export-e1" "e1" twoClips
              emptyWorld in
  (snd r = Returned (sendSuccess "e1" "https://storage/signed" "completed" false) /\
   stages (statuses (emitted (fst r))) =
     ["downloading"; "processing"; "encoding"; "uploading"; "completed"] /\
   stages (statuses (emitted (fst r))) <> spec_stage_order true) /\
  (snd r' = Returned (sendSuccess "e1" "https://storage/signed" "completed" false) /\
   stages (statuses (emitted (fst r'))) =
     ["downloading"; "processing"; "encoding"; "uploading"; "completed"] /\
   stages (statuses (emitted (fst r'))) <> spec_stage_order false).
Proof. vm_compute. repeat split; discriminate. Qed.

(** C7, amended.  With FFmpeg available the handler always answers.  On
    success it has emitted, in this order, progress events labelled
    downloading (once, then once per clip), processing (once, then once per
    clip), encoding (before the concatenation), encoding (before the
    subtitle burn or the plain copy), uploading and completed, and then
    [export:completed]: the stages are downloading, processing, encoding,
    uploading, completed, whether or not subtitles are enabled.  On failure
    it has emitted a sequence of progress events cut short before
    completed, and then [export:failed]. *)
Theorem export_stage_order (env : Env) (workDir exportId : string) (data : ExportData)
    (w0 w : World) (out : Outcome Response) :
  FFMPEG_AVAILABLE env = true ->
  exportHandler env workDir exportId data w0 = (w, out) ->
  exists resp ps,
    out = Returned resp /\ forallb isProgress ps = true /\
    match resp with
    | sendSuccess _ url _ isMock =>
        isMock = false /\
        emitted w = emitted w0 ++ ps ++ [export_completed exportId url] /\
        statuses ps = successStatuses (List.length (clips data)) /\
        stages (statuses ps) = code_stage_order
    | sendError _ _ =>
        exists m, emitted w = emitted w0 ++ ps ++ [export_failed m] /\
                  cut_short (statuses ps) (successStatuses (List.length (clips data)))
    end.
Proof.
  intros HF H. unfold exportHandler in H. rewrite HF in H.
  rewrite andb_false_r in H. simpl in H. unfold tryCatch in H.
  destruct (exportTry env workDir exportId data w0) as [w1 [resp|m]] eqn:T;
    apply exportTry_events in T; destruct T as (ps & F & T).
  - destruct T as (url & -> & E & S). inversion H; subst.
    exists (sendSuccess exportId url "completed" false), ps.
    repeat split; auto. rewrite S. apply stages_successStatuses.
  - destruct T as [E C]. unfold exportCatch in H.
    apply bind_inv in H. destruct H as [(w2 & [] & E2 & H) | (m' & E' & ->)].
    2:{ apply emit_run in E'. destruct E'; discriminate. }
    apply emit_run in E2. destruct E2 as [E2 _]. inversion H; subst.
    exists (sendError "Failed to export video. Please try again." 500), ps.
    repeat split; auto. exists m. split; [|exact C].
    rewrite E2, E, <- app_assoc. reflexivity.
Qed.

Lemma export_stage_order_witness :
  let r := exportHandler allGood "/tmp/viralshorts-export-e1" "e1" twoClips emptyWorld in
  exists resp ps,
    snd r = Returned resp /\ forallb isProgress ps = true /\
    match resp with
    | sendSuccess _ url _ isMock =>
        isMock = false /\
        emitted (fst r) = emitted emptyWorld ++ ps ++ [export_completed "e1" url] /\
        statuses ps = successStatuses (List.length (clips twoClips)) /\
        stages (statuses ps) = code_stage_order
    | sendError _ _ =>
        exists m, emitted (fst r) = emitted emptyWorld ++ ps ++ [export_failed m] /\
                  cut_short (statuses ps) (successStatuses (List.length (clips twoClips)))
    end.
Proof.
  apply (export_stage_order allGood "/tmp/viralshorts-export-e1" "e1" twoClips
           emptyWorld).
  - reflexivity.
  - vm_compute. reflexivity.
Defined.

(** The failed state is reached from every stage: a missing voiceover
    fails the run while downloading, a broken transcoder while processing,
    a broken concatenation while encoding, a rejected upload while
    uploading.  Each time the last event is [export:failed]. *)
Lemma failure_reachable_from_every_stage :
  let run env := emitted (fst (exportHandler env "/tmp/viralshorts-export-e1" "e1"
                                 twoClips emptyWorld)) in
  (last (statuses (run narrationBMissing)) "" = "downloading" /\
   last (run narrationBMissing) (export_failed "") =
     export_failed "Failed to download: Not Found") /\
  (last (statuses (run ffmpegBroken)) "" = "processing" /\
   last (run ffmpegBroken) (export_failed "") =
     export_failed "FFmpeg exited with code 1") /\
  (last (statuses (run concatBroken)) "" = "encoding" /\
   last (run concatBroken) (export_failed "") =
     export_failed "FFmpeg exited with code 1") /\
  (last (statuses (run uploadBroken)) "" = "uploading" /\
   last (run uploadBroken) (export_failed "") = export_failed "upload failed").
Proof. vm_compute. repeat split. Qed.

(** *** What a run leaves in the scratch directory *)

Lemma keeps_ret {A : Type} (a : A) : keeps_files (ret a).
Proof. intros w w' out H. inversion H. now exists []. Qed.

Lemma keeps_throw {A : Type} (m : string) : keeps_files (@throw A m).
Proof. intros w w' out H. inversion H. now exists []. Qed.

Lemma keeps_bind {A B : Type} (c : M A) (k : A -> M B) :
  keeps_files c -> (forall a, keeps_files (k a)) -> keeps_files (bind c k).
Proof.
  intros Hc Hk w w' out H. apply bind_inv in H.
  destruct H as [(w1 & a & E1 & E2) | (m & E & _)].
  - apply Hc in E1. apply Hk in E2. destruct E1 as [c1 E1], E2 as [c2 E2].
    exists (c2 ++ c1). now rewrite E2, E1, app_assoc.
  - now apply Hc in E.
Qed.

Lemma keeps_on_throw_bind {A B : Type} (c : M A) (k : A -> M B) :
  keeps_files c -> (forall a, keeps_files_on_throw (k a)) ->
  keeps_files_on_throw (bind c k).
Proof.
  intros Hc Hk w w' m H. apply bind_inv in H.
  destruct H as [(w1 & a & E1 & E2) | (m' & E & _)].
  - apply Hc in E1. apply Hk in E2. destruct E1 as [c1 E1], E2 as [c2 E2].
    exists (c2 ++ c1). now rewrite E2, E1, app_assoc.
  - now apply Hc in E.
Qed.

Lemma unfailing_keeps_on_throw {A : Type} (c : M A) :
  unfailing c -> keeps_files_on_throw c.
Proof. intros U w w' m H. apply U in H. destruct H; discriminate. Qed.

Lemma keeps_emit (e : Event) : keeps_files (emit e).
Proof. intros w w' out H. inversion H. now exists []. Qed.

Lemma keeps_reject (r : Rejection) : keeps_files (reject_or_unit r).
Proof. destruct r; [apply keeps_throw | apply keeps_ret]. Qed.

Lemma keeps_writeFile (env : Env) (path : string) : keeps_files (writeFile env path).
Proof.
  apply keeps_bind; [apply keeps_reject|].
  intros _ w w' out H. inversion H. now exists [path].
Qed.

Lemma keeps_downloadFile (env : Env) (url dest : string) :
  keeps_files (downloadFile env url dest).
Proof.
  unfold downloadFile. destruct (fetch_ok env url);
    [apply keeps_writeFile | apply keeps_throw].
Qed.

Lemma keeps_runFFmpeg (env : Env) (args : list Arg) : keeps_files (runFFmpeg env args).
Proof.
  intros w w' out H. unfold runFFmpeg in H.
  destruct (Z.eqb _ _); inversion H; simpl; [eauto | now exists []].
Qed.

Lemma keeps_updateProject (env : Env) (exportId url : string) (isMock : bool) :
  keeps_files (updateProject env exportId url isMock).
Proof.
  apply keeps_bind; [apply keeps_reject|].
  intros _ w w' out H. inversion H. now exists [].
Qed.

Lemma keeps_downloadLoop (env : Env) (workDir : string) (n : nat)
    (rest : list ExportClip) (i : nat) :
  keeps_files (downloadLoop env workDir n i rest).
Proof.
  revert i. induction rest as [|clip rest IH]; intros i; simpl.
  - apply keeps_ret.
  - apply keeps_bind; [apply keeps_downloadFile | intros _].
    apply keeps_bind;
      [destruct (audioUrl clip); [apply keeps_downloadFile | apply keeps_ret] | intros _].
    apply keeps_bind; [apply keeps_emit | intros _].
    apply keeps_bind; [apply IH | intros; apply keeps_ret].
Qed.

Lemma keeps_processLoop (env : Env) (audioMix : double) (workDir : string) (n : nat)
    (rest : list Downloaded) (i : nat) :
  keeps_files (processLoop env audioMix workDir n i rest).
Proof.
  revert i. induction rest as [|d rest IH]; intros i; simpl.
  - apply keeps_ret.
  - apply keeps_bind; [apply keeps_runFFmpeg | intros _].
    apply keeps_bind; [apply keeps_emit | intros _].
    apply keeps_bind; [apply IH | intros; apply keeps_ret].
Qed.

(** A failing [try] block has unlinked nothing. *)
Lemma exportTry_throw_keeps_files (env : Env) (workDir exportId : string)
    (data : ExportData) :
  keeps_files_on_throw (exportTry env workDir exportId data).
Proof.
  unfold exportTry.
  apply keeps_on_throw_bind; [apply keeps_emit | intros _].
  apply keeps_on_throw_bind; [apply keeps_downloadLoop | intros ds].
  apply keeps_on_throw_bind; [apply keeps_emit | intros _].
  apply keeps_on_throw_bind; [apply keeps_processLoop | intros ps].
  apply keeps_on_throw_bind; [apply keeps_emit | intros _].
  apply keeps_on_throw_bind.
  { destruct (subtitleFileWanted data); [|apply keeps_ret].
    apply keeps_bind; [apply keeps_writeFile | intros; apply keeps_ret]. }
  intros subtitlePath.
  apply keeps_on_throw_bind; [apply keeps_writeFile | intros _].
  apply keeps_on_throw_bind; [apply keeps_runFFmpeg | intros _].
  apply keeps_on_throw_bind; [apply keeps_emit | intros _].
  apply keeps_on_throw_bind.
  { destruct subtitlePath, (subtitleStyle data); apply keeps_runFFmpeg. }
  intros _.
  apply keeps_on_throw_bind; [apply keeps_emit | intros _].
  apply keeps_on_throw_bind; [apply keeps_reject | intros _].
  apply keeps_on_throw_bind.
  { destruct (getSignedUrl env); [apply keeps_throw | apply keeps_ret]. }
  intros signedUrl.
  apply keeps_on_throw_bind; [apply keeps_updateProject | intros _].
  apply keeps_on_throw_bind; [apply keeps_emit | intros _].
  apply keeps_on_throw_bind; [apply keeps_emit | intros _].
  apply unfailing_keeps_on_throw.
  apply unfailing_bind; [apply cleanup_quiet | intros; apply unfailing_ret].
Qed.

(** X15.  Whenever the handler answers with an error after the [try] block
    failed, every file that was in the scratch directory is still there. *)
Lemma failed_export_unlinks_nothing (env : Env) (workDir exportId : string)
    (data : ExportData) (w0 w : World) (message : string) (code : Z) :
  FFMPEG_AVAILABLE env = true ->
  exportHandler env workDir exportId data w0 = (w, Returned (sendError message code)) ->
  exists created, files w = created ++ files w0.
Proof.
  intros HF H. unfold exportHandler in H. rewrite HF in H.
  rewrite andb_false_r in H. simpl in H. unfold tryCatch in H.
  destruct (exportTry env workDir exportId data w0) as [w1 [resp|m]] eqn:T.
  - apply exportTry_events in T. destruct T as (ps & _ & url & -> & _).
    inversion H.
  - apply exportTry_throw_keeps_files in T. destruct T as [created T].
    unfold exportCatch in H. apply bind_inv in H.
    destruct H as [(w2 & [] & E2 & H) | (m' & E' & ?)]; [|discriminate].
    inversion E2; subst. inversion H; subst. simpl. now exists created.
Qed.

Lemma within_ret {A : Type} (a : A) (S : A -> list string) : creates_within (ret a) S.
Proof. intros w w' b H f I. inversion H; subst. auto. Qed.

Lemma within_emit (e : Event) : creates_within (emit e) (fun _ => []).
Proof. intros w w' b H f I. inversion H; subst. auto. Qed.

Lemma within_reject (r : Rejection) : creates_within (reject_or_unit r) (fun _ => []).
Proof. intros w w' b H f I. destruct r; inversion H; subst. auto. Qed.

Lemma within_writeFile (env : Env) (path : string) :
  creates_within (writeFile env path) (fun _ => [path]).
Proof.
  intros w w' b H f I. unfold writeFile in H. apply bind_inv in H.
  destruct H as [(w1 & [] & E1 & E2) | (m & _ & ?)]; [|discriminate].
  destruct (writeFile_rejects env path); inversion E1; subst.
  inversion E2; subst. simpl in I. destruct I as [<-|I]; [left; now left | now right].
Qed.

Lemma within_downloadFile (env : Env) (url dest : string) :
  creates_within (downloadFile env url dest) (fun _ => [dest]).
Proof.
  unfold downloadFile. destruct (fetch_ok env url); [apply within_writeFile|].
  intros w w' b H. inversion H.
Qed.

Lemma within_runFFmpeg (env : Env) (args : list Arg) :
  creates_within (runFFmpeg env args) (fun _ => outputOf args).
Proof.
  intros w w' b H f I. unfold runFFmpeg in H.
  destruct (Z.eqb _ _); inversion H; subst. simpl in I.
  apply in_app_or in I. exact I.
Qed.

Lemma within_updateProject (env : Env) (exportId url : string) (isMock : bool) :
  creates_within (updateProject env exportId url isMock) (fun _ => []).
Proof.
  intros w w' b H f I. unfold updateProject in H. apply bind_inv in H.
  destruct H as [(w1 & [] & E1 & E2) | (m & _ & ?)]; [|discriminate].
  destruct (db_update_rejects env); inversion E1; subst.
  inversion E2; subst. now right.
Qed.

Lemma outputOf_processArgs (audioMix : double) (videoPath : string) (audioPath : option string)
    (clip : ExportClip) (processedPath : string) :
  outputOf (processArgs audioMix videoPath audioPath clip processedPath) = [processedPath].
Proof. destruct audioPath; reflexivity. Qed.

Lemma within_downloadLoop (env : Env) (workDir : string) (n : nat)
    (rest : list ExportClip) (i : nat) :
  creates_within (downloadLoop env workDir n i rest) downloadedPaths.
Proof.
  revert i. induction rest as [|clip rest IH]; intros i w w' ds H f I; simpl in H.
  - inversion H; subst. now right.
  - apply bind_inv in H. destruct H as [(w1 & [] & E1 & H) | (m & _ & ?)]; [|discriminate].
    apply bind_inv in H. destruct H as [(w2 & [] & E2 & H) | (m & _ & ?)]; [|discriminate].
    apply bind_inv in H. destruct H as [(w3 & [] & E3 & H) | (m & _ & ?)]; [|discriminate].
    apply bind_inv in H. destruct H as [(w4 & ds' & E4 & H) | (m & _ & ?)]; [|discriminate].
    inversion H; subst. clear H.
    destruct (IH _ _ _ _ E4 f I) as [J|J].
    { left. simpl. right. apply in_or_app. now right. }
    apply (within_emit _ _ _ _ E3) in J. destruct J as [[]|J].
    assert (K : In f (match audioUrl clip with
                      | Some _ => [join workDir ("voiceover_" ++ string_of_nat i ++ ".mp3")]
                      | None => []
                      end) \/ In f (files w1)).
    { destruct (audioUrl clip).
      - apply (within_downloadFile _ _ _ _ _ _ E2 f J).
      - inversion E2; subst. now right. }
    destruct K as [K|K].
    { left. simpl. right. apply in_or_app. left. now destruct (audioUrl clip). }
    apply (within_downloadFile _ _ _ _ _ _ E1) in K. destruct K as [K|K]; [|now right].
    left. simpl. destruct K as [<-|[]]. now left.
Qed.

Lemma within_processLoop (env : Env) (audioMix : double) (workDir : string) (n : nat)
    (rest : list Downloaded) (i : nat) :
  creates_within (processLoop env audioMix workDir n i rest) (fun ps => ps).
Proof.
  revert i. induction rest as [|d rest IH]; intros i w w' ps H f I; simpl in H.
  - inversion H; subst. now right.
  - apply bind_inv in H. destruct H as [(w1 & [] & E1 & H) | (m & _ & ?)]; [|discriminate].
    apply bind_inv in H. destruct H as [(w3 & [] & E3 & H) | (m & _ & ?)]; [|discriminate].
    apply bind_inv in H. destruct H as [(w4 & ps' & E4 & H) | (m & _ & ?)]; [|discriminate].
    inversion H; subst. clear H.
    destruct (IH _ _ _ _ E4 f I) as [J|J]; [left; now right|].
    apply (within_emit _ _ _ _ E3) in J. destruct J as [[]|J].
    apply (within_runFFmpeg _ _ _ _ _ E1) in J.
    rewrite outputOf_processArgs in J. destruct J as [[<-|[]]|J]; [left; now left | now right].
Qed.

Lemma removes_ret {A : Type} (a : A) : removes (ret a) [].
Proof. intros w w' b H f I. inversion H; subst. auto. Qed.

Lemma removes_bind {A B : Type} (c : M A) (k : A -> M B) (S1 S2 : list string) :
  removes c S1 -> (forall a, removes (k a) S2) -> removes (bind c k) (S1 ++ S2).
Proof.
  intros Hc Hk w w' b H f I. apply bind_inv in H.
  destruct H as [(w1 & a & E1 & E2) | (m & _ & ?)]; [|discriminate].
  destruct (Hk _ _ _ _ E2 f I) as [J N2].
  destruct (Hc _ _ _ E1 f J) as [K N1].
  split; [exact K|]. intros X. apply in_app_or in X. tauto.
Qed.

Section ReliableUnlink.
Variable env : Env.
Hypothesis unlink_reliable : forall path, unlink_ok env path = true.

Lemma removes_unlink (path : string) : removes (unlink env path) [path].
Proof.
  intros w w' b H f I. unfold unlink in H. rewrite unlink_reliable in H.
  inversion H; subst. simpl in I. apply filter_In in I. destruct I as [I N].
  split; [exact I|]. intros [<-|[]]. now rewrite String.eqb_refl in N.
Qed.

Lemma removes_unlinkDownloaded (ds : list Downloaded) :
  removes (unlinkDownloaded env ds) (downloadedPaths ds).
Proof.
  induction ds as [|d ds IH]; simpl; [apply removes_ret|].
  change (videoPath d :: match audioPath d with Some path => [path] | None => [] end
          ++ downloadedPaths ds)
    with ([videoPath d] ++ match audioPath d with Some path => [path] | None => [] end
          ++ downloadedPaths ds).
  apply removes_bind; [apply removes_unlink | intros _].
  apply removes_bind; [|intros _; exact IH].
  destruct (audioPath d); [apply removes_unlink | apply removes_ret].
Qed.

Lemma removes_unlinkAll (paths : list string) : removes (unlinkAll env paths) paths.
Proof.
  induction paths as [|p ps IH]; simpl; [apply removes_ret|].
  change (p :: ps) with ([p] ++ ps).
  apply removes_bind; [apply removes_unlink | intros _; exact IH].
Qed.

Lemma removes_cleanup (workDir : string) (ds : list Downloaded) (ps : list string)
    (concatListPath outputPath : string) (sub : option string) :
  removes (cleanup env workDir ds ps concatListPath outputPath sub)
    (downloadedPaths ds ++ ps ++ [concatListPath] ++ [join workDir "concat_output.mp4"]
     ++ [outputPath] ++ match sub with Some path => [path] | None => [] end).
Proof.
  unfold cleanup.
  apply removes_bind; [apply removes_unlinkDownloaded | intros _].
  apply removes_bind; [apply removes_unlinkAll | intros _].
  apply removes_bind; [apply removes_unlink | intros _].
  apply removes_bind; [apply removes_unlink | intros _].
  apply removes_bind; [apply removes_unlink | intros _].
  destruct sub; [apply removes_unlink | apply removes_ret].
Qed.

(** When every [unlink] succeeds, a [try] block that returns has removed
    every file it created: what is left was there before the run. *)
Lemma exportTry_cleans (workDir exportId : string) (data : ExportData)
    (w w' : World) (resp : Response) :
  exportTry env workDir exportId data w = (w', Returned resp) ->
  forall f, In f (files w') -> In f (files w).
Proof.
  intros H f I. unfold exportTry in H.
  apply bind_inv in H. destruct H as [(w1 & [] & E1 & H) | (m & _ & ?)]; [|discriminate].
  apply bind_inv in H. destruct H as [(w2 & ds & E2 & H) | (m & _ & ?)]; [|discriminate].
  apply bind_inv in H. destruct H as [(w3 & [] & E3 & H) | (m & _ & ?)]; [|discriminate].
  apply bind_inv in H. destruct H as [(w4 & ps & E4 & H) | (m & _ & ?)]; [|discriminate].
  apply bind_inv in H. destruct H as [(w5 & [] & E5 & H) | (m & _ & ?)]; [|discriminate].
  apply bind_inv in H. destruct H as [(w6 & sub & E6 & H) | (m & _ & ?)]; [|discriminate].
  apply bind_inv in H. destruct H as [(w7 & [] & E7 & H) | (m & _ & ?)]; [|discriminate].
  apply bind_inv in H. destruct H as [(w8 & [] & E8 & H) | (m & _ & ?)]; [|discriminate].
  apply bind_inv in H. destruct H as [(w9 & [] & E9 & H) | (m & _ & ?)]; [|discriminate].
  apply bind_inv in H. destruct H as [(w10 & [] & E10 & H) | (m & _ & ?)]; [|discriminate].
  apply bind_inv in H. destruct H as [(w11 & [] & E11 & H) | (m & _ & ?)]; [|discriminate].
  apply bind_inv in H. destruct H as [(w12 & [] & E12 & H) | (m & _ & ?)]; [|discriminate].
  apply bind_inv in H. destruct H as [(w13 & url & E13 & H) | (m & _ & ?)]; [|discriminate].
  apply bind_inv in H. destruct H as [(w14 & [] & E14 & H) | (m & _ & ?)]; [|discriminate].
  apply bind_inv in H. destruct H as [(w15 & [] & E15 & H) | (m & _ & ?)]; [|discriminate].
  apply bind_inv in H. destruct H as [(w16 & [] & E16 & H) | (m & _ & ?)]; [|discriminate].
  apply bind_inv in H. destruct H as [(w17 & [] & E17 & H) | (m & _ & ?)]; [|discriminate].
  inversion H; subst. clear H.
  destruct (removes_cleanup _ _ _ _ _ _ _ _ _ E17 f I) as [J N].
  apply (within_emit _ _ _ _ E16) in J. destruct J as [[]|J].
  apply (within_emit _ _ _ _ E15) in J. destruct J as [[]|J].
  apply (within_updateProject _ _ _ _ _ _ _ E14) in J. destruct J as [[]|J].
  assert (J13 : In f (files w12)).
  { destruct (getSignedUrl env); inversion E13; subst; exact J. }
  apply (within_reject _ _ _ _ E12) in J13. destruct J13 as [[]|J11].
  apply (within_emit _ _ _ _ E11) in J11. destruct J11 as [[]|J10].
  assert (J9 : In f [join workDir "output.mp4"] \/ In f (files w9)).
  { destruct sub, (subtitleStyle data);
      apply (within_runFFmpeg _ _ _ _ _ E10) in J10; exact J10. }
  destruct J9 as [J9|J9].
  { exfalso. apply N. do 4 (apply in_or_app; right). apply in_or_app. now left. }
  apply (within_emit _ _ _ _ E9) in J9. destruct J9 as [[]|J8].
  apply (within_runFFmpeg _ _ _ _ _ E8) in J8. destruct J8 as [J8|J7].
  { exfalso. apply N. do 3 (apply in_or_app; right). apply in_or_app. now left. }
  apply (within_writeFile _ _ _ _ _ E7) in J7. destruct J7 as [J7|J6].
  { exfalso. apply N. do 2 (apply in_or_app; right). apply in_or_app. now left. }
  assert (J5 : In f (match sub with Some path => [path] | None => [] end)
               \/ In f (files w5)).
  { destruct (subtitleFileWanted data).
    - apply bind_inv in E6.
      destruct E6 as [(wa & [] & Ea & Eb) | (m & _ & ?)]; [|discriminate].
      inversion Eb; subst. apply (within_writeFile _ _ _ _ _ Ea f J6).
    - inversion E6; subst. now right. }
  destruct J5 as [J5|J5].
  { exfalso. apply N. do 5 (apply in_or_app; right). exact J5. }
  apply (within_emit _ _ _ _ E5) in J5. destruct J5 as [[]|J4].
  apply (within_processLoop _ _ _ _ _ _ _ _ _ E4) in J4. destruct J4 as [J4|J3].
  { exfalso. apply N. apply in_or_app. right. apply in_or_app. now left. }
  apply (within_emit _ _ _ _ E3) in J3. destruct J3 as [[]|J2].
  apply (within_downloadLoop _ _ _ _ _ _ _ _ E2) in J2. destruct J2 as [J2|J1].
  { exfalso. apply N. apply in_or_app. now left. }
  apply (within_emit _ _ _ _ E1) in J1. destruct J1 as [[]|J0]. exact J0.
Qed.

End ReliableUnlink.

(** X14.  A successful export whose unlinks all succeed leaves an empty scratch
    directory empty. *)
Lemma successful_export_cleans_up (env : Env) (workDir exportId : string)
    (data : ExportData) (w0 w : World) (url status : string) (isMock : bool) :
  FFMPEG_AVAILABLE env = true ->
  (forall path, unlink_ok env path = true) ->
  files w0 = [] ->
  exportHandler env workDir exportId data w0
    = (w, Returned (sendSuccess exportId url status isMock)) ->
  files w = [].
Proof.
  intros HF HU H0 H. unfold exportHandler in H. rewrite HF in H.
  rewrite andb_false_r in H. simpl in H. unfold tryCatch in H.
  destruct (exportTry env workDir exportId data w0) as [w1 [resp|m]] eqn:T.
  - inversion H; subst.
    destruct (files w) as [|f fs] eqn:F; [reflexivity|].
    assert (I : In f (files w)) by (rewrite F; now left).
    apply (exportTry_cleans env HU _ _ _ _ _ _ T) in I. rewrite H0 in I. destruct I.
  - unfold exportCatch in H. apply bind_inv in H.
    destruct H as [(w2 & [] & E2 & H) | (m' & _ & ?)]; [|discriminate].
    inversion H.
Qed.

End ExportFacts.


(** ** Further properties of the timeline editor *)

Module EditorMoreFacts.
Import Editor EditorFacts EditorVocabulary.

(** *** The history *)

Lemma pop_inv {A : Type} (l r : list A) (x : A) : pop l = Some (x, r) -> l = r ++ [x].
Proof.
  unfold pop. intros H. destruct (rev l) as [|y t] eqn:E; [discriminate|].
  inversion H; subst. rewrite <- (rev_involutive l), E. reflexivity.
Qed.

Lemma pushedHistory_depth (s : EditorState) :
  (List.length (past (history s)) <= 50)%nat ->
  List.length (past (pushedHistory s)) = Nat.min (S (List.length (past (history s)))) 50
  /\ future (pushedHistory s) = [].
Proof.
  intros H. unfold pushedHistory. cbn [past future]. split; [|reflexivity].
  rewrite length_app. cbn [List.length]. rewrite Nat.add_1_r.
  destruct (Nat.ltb 50 (S (List.length (past (history s))))) eqn:E.
  - apply Nat.ltb_lt in E.
    destruct (past (history s)) as [|p ps]; cbn [List.length] in *; [lia|].
    cbn [app tl]. rewrite length_app. cbn [List.length]. lia.
  - apply Nat.ltb_ge in E. rewrite length_app. cbn [List.length]. lia.
Qed.

Lemma history_cases (uuid : string) (s : EditorState) (a : EditorAction) :
  let h := history (editorReducer uuid s a) in
  h = history s \/ h = pushedHistory s \/ h = mkHistory [] [] \/
  (exists x rest, pop (past (history s)) = Some (x, rest) /\
                  h = mkHistory rest (snapshot s :: future (history s))) \/
  (exists x rest, future (history s) = x :: rest /\
                  h = mkHistory (past (history s) ++ [snapshot s]) rest).
Proof.
  destruct (historyTracked s a) eqn:T.
  { right. left. now apply tracked_history. }
  destruct a; cbn in T; try discriminate; cbn.
  all: try (left; reflexivity).
  - left. destruct (findClip _ _); reflexivity.
  - left. destruct (clipboard s); [discriminate | reflexivity].
  - left. destruct (findTrack _ _) as [[? ?]|]; reflexivity.
  - left. destruct (findTrack _ _) as [[? ?]|]; reflexivity.
  - left. destruct (findTrack _ _) as [[? ?]|]; reflexivity.
  - left. destruct (findTrack _ _) as [[? ?]|]; reflexivity.
  - right. right. left. reflexivity.
  - destruct (pop _) as [[x rest]|] eqn:P; [|left; reflexivity].
    right. right. right. left. exists x, rest. auto.
  - destruct (future _) as [|x rest] eqn:P; [left; reflexivity|].
    right. right. right. right. exists x, rest. auto.
  - right. right. left. reflexivity.
Qed.

Lemma reducer_keeps_history_depth (uuid : string) (s : EditorState) (a : EditorAction) :
  (historyDepth s <= 50)%nat -> (historyDepth (editorReducer uuid s a) <= 50)%nat.
Proof.
  intros H. unfold historyDepth in *.
  destruct (history_cases uuid s a) as [E|[E|[E|[(x & rest & P & E)|(x & rest & P & E)]]]];
    cbv zeta in E; rewrite E.
  - exact H.
  - destruct (pushedHistory_depth s) as [L F]; [lia|]. rewrite L, F. cbn. lia.
  - cbn. lia.
  - apply pop_inv in P. rewrite P in H. rewrite length_app in H. cbn in *. lia.
  - rewrite P in H. cbn [past future]. rewrite length_app. cbn in *. lia.
Qed.

(** X1. In every state reachable from [initialState] the undo and redo stacks
    hold at most 50 snapshots together: [saveToHistory] drops the oldest
    entry beyond 50 and clears the redo stack, and UNDO and REDO only move
    a snapshot from one stack to the other. *)
Theorem history_depth_bounded (s : EditorState) :
  reachable s ->
  (List.length (past (history s)) + List.length (future (history s)) <= 50)%nat.
Proof.
  intros R. change (historyDepth s <= 50)%nat. induction R.
  - cbn. lia.
  - now apply reducer_keeps_history_depth.
Qed.

Lemma history_depth_bounded_witness :
  (List.length (past (history twoClipState))
   + List.length (future (history twoClipState)) <= 50)%nat.
Proof.
  apply (history_depth_bounded twoClipState).
  unfold twoClipState, oneClipState. apply reach_step, reach_step, reach_init.
Defined.

(** X2. After [n] edits of the always-tracked kinds the undo stack holds
    [min(before + n, 50)] snapshots, and after at least one such edit the
    redo stack is empty: each edit pushes exactly one snapshot, whether or
    not it changed anything, and the stack is cut at 50. *)
Theorem history_depth_after_edits (s : EditorState) (acts : list (string * EditorAction)) :
  (List.length (past (history s)) <= 50)%nat ->
  forallb (fun ua => alwaysTracked (snd ua)) acts = true ->
  List.length (past (history (run s acts)))
  = (if Nat.eqb (List.length acts) 0 then List.length (past (history s))
     else Nat.min (List.length (past (history s)) + List.length acts) 50)
  /\ (acts <> [] -> future (history (run s acts)) = []).
Proof.
  revert s. induction acts as [|[u a] acts IH]; intros s H T.
  - cbn. split; [reflexivity | congruence].
  - cbn [forallb snd] in T. apply andb_true_iff in T. destruct T as [T1 T2].
    assert (HT : historyTracked s a = true) by (destruct a; try discriminate; reflexivity).
    pose proof (tracked_history u s a HT) as E.
    destruct (pushedHistory_depth s H) as [L F].
    cbn [run fold_left fst snd]. fold (run (editorReducer u s a) acts).
    assert (H1 : (List.length (past (history (editorReducer u s a))) <= 50)%nat)
      by (rewrite E, L; lia).
    destruct (IH _ H1 T2) as [IH1 IH2]. split.
    + rewrite IH1. rewrite E, L. cbn [List.length Nat.eqb].
      destruct acts; cbn [List.length Nat.eqb]; lia.
    + intros _. destruct acts as [|x acts']; [cbn; now rewrite E|].
      apply IH2. discriminate.
Qed.

Lemma history_depth_after_edits_witness :
  List.length (past (history (run initialState twoEdits)))
  = (if Nat.eqb (List.length twoEdits) 0 then List.length (past (history initialState))
     else Nat.min (List.length (past (history initialState)) + List.length twoEdits) 50)
  /\ (twoEdits <> [] -> future (history (run initialState twoEdits)) = []).
Proof.
  apply (history_depth_after_edits initialState twoEdits).
  - cbn. lia.
  - reflexivity.
Defined.

Lemma snapshot_eta (x : EditorSnapshot) :
  mkSnapshot (snap_tracks x) (snap_subtitles x) = x.
Proof. now destruct x. Qed.

Lemma snapshot_record (s : EditorState) :
  snapshot s = mkSnapshot (tracks s) (subtitles s).
Proof.
  rewrite <- (snapshot_eta (snapshot s)). now rewrite snapshot_tracks, snapshot_subtitles.
Qed.

Lemma state_eta (s : EditorState) :
  mkState (tracks s) (subtitles s) (playhead s) (duration s) (zoom s) (isPlaying s)
    (selectedClipId s) (selectedSubtitleId s) (clipboard s) (history s)
    (exportProgress s) (previewUrl s) = s.
Proof. now destruct s. Qed.

Lemma undo_result (u : string) (s : EditorState) (x : EditorSnapshot)
    (rest : list EditorSnapshot) :
  pop (past (history s)) = Some (x, rest) ->
  editorReducer u s UNDO =
    recomputeDuration
      (set_subtitles (snap_subtitles x)
         (set_tracks (snap_tracks x)
            (set_history (mkHistory rest (snapshot s :: future (history s))) s))).
Proof. intros P. cbn [editorReducer]. now rewrite P. Qed.

Lemma redo_result (u : string) (s : EditorState) (x : EditorSnapshot)
    (rest : list EditorSnapshot) :
  future (history s) = x :: rest ->
  editorReducer u s REDO =
    recomputeDuration
      (set_subtitles (snap_subtitles x)
         (set_tracks (snap_tracks x)
            (set_history (mkHistory (past (history s) ++ [snapshot s]) rest) s))).
Proof. intros P. cbn [editorReducer]. now rewrite P. Qed.

(** X3. When there is something to undo, UNDO followed by REDO gives back the
    whole state (tracks, subtitles, history, playhead, selection, ...), up
    to the stored duration, which is recomputed from the tracks. *)
Theorem undo_then_redo (u1 u2 : string) (s : EditorState) :
  past (history s) <> [] ->
  editorReducer u2 (editorReducer u1 s UNDO) REDO = recomputeDuration s.
Proof.
  intros H. destruct (pop (past (history s))) as [[x rest]|] eqn:P.
  2:{ unfold pop in P. destruct (rev (past (history s))) eqn:E; [|discriminate].
      apply (f_equal (@rev _)) in E. rewrite rev_involutive in E. contradiction. }
  pose proof (pop_inv _ _ _ P) as PI.
  rewrite (undo_result u1 s x rest P).
  rewrite (redo_result u2 _ (snapshot s) (future (history s))) by reflexivity.
  rewrite !snapshot_record.
  destruct x as [xt xs]. destruct s as [t sb p d z ip sc ss cb [pa fu] ep pu].
  cbn in *. subst pa. reflexivity.
Qed.

Lemma undo_then_redo_witness :
  editorReducer "" (editorReducer "" twoClipState UNDO) REDO
  = recomputeDuration twoClipState.
Proof.
  apply (undo_then_redo "" "" twoClipState). vm_compute. discriminate.
Defined.

(** X4. When there is something to redo, REDO followed by UNDO gives back the
    whole state, up to the stored duration, which is recomputed from the
    tracks. *)
Theorem redo_then_undo (u1 u2 : string) (s : EditorState) :
  future (history s) <> [] ->
  editorReducer u2 (editorReducer u1 s REDO) UNDO = recomputeDuration s.
Proof.
  intros H. destruct (future (history s)) as [|x rest] eqn:F; [contradiction|].
  rewrite (redo_result u1 s x rest F).
  rewrite (undo_result u2 _ (snapshot s) (past (history s))) by apply pop_snoc.
  rewrite !snapshot_record.
  destruct x as [xt xs]. destruct s as [t sb p d z ip sc ss cb [pa fu] ep pu].
  cbn in *. subst fu. reflexivity.
Qed.

Lemma redo_then_undo_witness :
  editorReducer "" (editorReducer "" undoneState REDO) UNDO
  = recomputeDuration undoneState.
Proof.
  apply (redo_then_undo "" "" undoneState). vm_compute. discriminate.
Defined.

(** *** Durations and sorted tracks *)

Lemma scanClips_spec (cs : list TimelineClip) (acc : Q) :
  acc <= scanClips cs acc /\
  (forall c, In c cs -> clipEnd c <= scanClips cs acc) /\
  (scanClips cs acc = acc \/ exists c, In c cs /\ scanClips cs acc = clipEnd c).
Proof.
  revert acc. induction cs as [|c cs IH]; intros acc.
  - cbn. repeat split; [lra | contradiction | now left].
  - change (scanClips (c :: cs) acc)
      with (scanClips cs (if Qgtb (clipEnd c) acc then clipEnd c else acc)).
    destruct (IH (if Qgtb (clipEnd c) acc then clipEnd c else acc)) as (A & B & C).
    assert (M : acc <= (if Qgtb (clipEnd c) acc then clipEnd c else acc) /\
                clipEnd c <= (if Qgtb (clipEnd c) acc then clipEnd c else acc)).
    { destruct (Qgtb (clipEnd c) acc) eqn:G.
      - apply Qgtb_true in G. split; lra.
      - unfold Qgtb in G. apply negb_false_iff in G. apply Qle_bool_iff in G.
        split; lra. }
    destruct M as [M1 M2]. split; [lra|]. split.
    + intros c' [<-|I]; [lra | now apply B].
    + destruct C as [C|(c' & I & C)].
      * rewrite C. destruct (Qgtb (clipEnd c) acc); [right | now left].
        exists c. split; [now left | reflexivity].
      * right. exists c'. split; [now right | exact C].
Qed.

Lemma scanTracks_spec (ts : list TimelineTrack) (acc : Q) :
  acc <= scanTracks ts acc /\
  (forall t c, In t ts -> In c (t_clips t) -> clipEnd c <= scanTracks ts acc) /\
  (scanTracks ts acc = acc \/
   exists t c, In t ts /\ In c (t_clips t) /\ scanTracks ts acc = clipEnd c).
Proof.
  revert acc. induction ts as [|t ts IH]; intros acc.
  - cbn. repeat split; [lra | contradiction | now left].
  - change (scanTracks (t :: ts) acc) with (scanTracks ts (scanClips (t_clips t) acc)).
    destruct (IH (scanClips (t_clips t) acc)) as (A & B & C).
    destruct (scanClips_spec (t_clips t) acc) as (A' & B' & C').
    split; [lra|]. split.
    + intros t' c [<-|I] J; [specialize (B' c J); lra | now apply (B t')].
    + destruct C as [C|(t' & c & I & J & C)].
      * rewrite C. destruct C' as [C'|(c & J & C')]; [now left|].
        right. exists t, c. repeat split; [now left | exact J | exact C'].
      * right. exists t', c. repeat split; [now right | exact J | exact C].
Qed.

(** X5. [calculateDuration] is the latest clip end: no clip of any track ends
    after it, and it is 0 (no clip ends after 0) or exactly
    [startTime + duration] of some clip. *)
Theorem calculateDuration_is_latest_end (ts : list TimelineTrack) :
  (forall t c, In t ts -> In c (t_clips t) ->
               c_startTime c + c_duration c <= calculateDuration ts) /\
  (calculateDuration ts = 0 \/
   exists t c, In t ts /\ In c (t_clips t) /\
               calculateDuration ts = c_startTime c + c_duration c).
Proof.
  rewrite calculateDuration_scan.
  destruct (scanTracks_spec ts 0) as (_ & B & C). split; [exact B | exact C].
Qed.

Section SortBy.
Context {A : Type}.
Variable key : A -> Q.

Lemma sort_insert_perm (x : A) (l : list A) : Permutation (sort_insert key x l) (x :: l).
Proof.
  induction l as [|y l IH]; cbn; [reflexivity|].
  destruct (Qle_bool (key x) (key y)); [reflexivity|].
  rewrite IH. apply perm_swap.
Qed.

Lemma sort_by_perm (l : list A) : Permutation (sort_by key l) l.
Proof.
  induction l as [|x l IH]; cbn; [reflexivity|].
  change (fold_right (sort_insert key) [] l) with (sort_by key l).
  rewrite sort_insert_perm. now rewrite IH.
Qed.

Lemma sort_insert_sorted (x : A) (l : list A) :
  StronglySorted (fun a b => key a <= key b) l ->
  StronglySorted (fun a b => key a <= key b) (sort_insert key x l).
Proof.
  induction 1 as [|y l S IH F]; cbn.
  - constructor; constructor.
  - destruct (Qle_bool (key x) (key y)) eqn:B.
    + apply Qle_bool_iff in B. constructor; [now constructor|].
      constructor; [exact B|].
      rewrite Forall_forall in *. intros z I. specialize (F z I). cbn in F. lra.
    + assert (N : ~ key x <= key y).
      { intros L. apply Qle_bool_iff in L. congruence. }
      constructor; [exact IH|].
      rewrite Forall_forall in *. intros z I.
      apply (Permutation_in _ (sort_insert_perm x l)) in I.
      destruct I as [<-|I]; [lra | now apply F].
Qed.

Lemma sort_by_sorted (l : list A) :
  StronglySorted (fun a b => key a <= key b) (sort_by key l).
Proof.
  induction l as [|x l IH]; cbn; [constructor|].
  now apply sort_insert_sorted.
Qed.
End SortBy.

Lemma findTrack_nth (ts : list TimelineTrack) (trackId : string) (pos : nat)
    (track : TimelineTrack) :
  findTrack ts trackId = Some (pos, track) ->
  nth_error ts pos = Some track /\ t_id track = trackId.
Proof.
  intros H. apply findIndex_nth in H. destruct H as [H1 H2].
  apply String.eqb_eq in H2. auto.
Qed.

(** X6. ADD_CLIP on an existing track adds exactly that clip to that track and
    leaves the track sorted by start time, whatever order it was in; the
    other tracks are untouched and the stored duration is recomputed. *)
Theorem add_clip_keeps_track_sorted (uuid : string) (s : EditorState) (trackId : string)
    (clip : TimelineClip) (pos : nat) (track : TimelineTrack) :
  findTrack (tracks s) trackId = Some (pos, track) ->
  let s' := editorReducer uuid s (ADD_CLIP trackId clip) in
  exists track',
    nth_error (tracks s') pos = Some track' /\
    t_id track' = trackId /\
    Permutation (t_clips track') (clip :: t_clips track) /\
    StronglySorted byStartTime (t_clips track') /\
    (forall j, j <> pos -> nth_error (tracks s') j = nth_error (tracks s) j) /\
    duration s' = calculateDuration (tracks s').
Proof.
  intros F s'. destruct (findTrack_nth _ _ _ _ F) as [N I].
  assert (E : tracks s' = update_at pos (pushClipSorted clip) (tracks s)).
  { subst s'. cbn [editorReducer]. cbv zeta.
    change (tracks (saveToHistory s)) with (tracks s). now rewrite F. }
  exists (pushClipSorted clip track). split; [|split; [|split; [|split; [|split]]]].
  - rewrite E. now apply update_at_same.
  - exact I.
  - unfold pushClipSorted, set_t_clips. cbn [t_clips]. rewrite sort_by_perm.
    apply Permutation_sym, Permutation_cons_append.
  - unfold pushClipSorted, set_t_clips. cbn [t_clips]. apply sort_by_sorted.
  - intros j J. rewrite E. now apply update_at_other.
  - subst s'. cbn [editorReducer]. cbv zeta.
    change (tracks (saveToHistory s)) with (tracks s). now rewrite F.
Qed.

Lemma add_clip_keeps_track_sorted_witness :
  let s' := editorReducer "" oneClipState (ADD_CLIP "video-track-1" clipB) in
  exists track',
    nth_error (tracks s') 0 = Some track' /\
    t_id track' = "video-track-1" /\
    Permutation (t_clips track') (clipB :: t_clips videoTrackA) /\
    StronglySorted byStartTime (t_clips track') /\
    (forall j, j <> O -> nth_error (tracks s') j = nth_error (tracks oneClipState) j) /\
    duration s' = calculateDuration (tracks s').
Proof.
  apply (add_clip_keeps_track_sorted "" oneClipState "video-track-1" clipB 0 videoTrackA).
  reflexivity.
Defined.

(** X7. ADD_SUBTITLE adds exactly that subtitle and leaves the subtitles sorted
    by start time; the tracks are untouched. *)
Theorem add_subtitle_keeps_sorted (uuid : string) (s : EditorState) (sub : SubtitleItem) :
  let s' := editorReducer uuid s (ADD_SUBTITLE sub) in
  Permutation (subtitles s') (sub :: subtitles s) /\
  StronglySorted subtitlesByStartTime (subtitles s') /\
  tracks s' = tracks s.
Proof.
  cbn [editorReducer]. cbv zeta.
  change (subtitles (saveToHistory s)) with (subtitles s).
  cbn [subtitles set_subtitles tracks].
  split; [|split; [|reflexivity]].
  - rewrite sort_by_perm. apply Permutation_sym, Permutation_cons_append.
  - apply sort_by_sorted.
Qed.

(** *** Removing and trimming *)

Lemma remove_at_length {A : Type} (l : list A) (i : nat) (x : A) :
  nth_error l i = Some x -> S (List.length (remove_at i l)) = List.length l.
Proof.
  revert i. induction l as [|y l IH]; intros [|i] H; cbn in *; try discriminate.
  - reflexivity.
  - f_equal. now apply IH.
Qed.

Lemma removeClip_count (ts : list TimelineTrack) (clipId : string) (pos : nat) :
  match findClip_from pos ts clipId with
  | Some _ => S (clipCount (removeClip ts clipId)) = clipCount ts
  | None => removeClip ts clipId = ts
  end.
Proof.
  revert pos. induction ts as [|t ts IH]; intros pos; cbn [findClip_from removeClip].
  - reflexivity.
  - destruct (findIndex _ (t_clips t)) as [[i c]|] eqn:F.
    + apply findIndex_nth in F. destruct F as [F _].
      unfold clipCount. cbn [flat_map t_clips set_t_clips].
      rewrite !length_app. rewrite <- (remove_at_length _ _ _ F). reflexivity.
    + specialize (IH (S pos)). destruct (findClip_from (S pos) ts clipId).
      * unfold clipCount in *. cbn [flat_map]. rewrite !length_app. lia.
      * now rewrite IH.
Qed.

Lemma remove_at_split {A : Type} (l : list A) (i : nat) :
  remove_at i l = firstn i l ++ skipn (S i) l.
Proof.
  revert i. induction l as [|y l IH]; intros [|i]; cbn; try reflexivity.
  f_equal. apply IH.
Qed.

Lemma update_at_keeps_length {A : Type} (f : A -> A) (l : list A) (i : nat) :
  List.length (update_at i f l) = List.length l.
Proof.
  revert i. induction l as [|y l IH]; intros [|i]; cbn; try reflexivity.
  f_equal. apply IH.
Qed.

Lemma removeClip_place (ts : list TimelineTrack) (clipId : string) (pos : nat) :
  match findClip_from pos ts clipId with
  | Some r =>
      removeClip ts clipId =
        update_at (fc_pos r - pos)
          (fun t => set_t_clips (remove_at (fc_index r) (t_clips t)) t) ts
  | None => removeClip ts clipId = ts
  end.
Proof.
  revert pos. induction ts as [|t ts IH]; intros pos; cbn [findClip_from removeClip].
  - reflexivity.
  - destruct (findIndex _ (t_clips t)) as [[i c]|] eqn:F.
    + cbn [fc_pos fc_index]. rewrite Nat.sub_diag. reflexivity.
    + specialize (IH (S pos)).
      destruct (findClip_from (S pos) ts clipId) as [r|] eqn:G.
      * pose proof (findClip_from_spec _ _ _ _ G) as (k & K & _).
        replace (fc_pos r - pos)%nat with (S (fc_pos r - S pos)) by lia.
        cbn [update_at]. now rewrite IH.
      * now rewrite IH.
Qed.

(** X8. REMOVE_CLIP takes out the clip that [findClip] finds for the id, the
    first one with that id in track order: the track that holds it keeps
    its other clips in their order, every other track is as it was, and
    there is one clip less; when no clip has the id the tracks are left
    alone.  The removed id is no longer the selection, subtitles are
    untouched and the stored duration is recomputed. *)
Theorem remove_clip_removes_one (uuid : string) (s : EditorState) (clipId : string) :
  let s' := editorReducer uuid s (REMOVE_CLIP clipId) in
  match findClip (tracks s) clipId with
  | Some r =>
      let clips := t_clips (fc_track r) in
      nth_error (tracks s) (fc_pos r) = Some (fc_track r) /\
      nth_error clips (fc_index r) = Some (fc_clip r) /\
      c_id (fc_clip r) = clipId /\
      nth_error (tracks s') (fc_pos r) =
        Some (set_t_clips (firstn (fc_index r) clips ++ skipn (S (fc_index r)) clips)
                (fc_track r)) /\
      (forall j, j <> fc_pos r -> nth_error (tracks s') j = nth_error (tracks s) j) /\
      List.length (tracks s') = List.length (tracks s) /\
      S (clipCount (tracks s')) = clipCount (tracks s)
  | None => tracks s' = tracks s
  end /\
  selectedClipId s' <> Some clipId /\
  subtitles s' = subtitles s /\
  duration s' = calculateDuration (tracks s').
Proof.
  intros s'.
  assert (E : tracks s' = removeClip (tracks s) clipId).
  { subst s'. cbn [editorReducer]. cbv zeta.
    destruct (opt_string_eqb _ _); reflexivity. }
  split; [|split; [|split]].
  - pose proof (removeClip_place (tracks s) clipId 0) as P.
    pose proof (removeClip_count (tracks s) clipId 0) as C.
    unfold findClip. destruct (findClip_from 0 (tracks s) clipId) as [r|] eqn:F.
    + destruct (findClip_spec _ _ _ F) as (Ht & Hc & Hi).
      rewrite Nat.sub_0_r in P. cbv zeta.
      split; [exact Ht|]. split; [exact Hc|]. split; [exact Hi|].
      rewrite E. split; [|split; [|split]].
      * rewrite P, (update_at_same _ _ _ _ Ht). now rewrite remove_at_split.
      * intros j Hj. rewrite P. now apply update_at_other.
      * rewrite P. apply update_at_keeps_length.
      * exact C.
    + now rewrite E.
  - subst s'. cbn [editorReducer]. cbv zeta.
    destruct (opt_string_eqb _ clipId) eqn:B; cbn in *; [discriminate|].
    intros X. rewrite X in B. cbn in B. now rewrite String.eqb_refl in B.
  - subst s'. cbn [editorReducer]. cbv zeta.
    destruct (opt_string_eqb _ _); reflexivity.
  - subst s'. cbn [editorReducer]. cbv zeta.
    destruct (opt_string_eqb _ _); reflexivity.
Qed.

Lemma findIndex_update {A : Type} (p : A -> bool) (f : A -> A) (l : list A)
    (i : nat) (x : A) :
  (forall y, p (f y) = p y) ->
  findIndex p l = Some (i, x) ->
  findIndex p (update_at i f l) = Some (i, f x).
Proof.
  intros P. revert i. induction l as [|y l IH]; intros i H; cbn in H; [discriminate|].
  destruct (p y) eqn:Y.
  - inversion H; subst. cbn. now rewrite P, Y.
  - destruct (findIndex p l) as [[j z]|] eqn:F; [|discriminate].
    inversion H; subst. cbn. rewrite Y. now rewrite (IH j eq_refl).
Qed.

Lemma findClip_from_update (f : TimelineClip -> TimelineClip) (ts : list TimelineTrack)
    (clipId : string) (pos : nat) (r : FoundClip) :
  (forall c, c_id (f c) = c_id c) ->
  findClip_from pos ts clipId = Some r ->
  findClip_from pos
    (update_at (fc_pos r - pos)
       (fun t => set_t_clips (update_at (fc_index r) f (t_clips t)) t) ts) clipId
  = Some (mkFound (fc_pos r)
            (set_t_clips (update_at (fc_index r) f (t_clips (fc_track r))) (fc_track r))
            (f (fc_clip r)) (fc_index r)).
Proof.
  intros I. revert pos. induction ts as [|t ts IH]; intros pos H; cbn in H; [discriminate|].
  destruct (findIndex _ (t_clips t)) as [[i c]|] eqn:F.
  - inversion H; subst. cbn [fc_pos fc_index fc_track fc_clip].
    rewrite Nat.sub_diag. cbn [update_at findClip_from t_clips set_t_clips].
    rewrite (findIndex_update _ f _ _ _ (fun y => f_equal (fun z => String.eqb z clipId) (I y)) F).
    reflexivity.
  - pose proof (findClip_from_spec _ _ _ _ H) as (k & K & _).
    replace (fc_pos r - pos)%nat with (S (fc_pos r - S pos)) by lia.
    cbn [update_at findClip_from]. rewrite F. now apply IH.
Qed.

Lemma findClip_update (f : TimelineClip -> TimelineClip) (ts : list TimelineTrack)
    (clipId : string) (r : FoundClip) :
  (forall c, c_id (f c) = c_id c) ->
  findClip ts clipId = Some r ->
  findClip
    (update_at (fc_pos r)
       (fun t => set_t_clips (update_at (fc_index r) f (t_clips t)) t) ts) clipId
  = Some (mkFound (fc_pos r)
            (set_t_clips (update_at (fc_index r) f (t_clips (fc_track r))) (fc_track r))
            (f (fc_clip r)) (fc_index r)).
Proof.
  intros I H. pose proof (findClip_from_update f ts clipId 0 r I H) as X.
  now rewrite Nat.sub_0_r in X.
Qed.

Lemma trim_tracks (uuid : string) (s : EditorState) (clipId : string) (a b : Q)
    (r : FoundClip) :
  findClip (tracks s) clipId = Some r ->
  tracks (editorReducer uuid s (TRIM_CLIP clipId a b)) =
    update_at (fc_pos r)
      (fun t => set_t_clips (update_at (fc_index r) (trimClip a b) (t_clips t)) t)
      (tracks s).
Proof.
  intros F. cbn [editorReducer]. cbv zeta.
  change (tracks (saveToHistory s)) with (tracks s). now rewrite F.
Qed.

(** X9. TRIM_CLIP stores the trims it is given but subtracts them from the
    duration the clip has at that moment: after a trim by (a, b) the clip
    has the duration [d - a - b], and after a second one by (a', b') it has
    trimStart a' and trimEnd b', its start time is unchanged, and its
    duration is [d - a - b - a' - b'], each number subtracted in turn from
    what the earlier ones left. *)
Theorem second_trim_shrinks_again (u1 u2 : string) (s : EditorState) (clipId : string)
    (a b a' b' : Q) (r : FoundClip) :
  findClip (tracks s) clipId = Some r ->
  let s1 := editorReducer u1 s (TRIM_CLIP clipId a b) in
  let s2 := editorReducer u2 s1 (TRIM_CLIP clipId a' b') in
  (exists r1, findClip (tracks s1) clipId = Some r1 /\
              c_trimStart (fc_clip r1) = a /\ c_trimEnd (fc_clip r1) = b /\
              c_startTime (fc_clip r1) = c_startTime (fc_clip r) /\
              c_duration (fc_clip r1) = c_duration (fc_clip r) - a - b) /\
  (exists r2, findClip (tracks s2) clipId = Some r2 /\
              c_trimStart (fc_clip r2) = a' /\ c_trimEnd (fc_clip r2) = b' /\
              c_startTime (fc_clip r2) = c_startTime (fc_clip r) /\
              c_duration (fc_clip r2) = c_duration (fc_clip r) - a - b - a' - b').
Proof.
  intros F s1 s2.
  assert (F1 : findClip (tracks s1) clipId =
               Some (mkFound (fc_pos r)
                       (set_t_clips (update_at (fc_index r) (trimClip a b)
                                       (t_clips (fc_track r))) (fc_track r))
                       (trimClip a b (fc_clip r)) (fc_index r))).
  { subst s1. rewrite (trim_tracks _ _ _ _ _ _ F).
    apply findClip_update; [reflexivity | exact F]. }
  split.
  - eexists. split; [exact F1|]. cbn. repeat split; reflexivity.
  - eexists. split.
    + subst s2. rewrite (trim_tracks _ _ _ _ _ _ F1).
      apply findClip_update; [reflexivity | exact F1].
    + cbn. repeat split; reflexivity.
Qed.

Lemma second_trim_shrinks_again_witness :
  let s1 := editorReducer "" twoClipState (TRIM_CLIP "A" 1 1) in
  let s2 := editorReducer "" s1 (TRIM_CLIP "A" (1 # 2) (1 # 2)) in
  (exists r1, findClip (tracks s1) "A" = Some r1 /\
              c_trimStart (fc_clip r1) = 1 /\ c_trimEnd (fc_clip r1) = 1 /\
              c_startTime (fc_clip r1) = c_startTime (fc_clip foundA) /\
              c_duration (fc_clip r1) = c_duration (fc_clip foundA) - 1 - 1) /\
  (exists r2, findClip (tracks s2) "A" = Some r2 /\
              c_trimStart (fc_clip r2) = (1 # 2) /\ c_trimEnd (fc_clip r2) = (1 # 2) /\
              c_startTime (fc_clip r2) = c_startTime (fc_clip foundA) /\
              c_duration (fc_clip r2)
              = c_duration (fc_clip foundA) - 1 - 1 - (1 # 2) - (1 # 2)).
Proof.
  apply (second_trim_shrinks_again "" "" twoClipState "A" 1 1 (1 # 2) (1 # 2) foundA).
  reflexivity.
Defined.

(** *** Moving, copying, and the actions that only change the view *)

Lemma TrackType_eqb_refl (a : TrackType) : TrackType_eqb a a = true.
Proof. now destruct a. Qed.

Lemma clipCount_update (f : TimelineTrack -> TimelineTrack) (ts : list TimelineTrack)
    (i : nat) (t : TimelineTrack) :
  nth_error ts i = Some t ->
  (clipCount (update_at i f ts) + List.length (t_clips t)
   = clipCount ts + List.length (t_clips (f t)))%nat.
Proof.
  unfold clipCount. revert i. induction ts as [|y ts IH]; intros [|i] H; cbn in *;
    try discriminate.
  - inversion H; subst. rewrite !length_app. lia.
  - rewrite !length_app. specialize (IH i H). lia.
Qed.

(** X10. MOVE_CLIP to another existing track of the same kind takes the clip out
    of its track and puts it, at start time [max(0, newStartTime)], on the
    target track, which is left sorted by start time; other tracks are
    untouched and the number of clips is unchanged. *)
Theorem same_kind_move_relocates (uuid : string) (s : EditorState)
    (clipId : string) (newStartTime : Q) (newTrackId : string)
    (r : FoundClip) (tpos : nat) (target : TimelineTrack) :
  findClip (tracks s) clipId = Some r ->
  newTrackId <> "" ->
  newTrackId <> t_id (fc_track r) ->
  findTrack (tracks s) newTrackId = Some (tpos, target) ->
  t_type target = t_type (fc_track r) ->
  let s' := editorReducer uuid s (MOVE_CLIP clipId newStartTime (Some newTrackId)) in
  let moved := set_c_startTime (Math_max 0 newStartTime) (fc_clip r) in
  tpos <> fc_pos r /\
  0 <= c_startTime moved /\
  nth_error (tracks s') (fc_pos r)
    = Some (set_t_clips (remove_at (fc_index r) (t_clips (fc_track r))) (fc_track r)) /\
  (exists target',
     nth_error (tracks s') tpos = Some target' /\
     t_id target' = newTrackId /\
     Permutation (t_clips target') (moved :: t_clips target) /\
     StronglySorted byStartTime (t_clips target')) /\
  (forall j, j <> fc_pos r -> j <> tpos ->
             nth_error (tracks s') j = nth_error (tracks s) j) /\
  clipCount (tracks s') = clipCount (tracks s).
Proof.
  intros F Hne Hsrc T K s' moved.
  destruct (findClip_spec _ _ _ F) as (Ns & Nc & _).
  destruct (findTrack_nth _ _ _ _ T) as [Nt It].
  assert (D : tpos <> fc_pos r).
  { intros X. rewrite X in Nt. rewrite Ns in Nt. inversion Nt; subst. contradiction. }
  assert (E : tracks s' =
              update_at tpos (pushClipSorted moved)
                (update_at (fc_pos r)
                   (fun t => set_t_clips (remove_at (fc_index r) (t_clips t)) t)
                   (tracks s))).
  { subst s'. cbn [editorReducer]. cbv zeta.
    change (tracks (saveToHistory s)) with (tracks s). rewrite F.
    cbn [tracks set_tracks recomputeDuration set_duration]. unfold moveClipTracks.
    cbn [truthy_string]. apply String.eqb_neq in Hne. rewrite Hne.
    apply String.eqb_neq in Hsrc. rewrite Hsrc. cbn [negb].
    rewrite T, K, TrackType_eqb_refl. reflexivity. }
  split; [exact D|]. split; [apply Math_max_lower|]. split; [|split; [|split]].
  - rewrite E. rewrite update_at_other by congruence.
    now apply (update_at_same
                 (fun t => set_t_clips (remove_at (fc_index r) (t_clips t)) t)).
  - exists (pushClipSorted moved target). split; [|split; [|split]].
    + rewrite E. apply update_at_same. now rewrite update_at_other.
    + exact It.
    + unfold pushClipSorted, set_t_clips. cbn [t_clips]. rewrite sort_by_perm.
      apply Permutation_sym, Permutation_cons_append.
    + unfold pushClipSorted, set_t_clips. cbn [t_clips]. apply sort_by_sorted.
  - intros j J1 J2. rewrite E. now rewrite !update_at_other.
  - rewrite E.
    pose proof (clipCount_update
                  (fun t => set_t_clips (remove_at (fc_index r) (t_clips t)) t)
                  _ _ _ Ns) as C1.
    cbn [t_clips set_t_clips] in C1.
    pose proof (remove_at_length _ _ _ Nc) as L.
    assert (Nt' : nth_error
                    (update_at (fc_pos r)
                       (fun t => set_t_clips (remove_at (fc_index r) (t_clips t)) t)
                       (tracks s)) tpos = Some target)
      by now rewrite update_at_other.
    pose proof (clipCount_update (pushClipSorted moved) _ _ _ Nt') as C2.
    assert (P : List.length (t_clips (pushClipSorted moved target))
                = S (List.length (t_clips target))).
    { unfold pushClipSorted, set_t_clips. cbn [t_clips].
      rewrite (Permutation_length (sort_by_perm _ _)), length_app. cbn. lia. }
    lia.
Qed.

Lemma same_kind_move_relocates_witness :
  let s' := editorReducer "" twoTrackState (MOVE_CLIP "A" 3 (Some "video-track-2")) in
  let moved := set_c_startTime (Math_max 0 3) (fc_clip foundA) in
  2%nat <> fc_pos foundA /\
  0 <= c_startTime moved /\
  nth_error (tracks s') (fc_pos foundA)
    = Some (set_t_clips (remove_at (fc_index foundA) (t_clips (fc_track foundA)))
              (fc_track foundA)) /\
  (exists target',
     nth_error (tracks s') 2 = Some target' /\
     t_id target' = "video-track-2" /\
     Permutation (t_clips target') (moved :: t_clips secondVideoTrack) /\
     StronglySorted byStartTime (t_clips target')) /\
  (forall j, j <> fc_pos foundA -> j <> 2%nat ->
             nth_error (tracks s') j = nth_error (tracks twoTrackState) j) /\
  clipCount (tracks s') = clipCount (tracks twoTrackState).
Proof.
  apply (same_kind_move_relocates "" twoTrackState "A" 3 "video-track-2" foundA 2
           secondVideoTrack).
  - reflexivity.
  - discriminate.
  - discriminate.
  - reflexivity.
  - reflexivity.
Defined.

(** X11. COPY_CLIP changes neither tracks nor history; a PASTE_CLIP that follows
    on an existing track adds one clip there, a copy of the copied clip
    with the fresh id and the given start time, keeps that track sorted,
    pushes one snapshot of the state before and recomputes the duration;
    the clipboard still holds the copied clip. *)
Theorem copy_then_paste (u1 u2 : string) (s : EditorState) (clipId trackId : string)
    (startTime : Q) (r : FoundClip) (pos : nat) (track : TimelineTrack) :
  findClip (tracks s) clipId = Some r ->
  findTrack (tracks s) trackId = Some (pos, track) ->
  let s1 := editorReducer u1 s (COPY_CLIP clipId) in
  let s2 := editorReducer u2 s1 (PASTE_CLIP trackId startTime) in
  let pasted := set_c_startTime startTime (set_c_id u2 (fc_clip r)) in
  tracks s1 = tracks s /\ history s1 = history s /\
  clipboard s2 = Some (fc_clip r) /\
  (exists track',
     nth_error (tracks s2) pos = Some track' /\
     Permutation (t_clips track') (pasted :: t_clips track) /\
     StronglySorted byStartTime (t_clips track')) /\
  (forall j, j <> pos -> nth_error (tracks s2) j = nth_error (tracks s) j) /\
  S (clipCount (tracks s)) = clipCount (tracks s2) /\
  history s2 = pushedHistory s /\
  duration s2 = calculateDuration (tracks s2).
Proof.
  intros F T s1 s2 pasted.
  destruct (findTrack_nth _ _ _ _ T) as [N _].
  assert (E1 : s1 = set_clipboard (Some (fc_clip r)) s).
  { subst s1. cbn [editorReducer]. rewrite F. now rewrite cloneClip_id. }
  assert (E2 : s2 = recomputeDuration
                      (set_tracks (update_at pos (pushClipSorted pasted) (tracks s))
                         (saveToHistory s1))).
  { subst s2. rewrite E1. cbn [editorReducer clipboard set_clipboard]. cbv zeta.
    change (tracks (saveToHistory (set_clipboard (Some (fc_clip r)) s))) with (tracks s).
    rewrite T. reflexivity. }
  split; [now rewrite E1|]. split; [now rewrite E1|].
  split; [rewrite E2, E1; reflexivity|].
  assert (Et : tracks s2 = update_at pos (pushClipSorted pasted) (tracks s))
    by (rewrite E2; reflexivity).
  split; [|split; [|split; [|split]]].
  - exists (pushClipSorted pasted track). split; [|split].
    + rewrite Et. now apply update_at_same.
    + unfold pushClipSorted, set_t_clips. cbn [t_clips]. rewrite sort_by_perm.
      apply Permutation_sym, Permutation_cons_append.
    + unfold pushClipSorted, set_t_clips. cbn [t_clips]. apply sort_by_sorted.
  - intros j J. rewrite Et. now apply update_at_other.
  - rewrite Et. pose proof (clipCount_update (pushClipSorted pasted) _ _ _ N) as C.
    assert (P : List.length (t_clips (pushClipSorted pasted track))
                = S (List.length (t_clips track))).
    { unfold pushClipSorted, set_t_clips. cbn [t_clips].
      rewrite (Permutation_length (sort_by_perm _ _)), length_app. cbn. lia. }
    lia.
  - rewrite E2, E1. reflexivity.
  - rewrite E2. reflexivity.
Qed.

Lemma copy_then_paste_witness :
  let s1 := editorReducer "" twoClipState (COPY_CLIP "A") in
  let s2 := editorReducer "copy-of-A" s1 (PASTE_CLIP "video-track-1" 8) in
  let pasted := set_c_startTime 8 (set_c_id "copy-of-A" (fc_clip foundA)) in
  tracks s1 = tracks twoClipState /\ history s1 = history twoClipState /\
  clipboard s2 = Some (fc_clip foundA) /\
  (exists track',
     nth_error (tracks s2) 0 = Some track' /\
     Permutation (t_clips track') (pasted :: t_clips videoTrackAB) /\
     StronglySorted byStartTime (t_clips track')) /\
  (forall j, j <> O -> nth_error (tracks s2) j = nth_error (tracks twoClipState) j) /\
  S (clipCount (tracks twoClipState)) = clipCount (tracks s2) /\
  history s2 = pushedHistory twoClipState /\
  duration s2 = calculateDuration (tracks s2).
Proof.
  apply (copy_then_paste "" "copy-of-A" twoClipState "A" "video-track-1" 8 foundA 0
           videoTrackAB).
  - reflexivity.
  - reflexivity.
Defined.

Lemma map_update_at_same {A B : Type} (g : A -> B) (f : A -> A) (l : list A) (i : nat) :
  (forall x, g (f x) = g x) -> map g (update_at i f l) = map g l.
Proof.
  intros G. revert i. induction l as [|x l IH]; intros [|i]; cbn; try reflexivity.
  - now rewrite G.
  - now rewrite IH.
Qed.

(** X12. Selecting, copying, seeking, playing, zooming, reporting export
    progress and changing a flag or the volume of a track never touch the
    history, the subtitles, the clips, ids and kinds of the tracks or the
    stored duration. *)
Theorem view_actions_leave_content (uuid : string) (s : EditorState) (a : EditorAction) :
  isViewAction a = true ->
  let s' := editorReducer uuid s a in
  history s' = history s /\
  subtitles s' = subtitles s /\
  map t_clips (tracks s') = map t_clips (tracks s) /\
  map t_id (tracks s') = map t_id (tracks s) /\
  map t_type (tracks s') = map t_type (tracks s) /\
  duration s' = duration s.
Proof.
  intros V. destruct a; try discriminate; cbn [editorReducer]; cbv zeta.
  all: try (repeat split; reflexivity).
  - destruct (findClip _ _); repeat split; reflexivity.
  - destruct (findTrack _ _) as [[pos t]|]; [|repeat split; reflexivity].
    cbn. repeat split; now apply map_update_at_same.
  - destruct (findTrack _ _) as [[pos t]|]; [|repeat split; reflexivity].
    cbn. repeat split; now apply map_update_at_same.
  - destruct (findTrack _ _) as [[pos t]|]; [|repeat split; reflexivity].
    cbn. repeat split; now apply map_update_at_same.
  - destruct (findTrack _ _) as [[pos t]|]; [|repeat split; reflexivity].
    cbn. repeat split; now apply map_update_at_same.
Qed.

Lemma view_actions_leave_content_witness :
  let s' := editorReducer "" twoClipState (TOGGLE_TRACK_VISIBILITY "video-track-1") in
  history s' = history twoClipState /\
  subtitles s' = subtitles twoClipState /\
  map t_clips (tracks s') = map t_clips (tracks twoClipState) /\
  map t_id (tracks s') = map t_id (tracks twoClipState) /\
  map t_type (tracks s') = map t_type (tracks twoClipState) /\
  duration s' = duration twoClipState.
Proof.
  apply (view_actions_leave_content "" twoClipState
           (TOGGLE_TRACK_VISIBILITY "video-track-1")).
  reflexivity.
Defined.

(** *** Runs without track edits and splits *)

Lemma scanTracks_flags (g : TimelineTrack -> TimelineTrack)
    (ts : list TimelineTrack) (i : nat) :
  (forall t, t_clips (g t) = t_clips t) ->
  calculateDuration (update_at i g ts) = calculateDuration ts.
Proof.
  intros G. rewrite !calculateDuration_scan. now apply scanTracks_update_flags.
Qed.

Lemma reducer_recomputes_duration (uuid : string) (s : EditorState) (a : EditorAction) :
  recomputesDuration a = true ->
  duration s = calculateDuration (tracks s) ->
  duration (editorReducer uuid s a) = calculateDuration (tracks (editorReducer uuid s a)).
Proof.
  intros Ha D.
  destruct a; try discriminate.
  - reflexivity.
  - simpl. destruct (findTrack _ _) as [[pos tr]|]; [reflexivity | exact D].
  - simpl. destruct (opt_string_eqb _ _); reflexivity.
  - simpl. destruct (findClip _ _); [reflexivity | exact D].
  - simpl. destruct (findClip _ _); [reflexivity | exact D].
  - exact D.
  - simpl. destruct (findClip _ _); exact D.
  - simpl. destruct (clipboard s) eqn:C; [|exact D]. simpl.
    destruct (findTrack _ _) as [[pos tr]|]; [reflexivity | exact D].
  - simpl. destruct (findTrack _ _) as [[pos tr]|]; [|exact D]. simpl.
    rewrite D. symmetry. now apply scanTracks_flags.
  - simpl. destruct (findTrack _ _) as [[pos tr]|]; [|exact D]. simpl.
    rewrite D. symmetry. now apply scanTracks_flags.
  - simpl. destruct (findTrack _ _) as [[pos tr]|]; [|exact D]. simpl.
    rewrite D. symmetry. now apply scanTracks_flags.
  - simpl. destruct (findTrack _ _) as [[pos tr]|]; [|exact D]. simpl.
    rewrite D. symmetry. now apply scanTracks_flags.
  - simpl. reflexivity.
  - exact D.
  - simpl. destruct (findIndex _ _) as [[i x]|]; exact D.
  - simpl. destruct (opt_string_eqb _ _); exact D.
  - exact D.
  - exact D.
  - exact D.
  - exact D.
  - simpl. destruct (pop _) as [[p rest]|]; [reflexivity | exact D].
  - simpl. destruct (future _); [exact D | reflexivity].
  - exact D.
  - exact D.
  - reflexivity.
Qed.

(** X13. Without ADD_TRACK, REMOVE_TRACK and SPLIT_CLIP the stored duration
    is always the value [calculateDuration(tracks)] has. *)
Theorem duration_recomputed_without_track_edits_or_splits
    (acts : list (string * EditorAction)) :
  forallb (fun ua => recomputesDuration (snd ua)) acts = true ->
  duration (run initialState acts) = calculateDuration (tracks (run initialState acts)).
Proof.
  assert (G : forall s, duration s = calculateDuration (tracks s) ->
                forallb (fun ua => recomputesDuration (snd ua)) acts = true ->
                duration (run s acts) = calculateDuration (tracks (run s acts))).
  { induction acts as [|[u a] acts IH]; intros s D H; simpl in *; [exact D|].
    apply andb_true_iff in H. destruct H as [H1 H2].
    apply IH; [|exact H2].
    apply reducer_recomputes_duration; [exact H1|exact D]. }
  apply G. reflexivity.
Qed.

Lemma duration_recomputed_without_track_edits_or_splits_witness :
  duration (run initialState twoEdits) = calculateDuration (tracks (run initialState twoEdits)).
Proof.
  apply (duration_recomputed_without_track_edits_or_splits twoEdits). reflexivity.
Defined.

End EditorMoreFacts.


(** ** Properties of the preview player *)

Module PreviewFacts.
Import Editor EditorFacts EditorVocabulary EditorMoreFacts PreviewPlayer.

Lemma within_iff (p a b : Q) : within p a b = true <-> a <= p /\ p < b.
Proof.
  unfold within. rewrite andb_true_iff, negb_true_iff, Qle_bool_iff. split.
  - intros [H1 H2]. split; [exact H1|]. apply Qnot_le_lt. intros L.
    apply Qle_bool_iff in L. congruence.
  - intros [H1 H2]. split; [exact H1|]. apply not_true_is_false. intros L.
    apply Qle_bool_iff in L. lra.
Qed.

Lemma active_iff (state : EditorState) (clip : TimelineClip) (track : TimelineTrack) :
  In (clip, track) (getActiveClips state) <->
  In track (tracks state) /\ t_visible track = Some true /\ In clip (t_clips track) /\
  c_startTime clip <= playhead state /\
  playhead state < c_startTime clip + c_duration clip.
Proof.
  unfold getActiveClips. rewrite in_flat_map. split.
  - intros (t & It & I). destruct (t_visible t) as [[|]|] eqn:V; cbn in I; try contradiction.
    apply in_map_iff in I. destruct I as (c & E & I). inversion E; subst.
    apply filter_In in I. destruct I as [I W]. apply within_iff in W. tauto.
  - intros (It & V & Ic & W). exists track. split; [exact It|]. rewrite V. cbn.
    apply in_map_iff. exists clip. split; [reflexivity|].
    apply filter_In. split; [exact Ic|]. now apply within_iff.
Qed.

(** X19. With the playhead at or after [calculateDuration(tracks)] the preview
    has no active clip. *)
Theorem nothing_active_from_the_end (state : EditorState) :
  calculateDuration (tracks state) <= playhead state ->
  getActiveClips state = [].
Proof.
  intros H. destruct (getActiveClips state) as [|[c t] l] eqn:E; [reflexivity|].
  assert (I : In (c, t) (getActiveClips state)) by (rewrite E; now left).
  apply active_iff in I. destruct I as (It & _ & Ic & _ & W).
  rewrite calculateDuration_scan in H.
  destruct (scanTracks_spec (tracks state) 0) as (_ & B & _).
  specialize (B t c It Ic). unfold clipEnd in B. lra.
Qed.

Lemma nothing_active_from_the_end_witness : getActiveClips atTheEnd = [].
Proof.
  apply (nothing_active_from_the_end atTheEnd). vm_compute. discriminate.
Defined.

End PreviewFacts.


(** ** Properties of the quick editor *)

Module VideoEditorFacts.
Import Editor EditorFacts ExportRoute VideoEditor.

Lemma positionsFrom_length (clipTrims : Trims) (cs : list ClipData) (index : nat) (total : Q) :
  List.length (fst (positionsFrom clipTrims index total cs)) = List.length cs.
Proof.
  revert index total. induction cs as [|c cs IH]; intros index total; cbn; [reflexivity|].
  specialize (IH (S index)
                (total + Math_max (1 # 2)
                           (cd_duration c - tr_trimStart (trimOrZero clipTrims index)
                            - tr_trimEnd (trimOrZero clipTrims index)))).
  destruct (positionsFrom _ _ _ cs) as [ps t]. cbn in *. now rewrite IH.
Qed.

Lemma positionsFrom_chained (clipTrims : Trims) (cs : list ClipData) (index : nat) (total : Q) :
  chained total (fst (positionsFrom clipTrims index total cs))
    (snd (positionsFrom clipTrims index total cs)).
Proof.
  revert index total. induction cs as [|c cs IH]; intros index total; cbn; [reflexivity|].
  specialize (IH (S index)
                (total + Math_max (1 # 2)
                           (cd_duration c - tr_trimStart (trimOrZero clipTrims index)
                            - tr_trimEnd (trimOrZero clipTrims index)))).
  destruct (positionsFrom _ _ _ cs) as [ps t]. cbn in *.
  split; [reflexivity|]. split; [|exact IH].
  pose proof (Math_max_lower (1 # 2)
                (cd_duration c - tr_trimStart (trimOrZero clipTrims index)
                 - tr_trimEnd (trimOrZero clipTrims index))). lra.
Qed.

Lemma chained_le (ps : list Position) (a b : Q) : chained a ps b -> a <= b.
Proof.
  revert a. induction ps as [|p ps IH]; cbn [chained firstInside nth_error List.length]; intros a H.
  - subst. lra.
  - destruct H as (E & L & C). apply IH in C. subst a. lra.
Qed.

Lemma chained_grows (ps : list Position) (a b : Q) :
  chained a ps b -> ps <> [] -> a + (1 # 2) <= b.
Proof.
  destruct ps as [|p ps]; [congruence|]. cbn [chained]. intros (E & L & C) _.
  apply chained_le in C. subst a. lra.
Qed.

Lemma chained_nth (ps : list Position) (a b : Q) :
  chained a ps b ->
  (forall p, nth_error ps 0 = Some p -> p_start p = a) /\
  (forall i p q, nth_error ps i = Some p -> nth_error ps (S i) = Some q ->
                 p_start q = p_end p) /\
  (forall i p, nth_error ps i = Some p ->
               (1 # 2) <= p_end p - p_start p /\ a <= p_start p /\ p_end p <= b) /\
  (forall p, nth_error ps (List.length ps - 1) = Some p -> b = p_end p).
Proof.
  revert a. induction ps as [|p ps IH]; cbn [chained firstInside nth_error List.length]; intros a H.
  - repeat split; intros; try discriminate;
      match goal with X : nth_error [] ?i = Some _ |- _ => destruct i; discriminate end.
  - destruct H as (E & L & C). pose proof (chained_le _ _ _ C) as Lb. subst a.
    destruct (IH _ C) as (I0 & I1 & I2 & I3). repeat split.
    + intros p0 [= <-]. reflexivity.
    + intros [|i] p0 q H1 H2; cbn in *.
      * injection H1 as <-. now apply I0.
      * eapply I1; eauto.
    + destruct i as [|i]; cbn in H.
      * injection H as <-. exact L.
      * apply I2 in H. tauto.
    + destruct i as [|i]; cbn in H.
      * injection H as <-. lra.
      * apply I2 in H. lra.
    + destruct i as [|i]; cbn in H.
      * injection H as <-. lra.
      * apply I2 in H. tauto.
    + intros p0 H. destruct ps as [|p1 ps]; cbn in *.
      * injection H as <-. exact C.
      * apply I3. now rewrite Nat.sub_0_r.
Qed.

Lemma positionsFrom_nth (clipTrims : Trims) (cs : list ClipData) (index : nat) (total : Q)
    (i : nat) (p : Position) (clip : ClipData) :
  nth_error (fst (positionsFrom clipTrims index total cs)) i = Some p ->
  nth_error cs i = Some clip ->
  p_end p = p_start p
            + Math_max (1 # 2)
                (cd_duration clip - tr_trimStart (trimOrZero clipTrims (index + i))
                 - tr_trimEnd (trimOrZero clipTrims (index + i))).
Proof.
  revert index total i. induction cs as [|c cs IH]; intros index total i Hp Hc.
  - destruct i; discriminate.
  - cbn [positionsFrom] in Hp.
    specialize (IH (S index)
                  (total + Math_max (1 # 2)
                             (cd_duration c - tr_trimStart (trimOrZero clipTrims index)
                              - tr_trimEnd (trimOrZero clipTrims index)))).
    destruct (positionsFrom _ _ _ cs) as [ps t]. cbn [fst] in *.
    destruct i as [|i]; cbn [nth_error] in Hp, Hc.
    + injection Hp as <-. injection Hc as <-. rewrite Nat.add_0_r. reflexivity.
    + replace (index + S i)%nat with (S index + i)%nat by lia.
      now apply IH.
Qed.

(** X22. The clip positions tile the timeline: one position per clip, the first
    starts at 0, each starts where the previous one ends, each ends at its
    start plus [Math.max(0.5, duration - trimStart - trimEnd)] of its clip
    and not before its start, and [totalDuration] is the end of the last
    one (1 when there is no clip). *)
Theorem clip_positions_tile (cs : list ClipData) (clipTrims : Trims) :
  let positions := clipPositions cs clipTrims in
  List.length positions = List.length cs /\
  (forall p, nth_error positions 0 = Some p -> p_start p = 0) /\
  (forall i p q, nth_error positions i = Some p -> nth_error positions (S i) = Some q ->
                 p_start q = p_end p) /\
  (forall i p clip, nth_error positions i = Some p -> nth_error cs i = Some clip ->
                    let trim := trimOrZero clipTrims i in
                    p_end p = p_start p
                              + Math_max (1 # 2)
                                  (cd_duration clip - tr_trimStart trim - tr_trimEnd trim)) /\
  (forall i p, nth_error positions i = Some p -> p_start p <= p_end p) /\
  (forall p, nth_error positions (List.length positions - 1) = Some p ->
             totalDuration cs clipTrims = p_end p) /\
  (cs = [] -> totalDuration cs clipTrims = 1).
Proof.
  intros positions. subst positions. unfold clipPositions, totalDuration.
  pose proof (positionsFrom_chained clipTrims cs 0 0) as C.
  pose proof (positionsFrom_length clipTrims cs 0 0) as Len.
  destruct (chained_nth _ _ _ C) as (I0 & I1 & I2 & I3).
  split; [exact Len|]. split; [exact I0|]. split; [exact I1|].
  split; [intros i p clip Hp Hc; exact (positionsFrom_nth clipTrims cs 0 0 i p clip Hp Hc)|].
  split; [intros i p H; apply I2 in H; lra|]. split.
  - intros p H. rewrite <- (I3 p H).
    assert (N : fst (positionsFrom clipTrims 0 0 cs) <> []).
    { intros E. rewrite E in H. discriminate. }
    pose proof (chained_grows _ _ _ C N) as G.
    destruct (Qeq_bool _ 0) eqn:B; [|reflexivity].
    apply Qeq_bool_iff in B. lra.
  - intros ->. reflexivity.
Qed.

Lemma inside_iff (t : Q) (p : Position) :
  inside t p = true <-> p_start p <= t /\ t < p_end p.
Proof.
  unfold inside. rewrite andb_true_iff, negb_true_iff, Qle_bool_iff. split.
  - intros [H1 H2]. split; [exact H1|]. apply Qnot_le_lt. intros L.
    apply Qle_bool_iff in L. congruence.
  - intros [H1 H2]. split; [exact H1|]. apply not_true_is_false. intros L.
    apply Qle_bool_iff in L. lra.
Qed.

Lemma firstInside_chained (t : Q) (ps : list Position) (a b : Q) (k : nat) :
  chained a ps b -> a <= t -> t < b ->
  exists i p, firstInside t k ps = Some (k + i)%nat /\ nth_error ps i = Some p /\
              p_start p <= t /\ t < p_end p /\
              forall j q, nth_error ps j = Some q -> p_start q <= t -> t < p_end q -> j = i.
Proof.
  revert a k. induction ps as [|p ps IH]; cbn [chained firstInside nth_error List.length]; intros a k C La Lb.
  - subst. lra.
  - destruct C as (E & L & C). subst a. destruct (inside t p) eqn:I.
    + apply inside_iff in I. exists O, p. rewrite Nat.add_0_r.
      split; [reflexivity|]. split; [reflexivity|]. split; [tauto|]. split; [tauto|].
      intros [|j] q H H1 H2; [reflexivity|]. cbn in H.
      destruct (chained_nth _ _ _ C) as (_ & _ & I2 & _). apply I2 in H. lra.
    + assert (T : p_end p <= t).
      { destruct (Qlt_le_dec t (p_end p)) as [X|X]; [|exact X].
        assert (inside t p = true) by (apply inside_iff; lra). congruence. }
      destruct (IH _ (S k) C T Lb) as (i & q & F & N & L1 & L2 & U).
      exists (S i), q. rewrite F.
      split; [|split; [exact N|split; [exact L1|split; [exact L2|]]]].
      * replace (k + S i)%nat with (S k + i)%nat by lia. reflexivity.
      * intros [|j] q' H H1 H2; cbn in H.
        -- injection H as <-. lra.
        -- f_equal. eapply U; eauto.
Qed.

Lemma firstInside_none (t : Q) (ps : list Position) (a b : Q) (k : nat) :
  chained a ps b -> b <= t -> firstInside t k ps = None.
Proof.
  revert a k. induction ps as [|p ps IH]; cbn [chained firstInside nth_error List.length]; intros a k C L; [reflexivity|].
  destruct C as (E & L1 & C). subst a. pose proof (chained_le _ _ _ C).
  destruct (inside t p) eqn:I.
  - apply inside_iff in I. lra.
  - eapply IH; eauto.
Qed.

(** X23. With at least one clip and a time that is not negative,
    [getCurrentClipIndex] returns, before [totalDuration], the one clip
    whose position holds the time, and from [totalDuration] on the last
    clip. *)
Theorem current_clip_holds_playhead (cs : list ClipData) (clipTrims : Trims)
    (currentTime : Q) :
  cs <> [] -> 0 <= currentTime ->
  let positions := clipPositions cs clipTrims in
  (currentTime < totalDuration cs clipTrims ->
   exists i p,
     getCurrentClipIndex currentTime positions = Some i /\
     nth_error positions i = Some p /\
     p_start p <= currentTime /\ currentTime < p_end p /\
     forall j q, nth_error positions j = Some q ->
                 p_start q <= currentTime -> currentTime < p_end q -> j = i) /\
  (totalDuration cs clipTrims <= currentTime ->
   getCurrentClipIndex currentTime positions = Some (List.length cs - 1)%nat).
Proof.
  intros N L0 positions. subst positions. unfold clipPositions, totalDuration.
  pose proof (positionsFrom_chained clipTrims cs 0 0) as C.
  pose proof (positionsFrom_length clipTrims cs 0 0) as Len.
  assert (N' : fst (positionsFrom clipTrims 0 0 cs) <> []).
  { intros E. rewrite E in Len. destruct cs; [congruence|discriminate]. }
  pose proof (chained_grows _ _ _ C N') as G.
  assert (B : Qeq_bool (snd (positionsFrom clipTrims 0 0 cs)) 0 = false).
  { apply not_true_is_false. intros B. apply Qeq_bool_iff in B. lra. }
  rewrite B. split.
  - intros L. destruct (firstInside_chained _ _ _ _ 0 C L0 L) as (i & p & F & R).
    exists i, p. unfold getCurrentClipIndex. rewrite F. tauto.
  - intros L. unfold getCurrentClipIndex. rewrite (firstInside_none _ _ _ _ 0 C L).
    rewrite Len. destruct cs; [congruence|]. reflexivity.
Qed.

Lemma current_clip_holds_playhead_witness :
  let positions := clipPositions sampleClips sampleTrims in
  ((3 : Q) < totalDuration sampleClips sampleTrims ->
   exists i p,
     getCurrentClipIndex 3 positions = Some i /\
     nth_error positions i = Some p /\
     p_start p <= 3 /\ 3 < p_end p /\
     forall j q, nth_error positions j = Some q ->
                 p_start q <= 3 -> 3 < p_end q -> j = i) /\
  (totalDuration sampleClips sampleTrims <= 3 ->
   getCurrentClipIndex 3 positions = Some (List.length sampleClips - 1)%nat).
Proof.
  apply (current_clip_holds_playhead sampleClips sampleTrims 3).
  - discriminate.
  - discriminate.
Defined.

Lemma fold_weight (words : list string) (acc : Z) :
  fold_left (fun sum w => (sum + wordWeight w)%Z) words acc
  = (acc + totalWeightOf words)%Z.
Proof.
  unfold totalWeightOf. revert acc. induction words as [|w ws IH]; intros acc; cbn.
  - lia.
  - rewrite IH. rewrite (IH (wordWeight w)). lia.
Qed.

Lemma totalWeightOf_cons (w : string) (ws : list string) :
  totalWeightOf (w :: ws) = (wordWeight w + totalWeightOf ws)%Z.
Proof. unfold totalWeightOf at 1. cbn. now rewrite fold_weight. Qed.

Lemma wordWeight_pos (w : string) : (2 <= wordWeight w)%Z.
Proof. unfold wordWeight. lia. Qed.

Lemma totalWeightOf_nonneg (ws : list string) : (0 <= totalWeightOf ws)%Z.
Proof.
  induction ws as [|w ws IH]; [unfold totalWeightOf; cbn; lia|].
  rewrite totalWeightOf_cons. pose proof (wordWeight_pos w). lia.
Qed.

Lemma totalWeightOf_pos (ws : list string) : ws <> [] -> (0 < totalWeightOf ws)%Z.
Proof.
  destruct ws as [|w ws]; [congruence|]. intros _. rewrite totalWeightOf_cons.
  pose proof (wordWeight_pos w). pose proof (totalWeightOf_nonneg ws). lia.
Qed.

Lemma timingsFrom_words (W : Z) (d t0 : Q) (words : list string) :
  map word (timingsFrom W d t0 words) = words.
Proof.
  revert t0. induction words as [|w ws IH]; intros t0; cbn; [reflexivity|].
  now rewrite IH.
Qed.

Lemma timingsFrom_nth (W : Z) (d : Q) (words : list string) (t0 : Q) :
  let ws := timingsFrom W d t0 words in
  (forall w, nth_error ws 0 = Some w -> w_startTime w = t0) /\
  (forall k w w', nth_error ws k = Some w -> nth_error ws (S k) = Some w' ->
                  w_startTime w' = w_endTime w).
Proof.
  revert t0. induction words as [|x xs IH]; intros t0; cbn [timingsFrom].
  - cbn. split; intros; try discriminate;
      match goal with X : nth_error [] ?i = Some _ |- _ => destruct i; discriminate end.
  - destruct (IH (t0 + inject_Z (wordWeight x) / inject_Z W * d)) as (I0 & I1).
    split.
    + intros w [= <-]. reflexivity.
    + intros [|k] w w' H1 H2; cbn [nth_error] in *.
      * injection H1 as <-. cbn. now apply I0.
      * eapply I1; eauto.
Qed.

Lemma share_nonneg (a W : Z) (d : Q) :
  (0 <= a)%Z -> (0 < W)%Z -> 0 <= d -> 0 <= inject_Z a / inject_Z W * d.
Proof.
  intros Ha HW Hd. apply Qmult_le_0_compat; [|exact Hd].
  unfold Qdiv. apply Qmult_le_0_compat.
  - change 0 with (inject_Z 0). now rewrite <- Zle_Qle.
  - apply Qlt_le_weak, Qinv_lt_0_compat. change 0 with (inject_Z 0).
    now rewrite <- Zlt_Qlt.
Qed.

(** The timings of a run of words are in order: none starts before the
    run does or ends before it starts. *)
Lemma timingsFrom_ordered (W : Z) (d : Q) (words : list string) (t0 : Q) :
  (0 < W)%Z -> 0 <= d ->
  StronglySorted before (timingsFrom W d t0 words) /\
  Forall (fun w => t0 <= w_startTime w /\ w_startTime w <= w_endTime w)
    (timingsFrom W d t0 words).
Proof.
  intros HW Hd. revert t0. induction words as [|x xs IH]; intros t0; cbn [timingsFrom].
  - split; constructor.
  - destruct (IH (t0 + inject_Z (wordWeight x) / inject_Z W * d)) as [S F].
    pose proof (wordWeight_pos x) as Px.
    assert (P1 : 0 <= inject_Z (wordWeight x) / inject_Z W * d)
      by (apply share_nonneg; auto; lia).
    split.
    + constructor; [exact S|].
      eapply Forall_impl; [|exact F]. intros w (A & _). unfold before. cbn. exact A.
    + constructor.
      * cbn. split; lra.
      * eapply Forall_impl; [|exact F]. intros w (A & B). split; lra.
Qed.

(** X24. The word timings sent for a line with at least one word, when its
    trimmed duration is not negative: the words of the line in order, the
    first starting at the start of the clip, each starting where the
    previous one ends; no word ends before it starts or starts before the
    clip, and each is over before the next begins. *)
Theorem word_timings_fill_clip (positions : list Position) (clipTrims : Trims)
    (clip : ClipData) (clipIndex : nat) :
  wordsOf (cd_text clip) <> [] ->
  0 <= cd_duration clip - trimStartOf clipTrims clipIndex - trimEndOf clipTrims clipIndex ->
  let ws := clipWords positions clipTrims clip clipIndex in
  let clipStart := startOf positions clipIndex in
  map word ws = wordsOf (cd_text clip) /\
  (forall w, nth_error ws 0 = Some w -> w_startTime w = clipStart) /\
  (forall k w w', nth_error ws k = Some w -> nth_error ws (S k) = Some w' ->
                  w_startTime w' = w_endTime w) /\
  Forall (fun w => clipStart <= w_startTime w /\ w_startTime w <= w_endTime w) ws /\
  StronglySorted before ws.
Proof.
  intros N D ws clipStart.
  subst ws. unfold clipWords.
  destruct (Nat.eqb (List.length (wordsOf (cd_text clip))) 0) eqn:E.
  { apply Nat.eqb_eq in E. destruct (wordsOf (cd_text clip)); [congruence|discriminate]. }
  fold clipStart.
  set (effectiveDuration :=
         cd_duration clip - trimStartOf clipTrims clipIndex - trimEndOf clipTrims clipIndex)
    in *.
  set (totalWeight := totalWeightOf (wordsOf (cd_text clip))).
  destruct (timingsFrom_nth totalWeight effectiveDuration (wordsOf (cd_text clip)) clipStart)
    as (I0 & I1).
  pose proof (totalWeightOf_pos _ N) as P. fold totalWeight in P.
  destruct (timingsFrom_ordered totalWeight effectiveDuration (wordsOf (cd_text clip))
              clipStart P D) as [S F].
  split; [apply timingsFrom_words|]. split; [exact I0|]. split; [exact I1|].
  split; [|exact S].
  exact F.
Qed.

Lemma word_timings_fill_clip_witness :
  let positions := clipPositions sampleClips sampleTrims in
  let clip := mkClipData "line-2" "One simple trick" None (Some "https://cdn/2.mp3") 2 0 0 in
  let ws := clipWords positions sampleTrims clip 1 in
  let clipStart := startOf positions 1 in
  map word ws = wordsOf (cd_text clip) /\
  (forall w, nth_error ws 0 = Some w -> w_startTime w = clipStart) /\
  (forall k w w', nth_error ws k = Some w -> nth_error ws (S k) = Some w' ->
                  w_startTime w' = w_endTime w) /\
  Forall (fun w => clipStart <= w_startTime w /\ w_startTime w <= w_endTime w) ws /\
  StronglySorted before ws.
Proof.
  apply (word_timings_fill_clip (clipPositions sampleClips sampleTrims) sampleTrims
           (mkClipData "line-2" "One simple trick" None (Some "https://cdn/2.mp3") 2 0 0) 1).
  - vm_compute. discriminate.
  - vm_compute. discriminate.
Defined.

Lemma trimOf_assign_same (i : nat) (v : Trim) (a : Trims) :
  trimOf (assign i v a) i = Some v.
Proof.
  unfold trimOf. revert a. induction i as [|i IH]; intros [|x a]; cbn; auto.
Qed.

Lemma trimOf_assign_other (i j : nat) (v : Trim) (a : Trims) :
  j <> i -> trimOf (assign i v a) j = trimOf a j.
Proof.
  unfold trimOf. revert j a. induction i as [|i IH]; intros [|j] [|x a] N; cbn; auto;
    try congruence.
  all: try (now destruct j).
  all: try (rewrite (IH j []) by congruence; now destruct j).
Qed.

Lemma clamp_range (m v : Q) :
  0 <= m -> 0 <= Math_max 0 (Math_min m v) <= m.
Proof.
  intros H. split; [apply Math_max_lower|].
  unfold Math_max, Math_min. apply Q.max_lub; [exact H|]. apply Q.le_min_l.
Qed.

(** X26. Dragging a trim handle keeps every trim between 0 and the cap of its
    clip, [duration * 0.4] (when no duration is negative), gives the
    dragged clip a trim entry, and leaves the trims of the other clips
    alone. *)
Theorem trim_drag_keeps_limit (cs : list ClipData) (clipTrims : Trims)
    (total : Q) (width : option Q) (clipIndex : nat) (edge : Edge) (d : Drag)
    (deltaX : Q) (prev : Trims) :
  (forall clip, In clip cs -> 0 <= cd_duration clip) ->
  handleTrimDrag cs clipTrims total width clipIndex edge = Some d ->
  trimsWithinLimit cs prev ->
  let next := handleMouseMove d deltaX prev in
  trimsWithinLimit cs next /\
  (exists t, trimOf next clipIndex = Some t) /\
  (forall j, j <> clipIndex -> trimOf next j = trimOf prev j).
Proof.
  intros D Hd T next.
  unfold handleTrimDrag in Hd. destruct (nth_error cs clipIndex) as [clip|] eqn:N;
    [|discriminate].
  injection Hd as <-.
  pose proof (D clip (nth_error_In _ _ N)) as Dc.
  assert (M : 0 <= cd_duration clip * (4 # 10)) by lra.
  set (newTrims := match trimOf prev clipIndex with
                   | Some _ => prev
                   | None => assign clipIndex (mkTrim 0 0) prev
                   end).
  assert (Tn : trimsWithinLimit cs newTrims).
  { subst newTrims. destruct (trimOf prev clipIndex) eqn:E; [exact T|].
    intros i c t Hc Ht. destruct (Nat.eq_dec i clipIndex) as [->|Ni].
    - rewrite trimOf_assign_same in Ht. injection Ht as <-. cbn.
      rewrite N in Hc. injection Hc as <-. split; split; lra.
    - rewrite trimOf_assign_other in Ht by exact Ni. eapply T; eauto. }
  assert (On : forall j, j <> clipIndex -> trimOf newTrims j = trimOf prev j).
  { intros j Nj. subst newTrims. destruct (trimOf prev clipIndex); [reflexivity|].
    now apply trimOf_assign_other. }
  assert (Dn : exists t0, trimOf newTrims clipIndex = Some t0).
  { subst newTrims. destruct (trimOf prev clipIndex) eqn:E; [eauto|].
    rewrite trimOf_assign_same. eauto. }
  destruct Dn as [t0 Dn]. destruct (Tn _ _ _ N Dn) as [R1 R2].
  assert (Z0 : trimOrZero newTrims clipIndex = t0) by (unfold trimOrZero; now rewrite Dn).
  assert (W : trimsWithinLimit cs next /\ (exists t, trimOf next clipIndex = Some t) /\
              (forall j, j <> clipIndex -> trimOf next j = trimOf prev j)).
  { subst next. unfold handleMouseMove. cbn [dr_clipIndex dr_edge dr_maxTrim
      dr_initialTrimStart dr_initialTrimEnd dr_pixelsPerSecond]. fold newTrims.
    rewrite Z0.
    destruct edge.
    - split; [|split].
      + intros i c t Hc Ht. destruct (Nat.eq_dec i clipIndex) as [->|Ni].
        * rewrite trimOf_assign_same in Ht. injection Ht as <-. cbn.
          rewrite N in Hc. injection Hc as <-. split; [|exact R2].
          apply clamp_range. exact M.
        * rewrite trimOf_assign_other in Ht by exact Ni. eapply Tn; eauto.
      + rewrite trimOf_assign_same. eauto.
      + intros j Nj. rewrite trimOf_assign_other by exact Nj. now apply On.
    - split; [|split].
      + intros i c t Hc Ht. destruct (Nat.eq_dec i clipIndex) as [->|Ni].
        * rewrite trimOf_assign_same in Ht. injection Ht as <-. cbn.
          rewrite N in Hc. injection Hc as <-. split; [exact R1|].
          apply clamp_range. exact M.
        * rewrite trimOf_assign_other in Ht by exact Ni. eapply Tn; eauto.
      + rewrite trimOf_assign_same. eauto.
      + intros j Nj. rewrite trimOf_assign_other by exact Nj. now apply On. }
  exact W.
Qed.

Lemma trim_drag_keeps_limit_witness :
  let next := handleMouseMove sampleDrag 90 sampleTrims in
  trimsWithinLimit sampleClips next /\
  (exists t, trimOf next 0 = Some t) /\
  (forall j, j <> 0%nat -> trimOf next j = trimOf sampleTrims j).
Proof.
  apply (trim_drag_keeps_limit sampleClips sampleTrims
           (totalDuration sampleClips sampleTrims) (Some 300) 0 EdgeStart sampleDrag 90
           sampleTrims).
  - intros clip [<-|[<-|[]]]; cbn; discriminate.
  - reflexivity.
  - intros [|[|[|i]]] clip t H1 H2; cbn in H1, H2; try discriminate;
      injection H1 as <-; injection H2 as <-; cbn; repeat split; discriminate.
Defined.

Lemma exportClip_url (positions : list Position) (clipTrims : Trims) (c : ClipData)
    (i : nat) :
  negb (String.eqb (videoUrl (exportClip positions clipTrims c i)) "")
  = match truthy_string (cd_videoUrl c) with Some _ => true | None => false end.
Proof.
  unfold exportClip, truthy_string. cbn [videoUrl].
  destruct (cd_videoUrl c) as [u|]; [|reflexivity].
  destruct (String.eqb u "") eqn:E; [reflexivity|]. now rewrite E.
Qed.

Lemma exportClips_from (positions : list Position) (clipTrims : Trims)
    (cs : list ClipData) (i : nat) :
  Nat.eqb (List.length (filter (fun c => negb (String.eqb (videoUrl c) ""))
                          (mapi_from (exportClip positions clipTrims) i cs))) 0
  = negb (hasVideos cs).
Proof.
  revert i. induction cs as [|c cs IH]; intros i; cbn [mapi_from filter hasVideos existsb];
    [reflexivity|].
  rewrite exportClip_url. destruct (truthy_string (cd_videoUrl c)); [reflexivity|].
  apply IH.
Qed.

Lemma timingsFrom_length (W : Z) (d t0 : Q) (words : list string) :
  List.length (timingsFrom W d t0 words) = List.length words.
Proof. rewrite <- (timingsFrom_words W d t0 words) at 2. now rewrite length_map. Qed.

Lemma clipWords_empty (positions : list Position) (clipTrims : Trims) (c : ClipData)
    (i : nat) :
  Nat.ltb 0 (List.length (clipWords positions clipTrims c i)) = hasWords c.
Proof.
  unfold clipWords, hasWords.
  destruct (Nat.eqb (List.length (wordsOf (cd_text c))) 0) eqn:E; [reflexivity|].
  rewrite timingsFrom_length. apply Nat.eqb_neq in E. apply Nat.ltb_lt. cbn. lia.
Qed.

Lemma words_from (positions : list Position) (clipTrims : Trims) (cs : list ClipData)
    (i : nat) :
  Nat.ltb 0 (List.length (List.concat (mapi_from (clipWords positions clipTrims) i cs)))
  = existsb hasWords cs.
Proof.
  revert i. induction cs as [|c cs IH]; intros i; cbn [mapi_from List.concat existsb];
    [reflexivity|].
  rewrite length_app, <- (IH (S i)), <- (clipWords_empty positions clipTrims c i).
  destruct (List.length (clipWords positions clipTrims c i)); [reflexivity|].
  reflexivity.
Qed.

(** X27. [handleExport] with a project: without any video url it shows [No
    videos available to export] and sends nothing; otherwise it sends a
    request whose clips all have a video url, with the chosen audio mix,
    and on that request the server writes and burns subtitles exactly when
    subtitles are enabled and some line has a word, with the chosen
    colours. *)
Theorem export_request_and_subtitle_burn (projectId : string) (cs : list ClipData)
    (clipTrims : Trims) (subtitlesEnabled : bool) (chosen : SubtitleChoice)
    (mix : Doubles.double) :
  let attempt := handleExport (Some projectId) cs clipTrims subtitlesEnabled chosen mix in
  (hasVideos cs = false -> attempt = ShowError "No videos available to export") /\
  (hasVideos cs = true ->
   exists data,
     attempt = Request projectId data /\
     clips data <> [] /\
     Forall (fun c => videoUrl c <> "") (clips data) /\
     audioMix data = mix /\
     subtitleFileWanted data = subtitlesEnabled && existsb hasWords cs /\
     (subtitlesEnabled = true ->
      ExportRoute.subtitleStyle data
      = Some (mkStyle (sc_color chosen) (sc_bgColor chosen) "24"))).
Proof.
  intros attempt. subst attempt. unfold handleExport.
  pose proof (exportClips_from (clipPositions cs clipTrims) clipTrims cs 0) as X.
  fold (exportClips cs (clipPositions cs clipTrims) clipTrims) in X.
  rewrite X. split; intros V; rewrite V in *; cbn [negb] in *; [reflexivity|].
  eexists. split; [reflexivity|]. cbn [clips audioMix].
  split; [|split; [|split; [reflexivity|split]]].
  - intros E. rewrite E in X. discriminate.
  - unfold exportClips. apply Forall_forall. intros c I. apply filter_In in I.
    destruct I as [_ I]. apply negb_true_iff in I. intros E. rewrite E in I. discriminate.
  - unfold subtitleFileWanted. cbn [ExportRoute.subtitles enabled words].
    unfold subtitleWords. destruct subtitlesEnabled; [|reflexivity].
    cbn [andb]. apply words_from.
  - intros ->. reflexivity.
Qed.

End VideoEditorFacts.


(** ** Further properties of the export route *)

Module ExportMoreFacts.
Import Doubles ExportRoute ExportFacts ExportVocabulary.

Lemma progressValues_app (a b : list Event) :
  progressValues (a ++ b) = progressValues a ++ progressValues b.
Proof.
  induction a as [|e a IH]; cbn; [reflexivity|]. destruct e; cbn; now rewrite ?IH.
Qed.

Lemma between_silent {A : Type} (lo hi : Z) (c : M A) : silent c -> emits_between lo hi c.
Proof.
  intros S w w' out H. exists []. rewrite app_nil_r. split; [now apply S in H|].
  split; constructor.
Qed.

Lemma between_widen {A : Type} (lo hi lo' hi' : Z) (c : M A) :
  (lo' <= lo)%Z -> (hi <= hi')%Z -> emits_between lo hi c -> emits_between lo' hi' c.
Proof.
  intros L1 L2 H w w' out E. destruct (H w w' out E) as (new & E1 & S & F).
  exists new. split; [exact E1|]. split; [exact S|].
  eapply Forall_impl; [|exact F]. cbn. intros p ?. lia.
Qed.

Lemma sorted_app_Z (a b : list Z) (mid : Z) :
  StronglySorted Z.le a -> StronglySorted Z.le b ->
  Forall (fun p => (p <= mid)%Z) a -> Forall (fun p => (mid <= p)%Z) b ->
  StronglySorted Z.le (a ++ b).
Proof.
  induction a as [|x a IH]; intros Sa Sb Fa Fb; cbn; [exact Sb|].
  inversion Sa; subst. inversion Fa; subst. constructor; [now apply IH|].
  apply Forall_app. split; [assumption|].
  eapply Forall_impl; [|exact Fb]. cbn. intros p ?. lia.
Qed.

Lemma between_bind {A B : Type} (lo mid hi : Z) (c : M A) (k : A -> M B) :
  emits_between lo mid c -> (forall a, emits_between mid hi (k a)) ->
  (lo <= mid)%Z -> (mid <= hi)%Z ->
  emits_between lo hi (bind c k).
Proof.
  intros Hc Hk L1 L2 w w' out H. apply bind_inv in H.
  destruct H as [(w1 & a & E1 & E2) | (m & E & _)].
  - destruct (Hc _ _ _ E1) as (n1 & X1 & S1 & F1).
    destruct (Hk a _ _ _ E2) as (n2 & X2 & S2 & F2).
    exists (n1 ++ n2). rewrite X2, X1, app_assoc. split; [reflexivity|].
    rewrite progressValues_app. split.
    + apply (sorted_app_Z _ _ mid); auto.
      * eapply Forall_impl; [|exact F1]. cbn. intros p ?. lia.
      * eapply Forall_impl; [|exact F2]. cbn. intros p ?. lia.
    + apply Forall_app. split.
      * eapply Forall_impl; [|exact F1]. cbn. intros p ?. lia.
      * eapply Forall_impl; [|exact F2]. cbn. intros p ?. lia.
  - destruct (Hc _ _ _ E) as (n1 & X1 & S1 & F1). exists n1.
    split; [exact X1|]. split; [exact S1|].
    eapply Forall_impl; [|exact F1]. cbn. intros p ?. lia.
Qed.

Lemma between_emit_progress (p : Z) (status : string) :
  emits_between p p (emit (export_progress p status)).
Proof.
  intros w w' out H. apply emit_run in H. destruct H as [E _].
  exists [export_progress p status]. split; [exact E|]. cbn. split.
  - repeat constructor.
  - repeat constructor; lia.
Qed.

Lemma between_emit_other (lo hi : Z) (e : Event) :
  isProgress e = false -> emits_between lo hi (emit e).
Proof.
  intros P w w' out H. apply emit_run in H. destruct H as [E _].
  exists [e]. split; [exact E|]. destruct e; try discriminate; cbn; split; constructor.
Qed.

(** The share of a loop's span reached before its iteration [i]. *)
Lemma loopProgress_bounds (base span : Z) (i n : nat) :
  (0 <= span)%Z -> (i < n)%nat ->
  (base <= loopProgress base span i n < base + span)%Z \/
  (span = 0%Z /\ loopProgress base span i n = base).
Proof.
  intros Hs Hi. unfold loopProgress.
  set (x := inject_Z (Z.of_nat i) / inject_Z (Z.of_nat n) * inject_Z span).
  assert (Pn : 0 < inject_Z (Z.of_nat n)).
  { change 0 with (inject_Z 0). rewrite <- Zlt_Qlt. lia. }
  assert (Pi : 0 <= inject_Z (Z.of_nat i)).
  { change 0 with (inject_Z 0). rewrite <- Zle_Qle. lia. }
  assert (Ps : 0 <= inject_Z span).
  { change 0 with (inject_Z 0). now rewrite <- Zle_Qle. }
  assert (Lt : inject_Z (Z.of_nat i) < inject_Z (Z.of_nat n)).
  { rewrite <- Zlt_Qlt. lia. }
  assert (R : 0 <= inject_Z (Z.of_nat i) / inject_Z (Z.of_nat n)
              /\ inject_Z (Z.of_nat i) / inject_Z (Z.of_nat n) < 1).
  { split.
    - apply Qle_shift_div_l; [exact Pn|]. lra.
    - apply Qlt_shift_div_r; [exact Pn|]. lra. }
  assert (X0 : 0 <= x).
  { unfold x. apply Qmult_le_0_compat; tauto. }
  assert (F0 : (0 <= Qfloor x)%Z).
  { change 0%Z with (Qfloor 0). now apply Qfloor_resp_le. }
  destruct (Z.eq_dec span 0) as [->|Ns].
  - right. split; [reflexivity|]. unfold x. 
    assert (E : inject_Z (Z.of_nat i) / inject_Z (Z.of_nat n) * inject_Z 0 == 0) by ring.
    rewrite (Qfloor_comp _ _ E). cbn. lia.
  - left. split; [lia|].
    assert (X1 : x < inject_Z span).
    { unfold x. assert (0 < inject_Z span).
      { change 0 with (inject_Z 0). rewrite <- Zlt_Qlt. lia. }
      destruct R as [R0 R1].
      setoid_replace (inject_Z span) with (1 * inject_Z span) at 2 by ring.
      apply Qmult_lt_compat_r; assumption. }
    pose proof (Qfloor_le x) as Fl.
    assert (inject_Z (Qfloor x) < inject_Z span) by lra.
    rewrite <- Zlt_Qlt in H. lia.
Qed.

Lemma loopProgress_mono (base span : Z) (i j n : nat) :
  (0 <= span)%Z -> (i <= j)%nat -> (0 < n)%nat ->
  (loopProgress base span i n <= loopProgress base span j n)%Z.
Proof.
  intros Hs Hij Hn. unfold loopProgress. apply Z.add_le_mono_l. apply Qfloor_resp_le.
  assert (Pn : 0 < inject_Z (Z.of_nat n)).
  { change 0 with (inject_Z 0). rewrite <- Zlt_Qlt. lia. }
  assert (Ps : 0 <= inject_Z span).
  { change 0 with (inject_Z 0). now rewrite <- Zle_Qle. }
  assert (Le : inject_Z (Z.of_nat i) <= inject_Z (Z.of_nat j)).
  { rewrite <- Zle_Qle. lia. }
  apply Qmult_le_compat_r; [|exact Ps].
  unfold Qdiv. apply Qmult_le_compat_r; [exact Le|].
  apply Qlt_le_weak, Qinv_lt_0_compat, Pn.
Qed.

Lemma loopProgress_range (base span : Z) (i n : nat) :
  (0 <= span)%Z -> (i < n)%nat ->
  (base <= loopProgress base span i n <= base + span)%Z.
Proof.
  intros Hs Hi. destruct (loopProgress_bounds base span i n Hs Hi) as [?|[-> ->]]; lia.
Qed.

Lemma between_downloadLoop (env : Env) (workDir : string) (n : nat)
    (rest : list ExportClip) :
  forall i, (i + List.length rest = n)%nat ->
            emits_between (match rest with [] => 20 | _ :: _ => loopProgress 5 15 i n end) 20
              (downloadLoop env workDir n i rest).
Proof.
  induction rest as [|clip rest IH]; intros i Hn; cbn [downloadLoop].
  - apply between_silent, silent_ret.
  - cbn [List.length] in Hn.
    assert (R : (5 <= loopProgress 5 15 i n <= 20)%Z).
    { pose proof (loopProgress_range 5 15 i n). lia. }
    apply (between_bind _ (loopProgress 5 15 i n));
      [apply between_silent, silent_downloadFile | intros _ | lia | lia].
    apply (between_bind _ (loopProgress 5 15 i n));
      [apply between_silent;
       destruct (audioUrl clip); [apply silent_downloadFile | apply silent_ret]
      | intros _ | lia | lia].
    apply (between_bind _ (loopProgress 5 15 i n));
      [apply between_emit_progress | intros _ | lia | lia].
    apply (between_bind _ 20); [|intros; apply between_silent, silent_ret | lia | lia].
    specialize (IH (S i)). destruct rest as [|c' rest'].
    + apply (between_widen 20 20); [lia | lia | apply IH; cbn in *; lia].
    + apply (between_widen (loopProgress 5 15 (S i) n) 20); [|lia|apply IH; cbn in *; lia].
      apply loopProgress_mono; cbn in *; lia.
Qed.

Lemma between_processLoop (env : Env) (audioMix : double) (workDir : string) (n : nat)
    (rest : list Downloaded) :
  forall i, (i + List.length rest = n)%nat ->
            emits_between (match rest with [] => 65 | _ :: _ => loopProgress 25 40 i n end) 65
              (processLoop env audioMix workDir n i rest).
Proof.
  induction rest as [|d rest IH]; intros i Hn; cbn [processLoop].
  - apply between_silent, silent_ret.
  - cbn [List.length] in Hn.
    assert (R : (25 <= loopProgress 25 40 i n <= 65)%Z).
    { pose proof (loopProgress_range 25 40 i n). lia. }
    apply (between_bind _ (loopProgress 25 40 i n));
      [apply between_silent, silent_runFFmpeg | intros _ | lia | lia].
    apply (between_bind _ (loopProgress 25 40 i n));
      [apply between_emit_progress | intros _ | lia | lia].
    apply (between_bind _ 65); [|intros; apply between_silent, silent_ret | lia | lia].
    specialize (IH (S i)). destruct rest as [|c' rest'].
    + apply (between_widen 65 65); [lia | lia | apply IH; cbn in *; lia].
    + apply (between_widen (loopProgress 25 40 (S i) n) 65); [|lia|apply IH; cbn in *; lia].
      apply loopProgress_mono; cbn in *; lia.
Qed.

Lemma between_exportTry (env : Env) (workDir exportId : string) (data : ExportData) :
  emits_between 5 100 (exportTry env workDir exportId data).
Proof.
  unfold exportTry.
  apply (between_bind _ 5); [apply between_emit_progress | intros _ | lia | lia].
  apply (between_bind _ 20); [|intros ds | lia | lia].
  { pose proof (between_downloadLoop env workDir (List.length (clips data)) (clips data)
                  0 eq_refl) as B.
    eapply between_widen; [| |exact B]; [|lia].
    destruct (clips data) as [|c cs] eqn:E; [lia|].
    pose proof (loopProgress_range 5 15 0 (List.length (c :: cs))). cbn in *. lia. }
  apply (between_bind _ 25); [|intros _ | lia | lia].
  { eapply between_widen; [| |apply between_emit_progress]; lia. }
  apply (between_bind _ 65); [|intros ps | lia | lia].
  { pose proof (between_processLoop env (audioMix data) workDir (List.length ds) ds
                  0 eq_refl) as B.
    eapply between_widen; [| |exact B]; [|lia].
    destruct ds as [|c cs] eqn:E; [lia|].
    pose proof (loopProgress_range 25 40 0 (List.length (c :: cs))). cbn in *. lia. }
  apply (between_bind _ 70); [|intros _ | lia | lia].
  { eapply between_widen; [| |apply between_emit_progress]; lia. }
  apply (between_bind _ 70); [|intros subtitlePath | lia | lia].
  { apply between_silent. destruct (subtitleFileWanted data); [|apply silent_ret].
    apply silent_bind; [apply silent_writeFile | intros; apply silent_ret]. }
  apply (between_bind _ 70); [apply between_silent, silent_writeFile | intros _ | lia | lia].
  apply (between_bind _ 70); [apply between_silent, silent_runFFmpeg | intros _ | lia | lia].
  apply (between_bind _ 85); [|intros _ | lia | lia].
  { eapply between_widen; [| |apply between_emit_progress]; lia. }
  apply (between_bind _ 85); [|intros _ | lia | lia].
  { apply between_silent. destruct subtitlePath, (subtitleStyle data); apply silent_runFFmpeg. }
  apply (between_bind _ 92); [|intros _ | lia | lia].
  { eapply between_widen; [| |apply between_emit_progress]; lia. }
  apply (between_bind _ 92); [apply between_silent, silent_reject | intros _ | lia | lia].
  apply (between_bind _ 92); [|intros signedUrl | lia | lia].
  { apply between_silent. destruct (getSignedUrl env); [apply silent_throw | apply silent_ret]. }
  apply (between_bind _ 92);
    [apply between_silent, silent_updateProject | intros _ | lia | lia].
  apply (between_bind _ 100); [|intros _ | lia | lia].
  { eapply between_widen; [| |apply between_emit_progress]; lia. }
  apply (between_bind _ 100); [apply between_emit_other; reflexivity | intros _ | lia | lia].
  apply (between_bind _ 100); [|intros; apply between_silent, silent_ret | lia | lia].
  apply between_silent, cleanup_quiet.
Qed.

Lemma between_mockExport (env : Env) (exportId : string) (data : ExportData) :
  emits_between 5 100 (mockExport env exportId data).
Proof.
  unfold mockExport.
  apply (between_bind _ 10); [|intros _ | lia | lia].
  { eapply between_widen; [| |apply between_emit_progress]; lia. }
  apply (between_bind _ 30); [|intros _ | lia | lia].
  { eapply between_widen; [| |apply between_emit_progress]; lia. }
  apply (between_bind _ 60); [|intros _ | lia | lia].
  { eapply between_widen; [| |apply between_emit_progress]; lia. }
  apply (between_bind _ 90); [|intros _ | lia | lia].
  { eapply between_widen; [| |apply between_emit_progress]; lia. }
  apply (between_bind _ 90);
    [apply between_silent, silent_updateProject | intros _ | lia | lia].
  apply (between_bind _ 100); [|intros _ | lia | lia].
  { eapply between_widen; [| |apply between_emit_progress]; lia. }
  apply (between_bind _ 100); [apply between_emit_other; reflexivity | intros _ | lia | lia].
  apply between_silent, silent_ret.
Qed.

(** X16. Whatever the request and whatever the collaborators answer, the
    progress numbers a run of the handler emits never go back and lie
    between 5 and 100 (mock export included). *)
Theorem progress_never_goes_back (env : Env) (workDir exportId : string)
    (data : ExportData) (w w' : World) (out : Outcome Response) :
  exportHandler env workDir exportId data w = (w', out) ->
  exists new,
    emitted w' = emitted w ++ new /\
    StronglySorted Z.le (progressValues new) /\
    Forall (fun p => (5 <= p <= 100)%Z) (progressValues new).
Proof.
  revert w w' out. change (emits_between 5 100 (exportHandler env workDir exportId data)).
  unfold exportHandler.
  destruct (USE_DEV_MODE env && negb (FFMPEG_AVAILABLE env)); [apply between_mockExport|].
  destruct (negb (FFMPEG_AVAILABLE env)); [apply between_silent, silent_ret|].
  intros w w' out H. unfold tryCatch in H.
  destruct (exportTry env workDir exportId data w) as [w1 [resp|m]] eqn:T;
    apply between_exportTry in T.
  - inversion H; subst. exact T.
  - destruct T as (new & E & S & F). unfold exportCatch in H.
    apply bind_inv in H. destruct H as [(w2 & [] & E2 & H) | (m' & E' & ->)].
    2:{ apply emit_run in E'. destruct E'; discriminate. }
    apply emit_run in E2. destruct E2 as [E2 _]. inversion H; subst.
    exists (new ++ [export_failed m]). rewrite E2, E, app_assoc. split; [reflexivity|].
    rewrite progressValues_app. cbn. rewrite app_nil_r. auto.
Qed.

Lemma progress_never_goes_back_witness :
  let r := exportHandler allGood "/tmp/viralshorts-export-e1" "e1" twoClips emptyWorld in
  exists new,
    emitted (fst r) = emitted emptyWorld ++ new /\
    StronglySorted Z.le (progressValues new) /\
    Forall (fun p => (5 <= p <= 100)%Z) (progressValues new).
Proof.
  apply (progress_never_goes_back allGood "/tmp/viralshorts-export-e1" "e1" twoClips
           emptyWorld _ (snd (exportHandler allGood "/tmp/viralshorts-export-e1" "e1"
                                twoClips emptyWorld))).
  vm_compute. reflexivity.
Defined.

Lemma record_ret {A : Type} (a : A) : keeps_record (ret a).
Proof. intros w w' out H. inversion H. reflexivity. Qed.

Lemma record_bind {A B : Type} (c : M A) (k : A -> M B) :
  keeps_record c -> (forall a, keeps_record (k a)) -> keeps_record (bind c k).
Proof.
  intros Hc Hk w w' out H. apply bind_inv in H.
  destruct H as [(w1 & a & E1 & E2) | (m & E & _)].
  - rewrite (Hk a _ _ _ E2). now apply Hc in E1.
  - now apply Hc in E.
Qed.

Lemma record_emit (e : Event) : keeps_record (emit e).
Proof. intros w w' out H. inversion H. reflexivity. Qed.

Lemma record_unlink (env : Env) (path : string) : keeps_record (unlink env path).
Proof.
  intros w w' out H. unfold unlink in H.
  destruct (unlink_ok env path); inversion H; reflexivity.
Qed.

Lemma record_cleanup (env : Env) (workDir : string) (ds : list Downloaded)
    (ps : list string) (concatListPath outputPath : string) (sub : option string) :
  keeps_record (cleanup env workDir ds ps concatListPath outputPath sub).
Proof.
  unfold cleanup.
  apply record_bind; [|intros _].
  { induction ds as [|d ds IH]; cbn [unlinkDownloaded]; [apply record_ret|].
    apply record_bind; [apply record_unlink | intros _].
    apply record_bind; [|intros _; exact IH].
    destruct (audioPath d); [apply record_unlink | apply record_ret]. }
  apply record_bind; [|intros _].
  { induction ps as [|f ps IH]; cbn [unlinkAll]; [apply record_ret|].
    apply record_bind; [apply record_unlink | intros _; exact IH]. }
  repeat (apply record_bind; [apply record_unlink | intros _]).
  destruct sub; [apply record_unlink | apply record_ret].
Qed.

Lemma recorded_bind {A : Type} (c : M A) (k : A -> M Response) :
  (forall a, replies_recorded (k a)) -> replies_recorded (bind c k).
Proof.
  intros Hk w w' resp H. apply bind_inv in H.
  destruct H as [(w1 & a & E1 & E2) | (m & E & X)]; [|discriminate].
  eapply Hk; eauto.
Qed.

Lemma updateProject_run (env : Env) (exportId url : string) (isMock : bool)
    (w w' : World) (a : unit) :
  updateProject env exportId url isMock w = (w', Returned a) ->
  lastExport w' = Some (exportId, url, isMock) /\ files w' = files w /\
  spawned w' = spawned w.
Proof.
  unfold updateProject, reject_or_unit. destruct (db_update_rejects env); cbn.
  - discriminate.
  - intros H. inversion H. cbn. auto.
Qed.

Lemma recorded_exportTry (env : Env) (workDir exportId : string) (data : ExportData) :
  replies_recorded (exportTry env workDir exportId data).
Proof.
  unfold exportTry.
  apply recorded_bind; intros _.
  apply recorded_bind; intros ds.
  apply recorded_bind; intros _.
  apply recorded_bind; intros ps.
  apply recorded_bind; intros _.
  apply recorded_bind; intros subtitlePath.
  do 6 (apply recorded_bind; intros _).
  apply recorded_bind; intros signedUrl.
  intros w w' resp H.
  apply bind_inv in H. destruct H as [(w1 & [] & E1 & H) | (m & _ & X)]; [|discriminate].
  apply updateProject_run in E1. destruct E1 as (L & _).
  assert (K : keeps_record
                (emit (export_progress 100 "completed") ;;
                 emit (export_completed exportId signedUrl) ;;
                 cleanup env workDir ds ps (join workDir "concat.txt")
                   (join workDir "output.mp4") subtitlePath ;;
                 ret (sendSuccess exportId signedUrl "completed" false))).
  { apply record_bind; [apply record_emit | intros _].
    apply record_bind; [apply record_emit | intros _].
    apply record_bind; [apply record_cleanup | intros _; apply record_ret]. }
  pose proof (K _ _ _ H) as Kw.
  assert (R : resp = sendSuccess exportId signedUrl "completed" false).
  { apply bind_inv in H. destruct H as [(w2 & [] & _ & H) | (m & _ & X)]; [|discriminate].
    apply bind_inv in H. destruct H as [(w3 & [] & _ & H) | (m & _ & X)]; [|discriminate].
    apply bind_inv in H. destruct H as [(w4 & [] & _ & H) | (m & _ & X)]; [|discriminate].
    inversion H. reflexivity. }
  subst resp. cbn. now rewrite Kw.
Qed.

Lemma mockExport_run (env : Env) (exportId : string) (data : ExportData)
    (w w' : World) (resp : Response) :
  mockExport env exportId data w = (w', Returned resp) ->
  resp = sendSuccess exportId (mockUrlOf data) "completed" true /\
  lastExport w' = Some (exportId, mockUrlOf data, true) /\
  files w' = files w /\ spawned w' = spawned w.
Proof.
  unfold mockExport. fold (mockUrlOf data).
  unfold bind, emit, updateProject, reject_or_unit, ret, throw.
  destruct (db_update_rejects env); cbn; intros H; inversion H; auto.
Qed.

(** X17. Whenever the handler answers with success, the reply carries the
    export id of the run and the status [completed], the project record
    holds the same id, url and mock flag under [lastExport] (a real export
    writes no [isMock] key in either place, which reads as [false]), and
    the flag tells a mock run: it is set exactly in development mode
    without FFmpeg, and then the url is the first clip's video url (or the
    sample video) and neither a file nor an [ffmpeg] process was touched. *)
Theorem success_reply_is_recorded (env : Env) (workDir exportId : string)
    (data : ExportData) (w w' : World) (id url status : string) (isMock : bool) :
  exportHandler env workDir exportId data w
    = (w', Returned (sendSuccess id url status isMock)) ->
  id = exportId /\ status = "completed" /\
  lastExport w' = Some (exportId, url, isMock) /\
  isMock = (USE_DEV_MODE env && negb (FFMPEG_AVAILABLE env)) /\
  (isMock = true ->
   url = mockUrlOf data /\ files w' = files w /\ spawned w' = spawned w).
Proof.
  unfold exportHandler.
  destruct (USE_DEV_MODE env && negb (FFMPEG_AVAILABLE env)) eqn:Mode.
  - intros H. apply mockExport_run in H. destruct H as (R & L & F & S).
    inversion R; subst. auto 10.
  - destruct (negb (FFMPEG_AVAILABLE env)); [discriminate|].
    intros H. unfold tryCatch in H.
    destruct (exportTry env workDir exportId data w) as [w1 [resp|m]] eqn:T.
    + inversion H; subst. pose proof (recorded_exportTry _ _ _ _ _ _ _ T) as R.
      apply exportTry_events in T. destruct T as (ps & _ & u & X & _).
      inversion X; subst. cbn in R.
      split; [reflexivity|]. split; [reflexivity|]. split; [exact R|].
      split; [reflexivity|]. discriminate.
    + unfold exportCatch in H. apply bind_inv in H.
      destruct H as [(w2 & [] & E2 & H) | (m' & _ & ?)]; [|discriminate].
      inversion H.
Qed.

Lemma success_reply_is_recorded_witness :
  let r := exportHandler devNoFFmpeg "/tmp/viralshorts-export-e1" "e1" twoClips
             emptyWorld in
  "e1" = "e1" /\ "completed" = "completed" /\
  lastExport (fst r) = Some ("e1", "https://cdn/a.mp4", true) /\
  true = (USE_DEV_MODE devNoFFmpeg && negb (FFMPEG_AVAILABLE devNoFFmpeg)) /\
  (true = true ->
   "https://cdn/a.mp4" = mockUrlOf twoClips /\
   files (fst r) = files emptyWorld /\ spawned (fst r) = spawned emptyWorld).
Proof.
  apply (success_reply_is_recorded devNoFFmpeg "/tmp/viralshorts-export-e1" "e1" twoClips
           emptyWorld).
  vm_compute. reflexivity.
Defined.


(** *** Scratch files, on sample runs *)

Lemma successful_export_cleans_up_witness :
  files (fst (exportHandler allGood "/tmp/viralshorts-export-e1" "e1" twoClips
                emptyWorld)) = [].
Proof.
  apply (successful_export_cleans_up allGood "/tmp/viralshorts-export-e1" "e1" twoClips
           emptyWorld _ "https://storage/signed" "completed" false).
  - reflexivity.
  - intros path. reflexivity.
  - reflexivity.
  - vm_compute. reflexivity.
Defined.
Lemma failed_export_unlinks_nothing_witness :
  exists created,
    files (fst (exportHandler narrationBMissing "/tmp/viralshorts-export-e1" "e1"
                  twoClips emptyWorld)) = created ++ files emptyWorld.
Proof.
  apply (failed_export_unlinks_nothing narrationBMissing "/tmp/viralshorts-export-e1"
           "e1" twoClips emptyWorld _ "Failed to export video. Please try again." 500).
  - reflexivity.
  - vm_compute. reflexivity.
Defined.
End ExportMoreFacts.


(** ** Properties of the subtitle panel *)

Module SubtitlePanelFacts.
Import Editor EditorFacts EditorVocabulary EditorMoreFacts PreviewPlayer PreviewFacts.
Import SubtitlePanel.

(** X21. The subtitle that [handleAddSubtitle] adds starts at the playhead and
    ends at [min(playhead + 3, duration)]: with the playhead before the
    end of the timeline it is active at once; with the playhead at or
    after the end it is empty or ends before it starts, and is active at
    no playhead position. *)
Theorem new_subtitle_shows_only_with_room (uuid : string) (state : EditorState)
    (id : string) (presetStyle : SubtitleStyle) :
  let sub := mkSubtitle id "New subtitle" (playhead state)
               (Math_min (playhead state + 3) (duration state)) presetStyle in
  let state' := editorReducer uuid state (handleAddSubtitle state id presetStyle) in
  In sub (subtitles state') /\
  (playhead state < duration state -> In sub (getActiveSubtitles state')) /\
  (duration state <= playhead state ->
   forall p, ~ In sub (getActiveSubtitles (set_playhead p state'))).
Proof.
  intros sub state'.
  assert (S : subtitles state' = sort_by s_startTime (subtitles state ++ [sub]))
    by reflexivity.
  assert (P : playhead state' = playhead state) by reflexivity.
  assert (I : In sub (subtitles state')).
  { rewrite S. eapply Permutation_in; [symmetry; apply sort_by_perm|].
    apply in_or_app. right. now left. }
  split; [exact I|]. split.
  - intros L. unfold getActiveSubtitles. apply filter_In. split; [exact I|].
    rewrite P. apply within_iff. cbn. split; [lra|].
    unfold Math_min. apply Q.min_glb_lt; lra.
  - intros L p A. unfold getActiveSubtitles in A. apply filter_In in A.
    destruct A as [_ A]. apply within_iff in A. cbn in A.
    pose proof (Q.le_min_r (playhead state + 3) (duration state)) as M.
    unfold Math_min in A. lra.
Qed.

End SubtitlePanelFacts.


(** ** Properties of the timeline built from a project *)

Module EditorPageFacts.
Import Editor EditorFacts EditorVocabulary EditorMoreFacts EditorPage.

Lemma lineDuration_nonneg (data : ProjectData) (line : ScriptLine) :
  (forall v, selectedVideoOf data line = Some v -> 0 <= v_duration v) ->
  (forall vo, voiceovers data (l_id line) = Some vo -> 0 <= vo_duration vo) ->
  0 <= lineDuration data line /\
  (forall vo, voiceovers data (l_id line) = Some vo ->
              vo_duration vo <= lineDuration data line).
Proof.
  intros Hv Ha. unfold lineDuration.
  assert (F : 0 <= match selectedVideoOf data line with
                   | Some v => if Qeq_bool (v_duration v) 0 then 5 else v_duration v
                   | None => 5
                   end).
  { destruct (selectedVideoOf data line) as [v|]; [|lra].
    specialize (Hv v eq_refl). destruct (Qeq_bool (v_duration v) 0); lra. }
  destruct (voiceovers data (l_id line)) as [vo|]; [|split; [exact F|discriminate]].
  specialize (Ha vo eq_refl). destruct (Qeq_bool (vo_duration vo) 0) eqn:Z0.
  - apply Qeq_bool_iff in Z0. split; [exact F|]. intros ? [= <-]. lra.
  - split; [exact Ha|]. intros ? [= <-]. lra.
Qed.

Lemma sorted_snoc {A : Type} (R : A -> A -> Prop) (l : list A) (x : A) :
  StronglySorted R l -> Forall (fun a => R a x) l -> StronglySorted R (l ++ [x]).
Proof.
  induction l as [|a l IH]; intros S F; cbn.
  - repeat constructor.
  - inversion S; subst. inversion F; subst. constructor; [now apply IH|].
    apply Forall_app. split; [assumption|]. now constructor.
Qed.

Lemma addLine_laidOut (data : ProjectData) (b : Built) (line : ScriptLine) :
  (forall v, selectedVideoOf data line = Some v -> 0 <= v_duration v) ->
  (forall vo, voiceovers data (l_id line) = Some vo -> 0 <= vo_duration vo) ->
  laidOut b -> laidOut (addLine data b line).
Proof.
  intros Hv Ha (T & Sv & Sa & F).
  destruct (lineDuration_nonneg data line Hv Ha) as [D Dvo].
  apply Forall_app in F. destruct F as [Fv Fa].
  unfold laidOut, addLine. cbn [currentTime videoClips audioClips].
  split; [lra|]. split; [|split].
  - destruct (selectedVideoOf data line) as [v|]; [|exact Sv].
    apply sorted_snoc; [exact Sv|]. eapply Forall_impl; [|exact Fv].
    intros c [_ E]. unfold precedes. cbn. exact E.
  - destruct (voiceovers data (l_id line)) as [vo|]; [|exact Sa].
    apply sorted_snoc; [exact Sa|]. eapply Forall_impl; [|exact Fa].
    intros c [_ E]. unfold precedes. cbn. exact E.
  - apply Forall_app. split.
    + assert (Fv' : Forall (fun c => 0 <= c_startTime c /\
                                     clipEnd c <= currentTime b + lineDuration data line)
                      (videoClips b)).
      { eapply Forall_impl; [|exact Fv]. cbn. intros c [A B]. split; lra. }
      destruct (selectedVideoOf data line) as [v|]; [|exact Fv'].
      apply Forall_app. split; [exact Fv'|]. constructor; [|constructor].
      unfold clipEnd. cbn. split; lra.
    + assert (Fa' : Forall (fun c => 0 <= c_startTime c /\
                                     clipEnd c <= currentTime b + lineDuration data line)
                      (audioClips b)).
      { eapply Forall_impl; [|exact Fa]. cbn. intros c [A B]. split; lra. }
      destruct (voiceovers data (l_id line)) as [vo|] eqn:E; [|exact Fa'].
      apply Forall_app. split; [exact Fa'|]. constructor; [|constructor].
      unfold clipEnd. cbn. specialize (Dvo vo eq_refl). specialize (Ha vo eq_refl).
      split; lra.
Qed.

Lemma fold_laidOut (data : ProjectData) (scriptLines : list ScriptLine) (b : Built) :
  durationsNonneg data scriptLines -> laidOut b ->
  laidOut (fold_left (addLine data) scriptLines b) /\
  currentTime (fold_left (addLine data) scriptLines b)
  == currentTime b + scriptLength data scriptLines.
Proof.
  revert b. induction scriptLines as [|line rest IH]; intros b N L;
    unfold scriptLength in *; cbn [fold_left fold_right].
  - split; [exact L|ring].
  - destruct (N line (or_introl eq_refl)) as [Hv Ha].
    destruct (IH (addLine data b line)) as [L' E].
    + intros l I. apply N. now right.
    + now apply addLine_laidOut.
    + split; [exact L'|]. rewrite E. cbn [addLine currentTime]. ring.
Qed.



(** The clips built stay within the script, and the running time ends
    where the script does. *)
Lemma build_within_script (data : ProjectData) (scriptLines : list ScriptLine) :
  durationsNonneg data scriptLines ->
  Forall (fun c => 0 <= c_startTime c /\ clipEnd c <= scriptLength data scriptLines)
    (videoClips (build data scriptLines) ++ audioClips (build data scriptLines)) /\
  currentTime (build data scriptLines) == scriptLength data scriptLines.
Proof.
  intros N. unfold build.
  destruct (fold_laidOut data scriptLines (mkBuilt [] [] 0) N) as [(T & Sv & Sa & F) E].
  { unfold laidOut. cbn. repeat split; try constructor. lra. }
  cbn [currentTime] in E. rewrite Qplus_0_l in E.
  split; [|exact E].
  eapply Forall_impl; [|exact F]. cbn. intros c [A B]. rewrite <- E. tauto.
Qed.

Lemma build_snoc (data : ProjectData) (scriptLines : list ScriptLine) (line : ScriptLine) :
  build data (scriptLines ++ [line]) = addLine data (build data scriptLines) line.
Proof. unfold build. now rewrite fold_left_app. Qed.

Lemma last_video_ends_script (data : ProjectData) (scriptLines : list ScriptLine) :
  scriptLines <> [] ->
  (forall line, In line scriptLines -> selectedVideoOf data line <> None) ->
  exists c, In c (videoClips (build data scriptLines)) /\
            clipEnd c = currentTime (build data scriptLines).
Proof.
  intros N V. destruct (exists_last N) as (front & line & ->).
  rewrite build_snoc. unfold addLine. cbn [videoClips currentTime].
  destruct (selectedVideoOf data line) as [v|] eqn:E.
  - eexists. split; [apply in_or_app; right; left; reflexivity|]. reflexivity.
  - exfalso. apply (V line); [apply in_or_app; right; now left|exact E].
Qed.



End EditorPageFacts.
